(** * OpenCut: preload scheduler and performance monitor

    A shallow embedding of [apps/web/src/lib/video-preloader.ts] (class
    [VideoPreloader]) and of the threshold evaluation of
    [apps/web/src/lib/performance-monitor.ts] (class [PerformanceMonitor]),
    together with the properties the specification states about them.

    Numbers.  A TypeScript [number] is modelled by [JS.number]: an exact
    rational, or one of the three IEEE special values NaN, -Infinity and
    +Infinity.  Rounding of finite values and the sign of zero are not
    modelled; comparisons, [Math.max], [Math.min] and the arithmetic
    operators treat the special values as ECMAScript does. *)

From Stdlib Require Import QArith ZArith List Bool String Lia Lqa.
From Stdlib Require Import Qround Qabs Qminmax Sorted Permutation.
Import ListNotations.

Local Open Scope Q_scope.

(* ------------------------------------------------------------------ *)
(** ** ECMAScript numbers *)
(* ------------------------------------------------------------------ *)

Module JS.

Inductive number : Type :=
| NaN
| NegInf
| Fin (q : Q)
| PosInf.

Definition Qltb (p q : Q) : bool := negb (Qle_bool q p).

(** [a < b] *)
Definition lt (a b : number) : bool :=
  match a, b with
  | NaN, _ | _, NaN => false
  | _, NegInf => false
  | PosInf, _ => false
  | NegInf, _ => true
  | Fin _, PosInf => true
  | Fin p, Fin q => Qltb p q
  end.

(** [a > b] *)
Definition gt (a b : number) : bool := lt b a.

(** [a <= b] *)
Definition le (a b : number) : bool :=
  match a, b with
  | NaN, _ | _, NaN => false
  | NegInf, _ => true
  | _, PosInf => true
  | Fin p, Fin q => Qle_bool p q
  | _, _ => false
  end.

(** [Math.max(a, b)] *)
Definition max (a b : number) : number :=
  match a, b with
  | NaN, _ | _, NaN => NaN
  | PosInf, _ | _, PosInf => PosInf
  | NegInf, x | x, NegInf => x
  | Fin p, Fin q => if Qle_bool p q then Fin q else Fin p
  end.

(** [Math.min(a, b)] *)
Definition min (a b : number) : number :=
  match a, b with
  | NaN, _ | _, NaN => NaN
  | NegInf, _ | _, NegInf => NegInf
  | PosInf, x | x, PosInf => x
  | Fin p, Fin q => if Qle_bool p q then Fin p else Fin q
  end.

(** unary [-a] *)
Definition neg (a : number) : number :=
  match a with
  | NaN => NaN
  | NegInf => PosInf
  | Fin q => Fin (- q)
  | PosInf => NegInf
  end.

(** [a + b] *)
Definition add (a b : number) : number :=
  match a, b with
  | NaN, _ | _, NaN => NaN
  | PosInf, NegInf | NegInf, PosInf => NaN
  | PosInf, _ | _, PosInf => PosInf
  | NegInf, _ | _, NegInf => NegInf
  | Fin p, Fin q => Fin (p + q)
  end.

(** [a - b] *)
Definition sub (a b : number) : number := add a (neg b).

(** The infinity with the sign of [q * s], or NaN when [q] is zero;
    [s] is [true] for a positive infinity. *)
Definition signed_inf (q : Q) (s : bool) : number :=
  if Qeq_bool q 0 then NaN
  else if Bool.eqb (Qltb 0 q) s then PosInf else NegInf.

(** [a * b] *)
Definition mul (a b : number) : number :=
  match a, b with
  | NaN, _ | _, NaN => NaN
  | PosInf, PosInf | NegInf, NegInf => PosInf
  | PosInf, NegInf | NegInf, PosInf => NegInf
  | Fin p, PosInf | PosInf, Fin p => signed_inf p true
  | Fin p, NegInf | NegInf, Fin p => signed_inf p false
  | Fin p, Fin q => Fin (p * q)
  end.

(** [a / b]; a finite zero divisor is taken to be [+0]. *)
Definition div (a b : number) : number :=
  match a, b with
  | NaN, _ | _, NaN => NaN
  | (PosInf | NegInf), (PosInf | NegInf) => NaN
  | Fin _, (PosInf | NegInf) => Fin 0
  | PosInf, Fin q => if Qltb q 0 then NegInf else PosInf
  | NegInf, Fin q => if Qltb q 0 then PosInf else NegInf
  | Fin p, Fin q =>
      if Qeq_bool q 0 then signed_inf p true else Fin (p / q)
  end.

(** [Math.abs(a)] *)
Definition abs (a : number) : number :=
  match a with
  | NaN => NaN
  | NegInf | PosInf => PosInf
  | Fin q => Fin (Qabs q)
  end.

(** [Math.round(a)]: the nearest integer, halves rounded up. *)
Definition round (a : number) : number :=
  match a with
  | Fin q => Fin (inject_Z (Qfloor (q + (1 # 2))))
  | x => x
  end.

Definition of_Z (z : Z) : number := Fin (inject_Z z).

Definition is_finite (a : number) : bool :=
  match a with Fin _ => true | _ => false end.

(** [Number.isInteger(a)] *)
Definition isInteger (a : number) : bool :=
  match a with
  | Fin q => Qeq_bool q (inject_Z (Qfloor q))
  | _ => false
  end.

(** Equality of the denoted values (fractions up to [Qeq]). *)
Definition same (a b : number) : Prop :=
  match a, b with
  | NaN, NaN | NegInf, NegInf | PosInf, PosInf => True
  | Fin p, Fin q => p == q
  | _, _ => False
  end.

(** [lo <= a <= hi] for a finite [a]; false of every special value. *)
Definition within (lo hi : Q) (a : number) : Prop :=
  match a with
  | Fin q => lo <= q /\ q <= hi
  | _ => False
  end.

End JS.

(* ------------------------------------------------------------------ *)
(** ** Timeline and media registry *)
(* ------------------------------------------------------------------ *)

(** Modelled from the spec: the declarations of [@/types/media] and
    [@/types/timeline] (section 6: a media file has an id, a declared type
    and a byte source handle; a track is an ordered list of elements; a
    media-typed element refers to a media file id and has a start time, a
    duration and in/out trim offsets).  Only the fields that
    [video-preloader.ts] reads are kept. *)

Definition File : Type := string.

Inductive MediaType : Type := ImageMedia | VideoMedia | AudioMedia.

Record MediaFile : Type := mkMediaFile {
  media_id : string;
  media_type : MediaType;
  media_file : option File
}.

Inductive TrackType : Type := MediaTrack | TextTrack | AudioTrack.

Inductive ElementType : Type := MediaKind | TextKind.

(** [el_mediaId] is only read once [el_type] is known to be [MediaKind]. *)
Record MediaElement : Type := mkElement {
  el_type : ElementType;
  el_mediaId : string;
  startTime : JS.number;
  duration : JS.number;
  trimStart : JS.number;
  trimEnd : JS.number;
  hidden : bool
}.

Record TimelineTrack : Type := mkTrack {
  track_type : TrackType;
  muted : bool;
  elements : list MediaElement
}.

Definition is_video (t : MediaType) : bool :=
  match t with VideoMedia => true | _ => false end.

Definition is_media_track (t : TrackType) : bool :=
  match t with MediaTrack => true | _ => false end.

Definition is_media_element (t : ElementType) : bool :=
  match t with MediaKind => true | _ => false end.

(** [mediaFiles.find((m) => m.id === mediaId)] *)
Definition findMedia (mediaFiles : list MediaFile) (mediaId : string)
  : option MediaFile :=
  find (fun m => String.eqb (media_id m) mediaId) mediaFiles.

(* ------------------------------------------------------------------ *)
(** ** The preloader object *)
(* ------------------------------------------------------------------ *)

Record PreloadJob : Type := mkJob {
  job_mediaId : string;
  job_file : File;
  targetTime : JS.number;
  priority : JS.number
}.

Record VideoPreloader : Type := mkPreloader {
  preloadQueue : list PreloadJob;
  isPreloading : bool;
  preloadRadius : JS.number;
  maxConcurrentPreloads : JS.number;
  currentPreloads : Z
}.

(** Field initialisers of the class. *)
Definition newPreloader : VideoPreloader :=
  {| preloadQueue := [];
     isPreloading := false;
     preloadRadius := JS.Fin 3;
     maxConcurrentPreloads := JS.Fin 2;
     currentPreloads := 0%Z |}.

Definition set_queue (q : list PreloadJob) (p : VideoPreloader) :=
  {| preloadQueue := q;
     isPreloading := isPreloading p;
     preloadRadius := preloadRadius p;
     maxConcurrentPreloads := maxConcurrentPreloads p;
     currentPreloads := currentPreloads p |}.

Definition set_isPreloading (b : bool) (p : VideoPreloader) :=
  {| preloadQueue := preloadQueue p;
     isPreloading := b;
     preloadRadius := preloadRadius p;
     maxConcurrentPreloads := maxConcurrentPreloads p;
     currentPreloads := currentPreloads p |}.

Definition set_preloadRadius (r : JS.number) (p : VideoPreloader) :=
  {| preloadQueue := preloadQueue p;
     isPreloading := isPreloading p;
     preloadRadius := r;
     maxConcurrentPreloads := maxConcurrentPreloads p;
     currentPreloads := currentPreloads p |}.

Definition set_maxConcurrentPreloads (m : JS.number) (p : VideoPreloader) :=
  {| preloadQueue := preloadQueue p;
     isPreloading := isPreloading p;
     preloadRadius := preloadRadius p;
     maxConcurrentPreloads := m;
     currentPreloads := currentPreloads p |}.

Definition set_currentPreloads (c : Z) (p : VideoPreloader) :=
  {| preloadQueue := preloadQueue p;
     isPreloading := isPreloading p;
     preloadRadius := preloadRadius p;
     maxConcurrentPreloads := maxConcurrentPreloads p;
     currentPreloads := c |}.

(** *** [clearQueue], [getStats], [configure] *)

Definition clearQueue (p : VideoPreloader) : VideoPreloader :=
  set_queue [] p.

Record Stats : Type := mkStats {
  queueLength : nat;
  activePreloads : Z;
  stats_isPreloading : bool
}.

Definition getStats (p : VideoPreloader) : Stats :=
  {| queueLength := List.length (preloadQueue p);
     activePreloads := currentPreloads p;
     stats_isPreloading := isPreloading p |}.

(** The argument object of [configure]; [None] is an omitted
    ([undefined]) field. *)
Record Config : Type := mkConfig {
  cfg_preloadRadius : option JS.number;
  cfg_maxConcurrentPreloads : option JS.number
}.

Definition configure (c : Config) (p : VideoPreloader) : VideoPreloader :=
  let p1 :=
    match cfg_preloadRadius c with
    | Some r => set_preloadRadius (JS.max (JS.Fin 1) (JS.min (JS.Fin 10) r)) p
    | None => p
    end in
  match cfg_maxConcurrentPreloads c with
  | Some m =>
      set_maxConcurrentPreloads (JS.max (JS.Fin 1) (JS.min (JS.Fin 4) m)) p1
  | None => p1
  end.

(** *** Planning: [findRelevantVideoElements] and the job loop *)

(** [element.startTime + element.duration - element.trimStart - element.trimEnd] *)
Definition elementEnd (e : MediaElement) : JS.number :=
  JS.sub (JS.sub (JS.add (startTime e) (duration e)) (trimStart e)) (trimEnd e).

Definition relevantElement (searchStart searchEnd : JS.number)
    (mediaFiles : list MediaFile) (element : MediaElement) : bool :=
  if negb (is_media_element (el_type element)) || hidden element then false
  else if JS.lt (startTime element) searchEnd
          && JS.gt (elementEnd element) searchStart
  then match findMedia mediaFiles (el_mediaId element) with
       | Some mediaItem => is_video (media_type mediaItem)
       | None => false
       end
  else false.

Definition findRelevantVideoElements (currentTime : JS.number)
    (tracks : list TimelineTrack) (mediaFiles : list MediaFile)
    (lookAheadTime : JS.number) : list MediaElement :=
  let searchStart := JS.sub currentTime (JS.Fin 1) in
  let searchEnd := JS.add currentTime lookAheadTime in
  flat_map
    (fun track =>
       if muted track || negb (is_media_track (track_type track)) then []
       else filter (relevantElement searchStart searchEnd mediaFiles)
                   (elements track))
    tracks.

Definition frameInterval : JS.number := JS.Fin (1 # 24).

(** [for (let time = preloadStart; time < preloadEnd; time += frameInterval)]:
    the values [time] takes in the loop body, at most [fuel] of them.
    [time] advances in exact arithmetic; the rounding that the repeated
    addition accumulates in doubles is outside the model. *)
Fixpoint sampleLoop (fuel : nat) (time preloadEnd : JS.number)
  : list JS.number :=
  match fuel with
  | O => []
  | S fuel' =>
      if JS.lt time preloadEnd
      then time :: sampleLoop fuel' (JS.add time frameInterval) preloadEnd
      else []
  end.

(** The number of turns of the loop between two finite bounds. *)
Definition sampleCount (preloadStart preloadEnd : JS.number) : nat :=
  match preloadStart, preloadEnd with
  | JS.Fin a, JS.Fin b => Z.to_nat (Qceiling ((b - a) * 24))
  | _, _ => O
  end.

Definition sampleTimes (preloadStart preloadEnd : JS.number)
  : list JS.number :=
  sampleLoop (sampleCount preloadStart preloadEnd) preloadStart preloadEnd.

(** [Math.max(0, 100 - distanceFromCurrent * 10)] *)
Definition jobPriority (currentTime time : JS.number) : JS.number :=
  let distanceFromCurrent := JS.abs (JS.sub time currentTime) in
  JS.max (JS.Fin 0) (JS.sub (JS.Fin 100) (JS.mul distanceFromCurrent (JS.Fin 10))).

(** [time - elementStart + element.trimStart] *)
Definition localTime (element : MediaElement) (time : JS.number) : JS.number :=
  JS.add (JS.sub time (startTime element)) (trimStart element).

Definition makeJob (currentTime : JS.number) (element : MediaElement)
    (mediaItem : MediaFile) (f : File) (time : JS.number) : PreloadJob :=
  {| job_mediaId := media_id mediaItem;
     job_file := f;
     targetTime := localTime element time;
     priority := jobPriority currentTime time |}.

Definition preloadStart (currentTime adjustedRadius : JS.number)
    (element : MediaElement) : JS.number :=
  JS.max (startTime element) (JS.sub currentTime adjustedRadius).

Definition preloadEnd (currentTime adjustedRadius : JS.number)
    (element : MediaElement) : JS.number :=
  JS.min (elementEnd element) (JS.add currentTime adjustedRadius).

(** The body of [for (const element of videoElements)]: the jobs pushed
    for one element. *)
Definition jobsForElement (currentTime adjustedRadius : JS.number)
    (mediaFiles : list MediaFile) (element : MediaElement)
  : list PreloadJob :=
  match findMedia mediaFiles (el_mediaId element) with
  | None => []
  | Some mediaItem =>
      if negb (is_video (media_type mediaItem)) then []
      else match media_file mediaItem with
           | None => []
           | Some f =>
               map (makeJob currentTime element mediaItem f)
                   (sampleTimes
                      (preloadStart currentTime adjustedRadius element)
                      (preloadEnd currentTime adjustedRadius element))
           end
  end.

Record PreloadArgs : Type := mkArgs {
  currentTime : JS.number;
  tracks : list TimelineTrack;
  mediaFiles : list MediaFile;
  playbackSpeed : option JS.number
}.

(** The default parameter value [playbackSpeed = 1]. *)
Definition speedOf (a : PreloadArgs) : JS.number :=
  match playbackSpeed a with Some v => v | None => JS.Fin 1 end.

(** [this.preloadRadius / Math.max(0.5, playbackSpeed)] *)
Definition adjustedRadius (p : VideoPreloader) (a : PreloadArgs) : JS.number :=
  JS.div (preloadRadius p) (JS.max (JS.Fin (1 # 2)) (speedOf a)).

(** The jobs pushed by the two nested loops of [schedulePreload], in
    push order. *)
Definition planJobs (p : VideoPreloader) (a : PreloadArgs) : list PreloadJob :=
  let r := adjustedRadius p a in
  flat_map (jobsForElement (currentTime a) r (mediaFiles a))
    (findRelevantVideoElements (currentTime a) (tracks a) (mediaFiles a) r).

(** *** Sorting: [preloadQueue.sort((a, b) => b.priority - a.priority)] *)

Definition compareJobs (a b : PreloadJob) : JS.number :=
  JS.sub (priority b) (priority a).

(** A negative comparator result puts [a] before [b]. *)
Definition sortsBefore (a b : PreloadJob) : bool :=
  JS.lt (compareJobs a b) (JS.Fin 0).

(** [Array.prototype.sort] is stable; with a consistent comparator its
    result is the one stable arrangement, computed here by insertion. *)
Fixpoint insertJob (x : PreloadJob) (l : list PreloadJob) : list PreloadJob :=
  match l with
  | [] => [x]
  | y :: l' => if sortsBefore y x then y :: insertJob x l' else x :: l
  end.

Fixpoint sortJobs (l : list PreloadJob) : list PreloadJob :=
  match l with
  | [] => []
  | x :: l' => insertJob x (sortJobs l')
  end.

(* ------------------------------------------------------------------ *)
(** ** The event loop around the preloader *)
(* ------------------------------------------------------------------ *)

(** How [videoCache.getFrameAt] (an [async] method of the frame cache)
    settles the promise it returned. *)
Inductive Settlement : Type :=
| Resolved
| Rejected (error : string).

(** The preloader object together with what the browser holds for it:
    - [idle]: callbacks registered with [requestIdleCallback] that have not
      run yet, oldest first, each with the job it closes over;
    - [awaiting]: callbacks suspended at [await videoCache.getFrameAt(..)];
    - [calls]: the calls made into the frame cache, oldest first;
    - [warnings]: the jobs reported by [console.warn]. *)
Record World : Type := mkWorld {
  self : VideoPreloader;
  idle : list PreloadJob;
  awaiting : list PreloadJob;
  calls : list PreloadJob;
  warnings : list (PreloadJob * string)
}.

Definition newWorld : World :=
  {| self := newPreloader; idle := []; awaiting := []; calls := [];
     warnings := [] |}.

Definition with_self (p : VideoPreloader) (w : World) : World :=
  {| self := p; idle := idle w; awaiting := awaiting w; calls := calls w;
     warnings := warnings w |}.

(** The [while] loop of [processPreloadQueue]: shifts jobs off the queue
    and counts them as active while [currentPreloads < maxConcurrentPreloads].
    ([if (!job) break] never fires: the queue holds objects only.)
    Returns the jobs handed to [requestIdleCallback] (in order), the queue
    that remains and the new counter. *)
Fixpoint startJobs (maxConcurrent : JS.number) (current : Z)
    (queue : list PreloadJob) : list PreloadJob * list PreloadJob * Z :=
  match queue with
  | [] => ([], [], current)
  | job :: rest =>
      if JS.lt (JS.of_Z current) maxConcurrent
      then let '(started, remaining, c) :=
             startJobs maxConcurrent (current + 1) rest in
           (job :: started, remaining, c)
      else ([], queue, current)
  end.

Definition processPreloadQueue (w : World) : World :=
  let p := self w in
  if isPreloading p || Nat.eqb (List.length (preloadQueue p)) 0 then w
  else
    let p1 := set_isPreloading true p in
    let '(started, remaining, c) :=
      startJobs (maxConcurrentPreloads p1) (currentPreloads p1)
                (preloadQueue p1) in
    let p2 := set_currentPreloads c (set_queue remaining p1) in
    let p3 := if Z.eqb (currentPreloads p2) 0
              then set_isPreloading false p2 else p2 in
    {| self := p3; idle := idle w ++ started; awaiting := awaiting w;
       calls := calls w; warnings := warnings w |}.

Definition schedulePreload (a : PreloadArgs) (w : World) : World :=
  (* Clear old jobs *)
  let p0 := set_queue [] (self w) in
  (* Create preload jobs *)
  let p1 := set_queue (preloadQueue p0 ++ planJobs p0 a) p0 in
  (* Sort by priority (higher first) *)
  let p2 := set_queue (sortJobs (preloadQueue p1)) p1 in
  (* Start preloading *)
  processPreloadQueue (with_self p2 w).

(** *** The idle callback *)

(** Completion of a block of statements: normal, or an exception. *)
Inductive Completion : Type :=
| Normal
| Throw (error : string).

Definition Block : Type := World -> Completion * World.

(** [try { body } catch (error) { handler(error) } finally { fin }] *)
Definition tryCatchFinally (body : Block) (handler : string -> Block)
    (fin : Block) : Block :=
  fun w =>
    let '(c1, w1) := body w in
    let '(c2, w2) := match c1 with
                     | Normal => (Normal, w1)
                     | Throw e => handler e w1
                     end in
    let '(c3, w3) := fin w2 in
    match c3 with
    | Normal => (c2, w3)
    | Throw e => (Throw e, w3)
    end.

(** [await promise]: resumes normally, or throws the rejection reason. *)
Definition awaitSettled (s : Settlement) : Block :=
  fun w => match s with
           | Resolved => (Normal, w)
           | Rejected e => (Throw e, w)
           end.

(** [console.warn(`Preload failed for ...`, error)] *)
Definition warn (job : PreloadJob) (e : string) : Block :=
  fun w => (Normal,
            {| self := self w; idle := idle w; awaiting := awaiting w;
               calls := calls w; warnings := warnings w ++ [(job, e)] |}).

(** The [finally] block of the callback. *)
Definition afterJob : Block :=
  fun w =>
    let p := self w in
    let p1 := set_currentPreloads (currentPreloads p - 1) p in
    let w1 := with_self p1 w in
    (* Continue processing queue *)
    if negb (Nat.eqb (List.length (preloadQueue p1)) 0)
    then (Normal, processPreloadQueue w1)
    else if Z.eqb (currentPreloads p1) 0
    then (Normal, with_self (set_isPreloading false p1) w1)
    else (Normal, w1).

(** What the callback does once the promise of [getFrameAt] has settled. *)
Definition resumeCallback (job : PreloadJob) (s : Settlement) : Block :=
  tryCatchFinally (awaitSettled s) (warn job) afterJob.

(** [removeAt i l]: the [i]-th element and the list without it. *)
Fixpoint removeAt {A : Type} (i : nat) (l : list A) : option (A * list A) :=
  match l, i with
  | [], _ => None
  | x :: l', O => Some (x, l')
  | x :: l', S i' =>
      match removeAt i' l' with
      | Some (y, r) => Some (y, x :: r)
      | None => None
      end
  end.

(** The browser runs the [i]-th pending idle callback: it calls
    [videoCache.getFrameAt] and suspends at the [await]. *)
Definition runIdleCallback (i : nat) (w : World) : option World :=
  match removeAt i (idle w) with
  | None => None
  | Some (job, rest) =>
      Some {| self := self w; idle := rest; awaiting := awaiting w ++ [job];
              calls := calls w ++ [job]; warnings := warnings w |}
  end.

(** The promise awaited by the [i]-th suspended callback settles. *)
Definition settle (i : nat) (s : Settlement) (w : World)
  : option (Completion * World) :=
  match removeAt i (awaiting w) with
  | None => None
  | Some (job, rest) =>
      Some (resumeCallback job s
              {| self := self w; idle := idle w; awaiting := rest;
                 calls := calls w; warnings := warnings w |})
  end.

Inductive Event : Type :=
| SchedulePreload (a : PreloadArgs)
| Configure (c : Config)
| ClearQueue
| IdleCallback (i : nat)
| FrameSettled (i : nat) (s : Settlement).

(** One turn of the event loop.  [None]: the event cannot happen in [w]
    (no such pending callback), or an exception escaped the turn. *)
Definition step (e : Event) (w : World) : option World :=
  match e with
  | SchedulePreload a => Some (schedulePreload a w)
  | Configure c => Some (with_self (configure c (self w)) w)
  | ClearQueue => Some (with_self (clearQueue (self w)) w)
  | IdleCallback i => runIdleCallback i w
  | FrameSettled i s =>
      match settle i s w with
      | Some (Normal, w') => Some w'
      | _ => None
      end
  end.

Fixpoint run (es : list Event) (w : World) : option World :=
  match es with
  | [] => Some w
  | e :: es' =>
      match step e w with
      | Some w' => run es' w'
      | None => None
      end
  end.

(** States reachable from a fresh preloader. *)
Definition reachable (w : World) : Prop :=
  exists es, run es newWorld = Some w.

(* ------------------------------------------------------------------ *)
(** ** The performance monitor *)
(* ------------------------------------------------------------------ *)

Record PerformanceMetrics : Type := mkMetrics {
  frameRate : JS.number;
  memoryUsage : JS.number;
  cacheHitRate : JS.number;
  videoDecodingTime : JS.number;
  renderTime : JS.number;
  lastUpdate : JS.number
}.

Record PerformanceThresholds : Type := mkThresholds {
  minFrameRate : JS.number;
  maxMemoryUsage : JS.number;
  minCacheHitRate : JS.number;
  maxVideoDecodingTime : JS.number;
  maxRenderTime : JS.number
}.

Record PerformanceMonitor : Type := mkMonitor {
  metrics : PerformanceMetrics;
  thresholds : PerformanceThresholds
}.

(** The field initialiser of [thresholds]; no method assigns the field. *)
Definition initialThresholds : PerformanceThresholds :=
  {| minFrameRate := JS.Fin 24;
     maxMemoryUsage := JS.Fin (1024 * 1024 * 1024);
     minCacheHitRate := JS.Fin (8 # 10);
     maxVideoDecodingTime := JS.Fin 50;
     maxRenderTime := JS.Fin 16 |}.

(** A monitor whose metrics snapshot is [m]. *)
Definition monitorWith (m : PerformanceMetrics) : PerformanceMonitor :=
  {| metrics := m; thresholds := initialThresholds |}.

(** The issue messages, by template, with the numbers interpolated:
    - [`Low frame rate: ${frameRate}fps (target: ${minFrameRate}fps)`]
    - [`High memory usage: ${memoryMB}MB`]
    - [`Low cache hit rate: ${hitRate}%`]
    - [`Slow video decoding: ${ms}ms`]
    - [`Slow rendering: ${ms}ms`] *)
Inductive Issue : Type :=
| LowFrameRate (frameRate target : JS.number)
| HighMemoryUsage (memoryMB : JS.number)
| LowCacheHitRate (hitRate : JS.number)
| SlowVideoDecoding (ms : JS.number)
| SlowRendering (ms : JS.number).

Record PerformanceStatus : Type := mkStatus {
  isGood : bool;
  issues : list Issue;
  suggestions : list string
}.

(** [if (cond) { issues.push(issue); suggestions.push(suggestion); }] *)
Definition pushIf (cond : bool) (issue : Issue) (suggestion : string)
    (acc : list Issue * list string) : list Issue * list string :=
  if cond then (fst acc ++ [issue], snd acc ++ [suggestion]) else acc.

Definition suggestFrameRate : string :=
  "Consider reducing video quality or closing other browser tabs".
Definition suggestMemory : string :=
  "Try clearing video cache or reducing timeline complexity".
Definition suggestHitRate : string :=
  "Allow more time for video preloading or reduce playback speed".
Definition suggestDecoding : string :=
  "Try using lower resolution videos or converting to a more efficient codec".
Definition suggestRender : string :=
  "Reduce the number of timeline elements or disable preview effects".

Definition getPerformanceStatus (mon : PerformanceMonitor) : PerformanceStatus :=
  let m := metrics mon in
  let t := thresholds mon in
  let acc0 : list Issue * list string := ([], []) in
  (* Frame rate check *)
  let acc1 :=
    pushIf (JS.lt (frameRate m) (minFrameRate t))
           (LowFrameRate (frameRate m) (minFrameRate t))
           suggestFrameRate acc0 in
  (* Memory usage check *)
  let acc2 :=
    pushIf (JS.gt (memoryUsage m) (maxMemoryUsage t))
           (HighMemoryUsage
              (JS.round (JS.div (memoryUsage m) (JS.Fin (1024 * 1024)))))
           suggestMemory acc1 in
  (* Cache hit rate check *)
  let acc3 :=
    pushIf (JS.lt (cacheHitRate m) (minCacheHitRate t))
           (LowCacheHitRate (JS.round (JS.mul (cacheHitRate m) (JS.Fin 100))))
           suggestHitRate acc2 in
  (* Video decoding time check *)
  let acc4 :=
    pushIf (JS.gt (videoDecodingTime m) (maxVideoDecodingTime t))
           (SlowVideoDecoding (JS.round (videoDecodingTime m)))
           suggestDecoding acc3 in
  (* Render time check *)
  let acc5 :=
    pushIf (JS.gt (renderTime m) (maxRenderTime t))
           (SlowRendering (JS.round (renderTime m)))
           suggestRender acc4 in
  {| isGood := Nat.eqb (List.length (fst acc5)) 0;
     issues := fst acc5;
     suggestions := snd acc5 |}.

Definition getPerformanceGrade (mon : PerformanceMonitor) : string :=
  let status := getPerformanceStatus mon in
  let issueCount := List.length (issues status) in
  if Nat.eqb issueCount 0 then "A"
  else if Nat.eqb issueCount 1 then "B"
  else if Nat.eqb issueCount 2 then "C"
  else if Nat.eqb issueCount 3 then "D"
  else "F".

(** Position of a grade on the scale A (best) to F (worst). *)
Definition gradeRank (g : string) : nat :=
  if String.eqb g "A" then 0
  else if String.eqb g "B" then 1
  else if String.eqb g "C" then 2
  else if String.eqb g "D" then 3
  else 4.

(** The threshold table as the specification words it: frame rate below
    24 fps, memory above 2^30 bytes, hit rate below 0.8, decoding above
    50 ms, rendering above 16 ms. *)
Definition violatedThresholds (m : PerformanceMetrics) : list bool :=
  [ JS.lt (frameRate m) (JS.Fin 24);
    JS.gt (memoryUsage m) (JS.Fin (inject_Z (2 ^ 30)));
    JS.lt (cacheHitRate m) (JS.Fin (4 # 5));
    JS.gt (videoDecodingTime m) (JS.Fin 50);
    JS.gt (renderTime m) (JS.Fin 16) ].

Definition violationCount (m : PerformanceMetrics) : nat :=
  List.length (filter (fun b => b) (violatedThresholds m)).

(** The grade for a number of issues. *)
Definition gradeOfCount (n : nat) : string :=
  match n with
  | 0%nat => "A"
  | 1%nat => "B"
  | 2%nat => "C"
  | 3%nat => "D"
  | _ => "F"
  end.

(* ------------------------------------------------------------------ *)
(** ** Vocabulary of the properties *)
(* ------------------------------------------------------------------ *)

(** [createdFor p a element time job]: in [schedulePreload(a)] on the
    preloader [p], the job loop reaches [element], passes its guard with
    some media item, the sampling loop takes the value [time], and [job]
    is the job pushed in that turn. *)
Definition createdFor (p : VideoPreloader) (a : PreloadArgs)
    (element : MediaElement) (time : JS.number) (job : PreloadJob) : Prop :=
  let r := adjustedRadius p a in
  In element
     (findRelevantVideoElements (currentTime a) (tracks a) (mediaFiles a) r) /\
  exists mediaItem f,
    findMedia (mediaFiles a) (el_mediaId element) = Some mediaItem /\
    media_type mediaItem = VideoMedia /\
    media_file mediaItem = Some f /\
    In time (sampleTimes (preloadStart (currentTime a) r element)
                         (preloadEnd (currentTime a) r element)) /\
    job = makeJob (currentTime a) element mediaItem f time.

(** [jobOrigin p a j]: where a job of the plan comes from.  There are a
    track, an element of it, a media item and a sample time [t] with
    - the track not muted and of media type, the element of media type and
      not hidden;
    - the media item the first one with the element's media id, of video
      type, with the byte source the job carries;
    - the element's active interval overlapping the search window
      [[currentTime - 1, currentTime + radius]] (the test of
      [findRelevantVideoElements]);
    - [t] inside the element's active interval and inside
      [[currentTime - radius, currentTime + radius)];
    - the job the [k]-th one pushed for the element, counting from 0, and
      [t] exactly [k] frame intervals of 1/24 s after the start of that
      overlap: the first sample is taken at the start and each further
      one 1/24 s after the one before;
    - the job's [targetTime] equal to [t - startTime + trimStart]. *)
Definition jobOrigin (p : VideoPreloader) (a : PreloadArgs) (j : PreloadJob)
  : Prop :=
  let ct := currentTime a in
  let r := adjustedRadius p a in
  exists (track : TimelineTrack) (e : MediaElement) (item : MediaFile)
         (t : JS.number),
    (In track (tracks a) /\ muted track = false /\
     track_type track = MediaTrack /\ In e (elements track) /\
     el_type e = MediaKind /\ hidden e = false) /\
    (findMedia (mediaFiles a) (el_mediaId e) = Some item /\
     media_type item = VideoMedia /\
     media_file item = Some (job_file j) /\
     job_mediaId j = media_id item) /\
    (JS.lt (startTime e) (JS.add ct r) = true /\
     JS.gt (elementEnd e) (JS.sub ct (JS.Fin 1)) = true) /\
    (JS.le (startTime e) t = true /\ JS.lt t (elementEnd e) = true /\
     JS.le (JS.sub ct r) t = true /\ JS.lt t (JS.add ct r) = true) /\
    (exists k : nat,
       nth_error (jobsForElement ct r (mediaFiles a) e) k = Some j /\
       JS.same t (JS.add (JS.max (startTime e) (JS.sub ct r))
                         (JS.Fin (inject_Z (Z.of_nat k) * (1 # 24))))) /\
    targetTime j = JS.add (JS.sub t (startTime e)) (trimStart e).

(** The same call with [playbackSpeed: v]. *)
Definition withSpeed (v : JS.number) (a : PreloadArgs) : PreloadArgs :=
  {| currentTime := currentTime a; tracks := tracks a;
     mediaFiles := mediaFiles a; playbackSpeed := Some v |}.

(** The jobs one element contributes to the plan at look-ahead radius [r]:
    none unless [findRelevantVideoElements] keeps the element. *)
Definition elementJobCount (ct r : JS.number) (files : list MediaFile)
    (e : MediaElement) : nat :=
  if relevantElement (JS.sub ct (JS.Fin 1)) (JS.add ct r) files e
  then List.length (jobsForElement ct r files e)
  else 0%nat.

(** A [configure] call keeps the limit: it either omits
    [maxConcurrentPreloads], or supplies an integer whose clamped value is
    not exceeded by the jobs already active. *)
Definition keepsLimit (c : Config) (p : VideoPreloader) : bool :=
  match cfg_maxConcurrentPreloads c with
  | None => true
  | Some m =>
      JS.isInteger m
      && negb (JS.gt (JS.of_Z (currentPreloads p))
                     (maxConcurrentPreloads (configure c p)))
  end.

(** Every [configure] call of the run [es] from [w] keeps the limit. *)
Fixpoint limitKept (es : list Event) (w : World) : bool :=
  match es with
  | [] => true
  | e :: es' =>
      match e with
      | Configure c => keepsLimit c (self w)
      | _ => true
      end
      && match step e w with
         | Some w' => limitKept es' w'
         | None => true
         end
  end.

(** The concurrency limit is NaN or lies in [[1, 4]], and at most four
    jobs are active. *)
Definition limitClamped (w : World) : Prop :=
  (maxConcurrentPreloads (self w) = JS.NaN
   \/ JS.within 1 4 (maxConcurrentPreloads (self w))) /\
  (currentPreloads (self w) <= 4)%Z.

(** The concurrency limit is an integer that the active jobs do not
    exceed. *)
Definition limitRespected (w : World) : Prop :=
  exists z : Z,
    JS.same (maxConcurrentPreloads (self w)) (JS.of_Z z) /\
    (currentPreloads (self w) <= z)%Z.

(** [descending a b]: [b] may follow [a] in a queue sorted by priority,
    higher first. *)
Definition descending (a b : PreloadJob) : Prop :=
  JS.le (priority b) (priority a) = true.

Definition finitePriority (j : PreloadJob) : Prop :=
  JS.is_finite (priority j) = true.

(** The base radius is NaN or lies in [[1, 10]]. *)
Definition radiusClamped (p : VideoPreloader) : Prop :=
  preloadRadius p = JS.NaN \/ JS.within 1 10 (preloadRadius p).

(** The events the browser raises on its own once a plan is scheduled:
    an idle callback runs, or a decode settles. *)
Definition callbackEvent (e : Event) : bool :=
  match e with
  | IdleCallback _ | FrameSettled _ _ => true
  | _ => false
  end.

(** *** A small timeline used in examples

    One video file; a media track with one element that plays it over the
    timeline interval [[0, 100]]; the playhead at 10 s. *)

Definition clipFile : MediaFile :=
  mkMediaFile "clip" VideoMedia (Some "clip.mp4"%string).

Definition longClip : MediaElement :=
  mkElement MediaKind "clip" (JS.Fin 0) (JS.Fin 100) (JS.Fin 0) (JS.Fin 0)
            false.

Definition longTimeline : list TimelineTrack :=
  [mkTrack MediaTrack false [longClip]].

Definition argsAt10 (speed : option JS.number) : PreloadArgs :=
  mkArgs (JS.Fin 10) longTimeline [clipFile] speed.

(** An element an eighth of a second long, starting at the playhead: it
    yields three samples. *)
Definition shortClip : MediaElement :=
  mkElement MediaKind "clip" (JS.Fin 10) (JS.Fin (1 # 8)) (JS.Fin 0)
            (JS.Fin 0) false.

Definition threeJobArgs : PreloadArgs :=
  mkArgs (JS.Fin 10) [mkTrack MediaTrack false [shortClip]] [clipFile] None.

(** Raise the limit to 3, schedule three jobs, lower the limit to 1. *)
Definition loweredLimitTrace : list Event :=
  [Configure (mkConfig None (Some (JS.Fin 3)));
   SchedulePreload threeJobArgs;
   Configure (mkConfig None (Some (JS.Fin 1)))].

(** Schedule three jobs with the default limit of 2; the two callbacks
    run and both decodes complete. *)
Definition drainTrace : list Event :=
  [SchedulePreload threeJobArgs;
   IdleCallback 0; IdleCallback 0;
   FrameSettled 0 Resolved; FrameSettled 0 Resolved].

(** The state at the end of [drainTrace]. *)
Definition stalledWorld : World :=
  match run drainTrace newWorld with
  | Some w => w
  | None => newWorld
  end.

(** Three jobs scheduled, the first callback suspended in its decode. *)
Definition decodingWorld : World :=
  match run [SchedulePreload threeJobArgs; IdleCallback 0] newWorld with
  | Some w => w
  | None => newWorld
  end.

(* ------------------------------------------------------------------ *)
(** ** The performance monitor: sampling and recommendations *)
(* ------------------------------------------------------------------ *)

(** [a >= b] *)
Definition js_ge (a b : JS.number) : bool := JS.le b a.

(** [!a] for a number: true of zero and of NaN. *)
Definition js_not (a : JS.number) : bool :=
  match a with
  | JS.NaN => true
  | JS.Fin q => Qeq_bool q 0
  | _ => false
  end.

(** The monitor object with its private [frameRateHistory]. *)
Record MonitorState : Type := mkMonitorState {
  monitor : PerformanceMonitor;
  frameRateHistory : list JS.number
}.

(** Field initialisers of the class. *)
Definition newMonitor : MonitorState :=
  {| monitor :=
       {| metrics := mkMetrics (JS.Fin 0) (JS.Fin 0) (JS.Fin 0) (JS.Fin 0)
                               (JS.Fin 0) (JS.Fin 0);
          thresholds := initialThresholds |};
     frameRateHistory := [] |}.

Definition with_metrics (m : PerformanceMetrics) (st : MonitorState)
  : MonitorState :=
  {| monitor := {| metrics := m; thresholds := thresholds (monitor st) |};
     frameRateHistory := frameRateHistory st |}.

(** [history.reduce((sum, fps) => sum + fps, 0)] *)
Definition sumOf (history : list JS.number) : JS.number :=
  fold_left JS.add history (JS.Fin 0).

(** [updateFrameRate(fps)]; [now] is the value of [Date.now()]. *)
Definition updateFrameRate (now fps : JS.number) (st : MonitorState)
  : MonitorState :=
  let pushed := frameRateHistory st ++ [fps] in
  (* Keep only last 10 measurements *)
  let history := if Nat.ltb 10 (List.length pushed) then tl pushed
                 else pushed in
  (* Calculate smoothed frame rate *)
  let avgFps :=
    JS.div (sumOf history) (JS.of_Z (Z.of_nat (List.length history))) in
  let m := metrics (monitor st) in
  {| monitor :=
       {| metrics :=
            {| frameRate := JS.round avgFps;
               memoryUsage := memoryUsage m;
               cacheHitRate := cacheHitRate m;
               videoDecodingTime := videoDecodingTime m;
               renderTime := renderTime m;
               lastUpdate := now |};
          thresholds := thresholds (monitor st) |};
     frameRateHistory := history |}.

(** [updateCacheHitRate(hitRate)] *)
Definition updateCacheHitRate (hitRate : JS.number) (st : MonitorState)
  : MonitorState :=
  let m := metrics (monitor st) in
  with_metrics
    {| frameRate := frameRate m; memoryUsage := memoryUsage m;
       cacheHitRate := hitRate;
       videoDecodingTime := videoDecodingTime m;
       renderTime := renderTime m; lastUpdate := lastUpdate m |} st.

(** [handlePerformanceMeasure(entry)], with [entry.name] and
    [entry.duration]. *)
Definition handlePerformanceMeasure (name : string) (duration : JS.number)
    (st : MonitorState) : MonitorState :=
  let m := metrics (monitor st) in
  if String.eqb name "video-decode" then
    with_metrics
      {| frameRate := frameRate m; memoryUsage := memoryUsage m;
         cacheHitRate := cacheHitRate m;
         videoDecodingTime := duration;
         renderTime := renderTime m; lastUpdate := lastUpdate m |} st
  else if String.eqb name "frame-render" then
    with_metrics
      {| frameRate := frameRate m; memoryUsage := memoryUsage m;
         cacheHitRate := cacheHitRate m;
         videoDecodingTime := videoDecodingTime m;
         renderTime := duration; lastUpdate := lastUpdate m |} st
  else st.

(** [checkMemory()] of [startMemoryMonitoring]; [heap] is
    [performance.memory.usedJSHeapSize], or [None] where the platform has
    no [performance.memory]. *)
Definition checkMemory (heap : option JS.number) (st : MonitorState)
  : MonitorState :=
  match heap with
  | Some used =>
      let m := metrics (monitor st) in
      with_metrics
        {| frameRate := frameRate m; memoryUsage := used;
           cacheHitRate := cacheHitRate m;
           videoDecodingTime := videoDecodingTime m;
           renderTime := renderTime m; lastUpdate := lastUpdate m |} st
  | None => st
  end.

(** [getMetrics()] *)
Definition getMetrics (st : MonitorState) : PerformanceMetrics :=
  metrics (monitor st).

(** The variables [lastTime] and [frameCount] that [measureFrameRate]
    closes over. *)
Record FrameLoop : Type := mkFrameLoop {
  lastTime : JS.number;
  frameCount : Z
}.

(** One run of [measureFrameRate]; [currentTime] is [performance.now()]
    and [now] is [Date.now()]. *)
Definition measureFrameRate (currentTime now : JS.number)
    (s : FrameLoop * MonitorState) : FrameLoop * MonitorState :=
  let '(loop, st) := s in
  let count := (frameCount loop + 1)%Z in
  (* Calculate FPS every second *)
  if js_ge (JS.sub currentTime (lastTime loop)) (JS.Fin 1000) then
    let fps :=
      JS.round (JS.div (JS.mul (JS.of_Z count) (JS.Fin 1000))
                       (JS.sub currentTime (lastTime loop))) in
    ({| lastTime := currentTime; frameCount := 0 |},
     updateFrameRate now fps st)
  else ({| lastTime := lastTime loop; frameCount := count |}, st).

(** What happens to a running monitor. *)
Inductive MonitorEvent : Type :=
| AnimationFrame (currentTime now : JS.number)
| MemoryCheck (heap : option JS.number)
| CacheHitRate (hitRate : JS.number)
| Measure (name : string) (duration : JS.number).

Definition monitorStep (e : MonitorEvent) (s : FrameLoop * MonitorState)
  : FrameLoop * MonitorState :=
  match e with
  | AnimationFrame currentTime now => measureFrameRate currentTime now s
  | MemoryCheck heap => (fst s, checkMemory heap (snd s))
  | CacheHitRate hitRate => (fst s, updateCacheHitRate hitRate (snd s))
  | Measure name duration =>
      (fst s, handlePerformanceMeasure name duration (snd s))
  end.

Definition monitorRun (es : list MonitorEvent) (s : FrameLoop * MonitorState)
  : FrameLoop * MonitorState :=
  fold_left (fun acc e => monitorStep e acc) es s.

(** The monitor as its constructor leaves it: [lastTime] is
    [performance.now()], and [startMemoryMonitoring] has called
    [checkMemory] once. *)
Definition startedMonitor (t0 : JS.number) (heap : option JS.number)
  : FrameLoop * MonitorState :=
  ({| lastTime := t0; frameCount := 0 |}, checkMemory heap newMonitor).

(** The platform has no [performance.memory]. *)
Definition noHeapInfo (e : MonitorEvent) : bool :=
  match e with
  | MemoryCheck (Some _) => false
  | _ => true
  end.

(** The samples [updateFrameRate] is called with, one after the other. *)
Definition feedFrameRates (samples : list (JS.number * JS.number))
    (st : MonitorState) : MonitorState :=
  fold_left (fun acc s => updateFrameRate (fst s) (snd s) acc) samples st.

(** The last [n] elements of a list. *)
Definition lastn {A : Type} (n : nat) (l : list A) : list A :=
  skipn (List.length l - n) l.

(** The result of [getRecommendations]; an empty object is [None]. *)
Record VideoSettings : Type := mkVideoSettings {
  poolSize : JS.number;
  rec_preloadRadius : JS.number;
  rec_maxConcurrentPreloads : JS.number
}.

Record CacheSettings : Type := mkCacheSettings {
  maxCacheSize : JS.number;
  cacheResolution : JS.number
}.

Record UiSettings : Type := mkUiSettings {
  reducedAnimations : bool;
  simplifiedTimeline : bool
}.

Record Recommendations : Type := mkRecommendations {
  videoSettings : option VideoSettings;
  cacheSettings : option CacheSettings;
  uiSettings : option UiSettings
}.

Definition getRecommendations (mon : PerformanceMonitor) : Recommendations :=
  let m := metrics mon in
  {| videoSettings :=
       (* Video settings recommendations *)
       if JS.lt (frameRate m) (JS.Fin 20)
       then Some (mkVideoSettings (JS.Fin 4) (JS.Fin 2) (JS.Fin 1))
       else if JS.gt (frameRate m) (JS.Fin 50)
       then Some (mkVideoSettings (JS.Fin 12) (JS.Fin 5) (JS.Fin 3))
       else None;
     cacheSettings :=
       (* Cache settings recommendations *)
       if JS.gt (memoryUsage m)
                (JS.mul (maxMemoryUsage (thresholds mon)) (JS.Fin (8 # 10)))
       then Some (mkCacheSettings (JS.Fin 100) (JS.Fin 20))
       else None;
     uiSettings :=
       (* UI settings recommendations *)
       if JS.gt (renderTime m) (JS.Fin 20)
       then Some (mkUiSettings true true)
       else None |}.

(** The call [videoPreloader.configure] receives when a recommendation is
    applied. *)
Definition configOfSettings (v : VideoSettings) : Config :=
  {| cfg_preloadRadius := Some (rec_preloadRadius v);
     cfg_maxConcurrentPreloads := Some (rec_maxConcurrentPreloads v) |}.

(* ------------------------------------------------------------------ *)
(** ** The performance debug panel *)
(* ------------------------------------------------------------------ *)

(** [getGradeColor(grade)] *)
Definition getGradeColor (grade : string) : string :=
  if String.eqb grade "A" then "bg-green-500"
  else if String.eqb grade "B" then "bg-blue-500"
  else if String.eqb grade "C" then "bg-yellow-500"
  else if String.eqb grade "D" then "bg-orange-500"
  else if String.eqb grade "F" then "bg-red-500"
  else "bg-gray-500".

(** [metrics.frameRate < 24 ? 'text-red-500' : 'text-green-500'] *)
Definition fpsClass (m : PerformanceMetrics) : string :=
  if JS.lt (frameRate m) (JS.Fin 24) then "text-red-500" else "text-green-500".

(** [metrics.cacheHitRate < 0.8 ? 'text-red-500' : 'text-green-500'] *)
Definition cacheHitClass (m : PerformanceMetrics) : string :=
  if JS.lt (cacheHitRate m) (JS.Fin (8 # 10)) then "text-red-500"
  else "text-green-500".

(** [metrics.renderTime > 16 ? 'text-red-500' : 'text-green-500'] *)
Definition renderClass (m : PerformanceMetrics) : string :=
  if JS.gt (renderTime m) (JS.Fin 16) then "text-red-500"
  else "text-green-500".

(** The number shown as [{Math.round(metrics.cacheHitRate * 100)}%]. *)
Definition shownCacheHit (m : PerformanceMetrics) : JS.number :=
  JS.round (JS.mul (cacheHitRate m) (JS.Fin 100)).

(** The number shown as [{Math.round(metrics.renderTime)}ms]. *)
Definition shownRender (m : PerformanceMetrics) : JS.number :=
  JS.round (renderTime m).

(* ------------------------------------------------------------------ *)
(** ** The mask frame of [generateMaskVideo] *)
(* ------------------------------------------------------------------ *)

Record Point : Type := mkPoint { pt_x : JS.number; pt_y : JS.number }.

Inductive MaskType : Type := RectangleMask | BrushMask | EraserMask.

Record MaskShape : Type := mkMask {
  mask_type : MaskType;
  points : list Point;
  strokeWidth : option JS.number
}.

(** What is drawn on the canvas in white: [ctx.fillRect(x, y, w, h)], or
    the path of [moveTo]/[lineTo] vertices filled by [ctx.fill()] with the
    [lineWidth] set before it. *)
Inductive DrawCommand : Type :=
| FillRect (x y width height : JS.number)
| FillPath (vertices : list Point) (lineWidth : JS.number).

(** [Math.max(0, Math.min(v, limit))] *)
Definition clampToCanvas (v limit : JS.number) : JS.number :=
  JS.max (JS.Fin 0) (JS.min v limit).

(** [mask.strokeWidth || 20] *)
Definition lineWidthOf (m : MaskShape) : JS.number :=
  match strokeWidth m with
  | Some w => if js_not w then JS.Fin 20 else w
  | None => JS.Fin 20
  end.

(** The body of [masks.forEach] for one mask on a canvas of the given
    width and height. *)
Definition drawMask (canvasWidth canvasHeight : JS.number) (m : MaskShape)
  : option DrawCommand :=
  match mask_type m, points m with
  | RectangleMask, p0 :: p1 :: _ =>
      let x := JS.min (pt_x p0) (pt_x p1) in
      let y := JS.min (pt_y p0) (pt_y p1) in
      let width := JS.abs (JS.sub (pt_x p1) (pt_x p0)) in
      let height := JS.abs (JS.sub (pt_y p1) (pt_y p0)) in
      (* Clamp coordinates to canvas bounds *)
      let clampedX := clampToCanvas x canvasWidth in
      let clampedY := clampToCanvas y canvasHeight in
      let clampedWidth := JS.min width (JS.sub canvasWidth clampedX) in
      let clampedHeight := JS.min height (JS.sub canvasHeight clampedY) in
      Some (FillRect clampedX clampedY clampedWidth clampedHeight)
  | BrushMask, _ :: _ :: _ =>
      Some (FillPath
              (map (fun p => mkPoint (clampToCanvas (pt_x p) canvasWidth)
                                     (clampToCanvas (pt_y p) canvasHeight))
                   (points m))
              (lineWidthOf m))
  | _, _ => None
  end.

(** Everything [masks.forEach] draws, in order. *)
Definition drawMasks (canvasWidth canvasHeight : JS.number)
    (masks : list MaskShape) : list DrawCommand :=
  flat_map (fun m => match drawMask canvasWidth canvasHeight m with
                     | Some c => [c]
                     | None => []
                     end) masks.

(** The errors thrown by the parameter checks (inside the [try] block;
    the [catch] block rethrows them wrapped in
    ["Mask video generation failed: ..."]). *)
Inductive TimingError : Type :=
| InvalidFrameCount (frameCount : JS.number)
| InvalidFps (fps : JS.number)
| InvalidDuration (durationSeconds : JS.number).

(** The checks on [frameCount] and [fps] and the computation of
    [durationSeconds]: the duration passed to FFmpeg, or the error
    thrown. *)
Definition videoDuration (frameCount fps : JS.number)
  : TimingError + JS.number :=
  if js_not frameCount || JS.le frameCount (JS.Fin 0)
  then inl (InvalidFrameCount frameCount)
  else if js_not fps || JS.le fps (JS.Fin 0)
  then inl (InvalidFps fps)
  else
    let durationSeconds := JS.div frameCount fps in
    if js_not durationSeconds || JS.le durationSeconds (JS.Fin 0)
    then inl (InvalidDuration durationSeconds)
    else inr durationSeconds.

(** Componentwise equality of the values two commands denote. *)
Definition sameCommand (c d : option DrawCommand) : Prop :=
  match c, d with
  | Some (FillRect x y w h), Some (FillRect x' y' w' h') =>
      JS.same x x' /\ JS.same y y' /\ JS.same w w' /\ JS.same h h'
  | Some (FillPath v l), Some (FillPath v' l') =>
      Forall2 (fun p q => JS.same (pt_x p) (pt_x q)
                          /\ JS.same (pt_y p) (pt_y q)) v v'
      /\ JS.same l l'
  | None, None => True
  | _, _ => False
  end.

(* ------------------------------------------------------------------ *)
(** ** Vocabulary of the further properties *)
(* ------------------------------------------------------------------ *)

(** The active counter equals the number of callbacks still to finish. *)
Definition counterExact (w : World) : Prop :=
  currentPreloads (self w)
  = Z.of_nat (List.length (idle w) + List.length (awaiting w)).

(** The queue is sorted by priority, higher first, with every priority in
    [[0, 100]]. *)
Definition queueOrdered (w : World) : Prop :=
  Sorted descending (preloadQueue (self w)) /\
  Forall (fun j => JS.within 0 100 (priority j)) (preloadQueue (self w)).

(** Three jobs scheduled and the queue cleared; both callbacks run and
    the first decode completes. *)
Definition recoveringWorld : World :=
  match run [SchedulePreload threeJobArgs; ClearQueue;
             IdleCallback 0; IdleCallback 0; FrameSettled 0 Resolved]
            newWorld with
  | Some w => w
  | None => newWorld
  end.

(** The same with the second decode completed as well. *)
Definition restingWorld : World :=
  match step (FrameSettled 0 Resolved) recoveringWorld with
  | Some w => w
  | None => newWorld
  end.

(** [clampedInto size v c]: [c] is the coordinate [v] brought into
    [[0, size]]: [v] itself when it lies inside, 0 when it lies below,
    [size] when it lies above, and NaN when [v] is NaN. *)
Definition clampedInto (size : Q) (v c : JS.number) : Prop :=
  (v = JS.NaN -> c = JS.NaN) /\
  (v <> JS.NaN -> JS.within 0 size c) /\
  (JS.within 0 size v -> JS.same c v) /\
  (JS.lt v (JS.Fin 0) = true -> JS.same c (JS.Fin 0)) /\
  (JS.gt v (JS.Fin size) = true -> JS.same c (JS.Fin size)).

(** [hasPriority v j]: the priority of [j] is the rational [v]. *)
Definition hasPriority (v : Q) (j : PreloadJob) : bool :=
  match priority j with
  | JS.Fin q => Qeq_bool q v
  | _ => false
  end.

(* ------------------------------------------------------------------ *)
(** ** Facts about numbers *)
(* ------------------------------------------------------------------ *)

Lemma Qltb_lt (p q : Q) : JS.Qltb p q = true <-> p < q.
Proof.
  unfold JS.Qltb. rewrite negb_true_iff.
  split; intro H.
  - apply Qnot_le_lt. intro Hle. apply Qle_bool_iff in Hle. congruence.
  - destruct (Qle_bool q p) eqn:E; [|reflexivity].
    apply Qle_bool_iff in E. exfalso. apply (Qlt_not_le _ _ H E).
Qed.

Lemma Qltb_ge (p q : Q) : JS.Qltb p q = false <-> q <= p.
Proof.
  unfold JS.Qltb. rewrite negb_false_iff. apply Qle_bool_iff.
Qed.

Lemma Qle_bool_false (p q : Q) : Qle_bool p q = false <-> q < p.
Proof.
  rewrite <- Qltb_lt. unfold JS.Qltb.
  destruct (Qle_bool p q); simpl; split; congruence.
Qed.

Lemma lt_same_r (x : JS.number) (a b : Q) :
  a == b -> JS.lt x (JS.Fin a) = JS.lt x (JS.Fin b).
Proof.
  intro H. destruct x; simpl; try reflexivity.
  unfold JS.Qltb. now rewrite H.
Qed.

Lemma lt_same_l (x : JS.number) (a b : Q) :
  a == b -> JS.lt (JS.Fin a) x = JS.lt (JS.Fin b) x.
Proof.
  intro H. destruct x; simpl; try reflexivity.
  unfold JS.Qltb. now rewrite H.
Qed.

(* ------------------------------------------------------------------ *)
(** ** Performance monitor: status and grade *)
(* ------------------------------------------------------------------ *)

Lemma violated_as_coded (m : PerformanceMetrics) :
  violatedThresholds m =
  [ JS.lt (frameRate m) (minFrameRate initialThresholds);
    JS.gt (memoryUsage m) (maxMemoryUsage initialThresholds);
    JS.lt (cacheHitRate m) (minCacheHitRate initialThresholds);
    JS.gt (videoDecodingTime m) (maxVideoDecodingTime initialThresholds);
    JS.gt (renderTime m) (maxRenderTime initialThresholds) ].
Proof.
  unfold violatedThresholds, initialThresholds, JS.gt.
  cbn [minFrameRate maxMemoryUsage minCacheHitRate maxVideoDecodingTime
       maxRenderTime].
  rewrite (lt_same_l (memoryUsage m) (inject_Z (2 ^ 30)) (1024 * 1024 * 1024))
    by reflexivity.
  rewrite (lt_same_r (cacheHitRate m) (4 # 5) (8 # 10)) by reflexivity.
  reflexivity.
Qed.

(** Case analysis on the five threshold tests of a snapshot. *)
Ltac split_on_thresholds m :=
  cbn [monitorWith metrics thresholds];
  destruct (JS.lt (frameRate m) (minFrameRate initialThresholds)),
           (JS.gt (memoryUsage m) (maxMemoryUsage initialThresholds)),
           (JS.lt (cacheHitRate m) (minCacheHitRate initialThresholds)),
           (JS.gt (videoDecodingTime m) (maxVideoDecodingTime initialThresholds)),
           (JS.gt (renderTime m) (maxRenderTime initialThresholds));
  cbn [fst snd app filter List.length isGood issues suggestions].

Lemma issues_count (m : PerformanceMetrics) :
  List.length (issues (getPerformanceStatus (monitorWith m))) = violationCount m
  /\ List.length (suggestions (getPerformanceStatus (monitorWith m)))
     = violationCount m.
Proof.
  unfold violationCount. rewrite violated_as_coded.
  unfold getPerformanceStatus, pushIf.
  split_on_thresholds m; split; reflexivity.
Qed.

Lemma grade_of_count (m : PerformanceMetrics) :
  getPerformanceGrade (monitorWith m) = gradeOfCount (violationCount m).
Proof.
  unfold getPerformanceGrade.
  rewrite (proj1 (issues_count m)).
  destruct (violationCount m) as [|[|[|[|n]]]]; reflexivity.
Qed.

Lemma gradeOfCount_monotone (n n' : nat) :
  (n <= n')%nat ->
  (gradeRank (gradeOfCount n) <= gradeRank (gradeOfCount n'))%nat.
Proof.
  intro H.
  destruct n as [|[|[|[|n]]]]; destruct n' as [|[|[|[|n']]]];
    simpl; try lia; cbv; lia.
Qed.

(** C7. [getPerformanceStatus] holds each metric against the fixed
    threshold table (frame rate < 24, memory > 2^30, hit rate < 0.8,
    decoding > 50, rendering > 16): it reports one issue and one suggestion
    per violated threshold, the issues being those of the violated rows in
    table order, and [isGood] exactly when none is violated.
    [getPerformanceGrade] is A/B/C/D/F for 0/1/2/3/at least 4 violations,
    so a snapshot with strictly more violations never gets a better grade. *)
Theorem performance_status_and_grade (m : PerformanceMetrics) :
  let st := getPerformanceStatus (monitorWith m) in
  List.length (issues st) = violationCount m /\
  List.length (suggestions st) = violationCount m /\
  (isGood st = true <-> violationCount m = 0%nat) /\
  match violatedThresholds m with
  | [lowFps; highMem; lowHit; slowDecode; slowRender] =>
      issues st =
        (if lowFps then [LowFrameRate (frameRate m) (JS.Fin 24)] else [])
        ++ (if highMem
            then [HighMemoryUsage
                    (JS.round (JS.div (memoryUsage m) (JS.Fin (1024 * 1024))))]
            else [])
        ++ (if lowHit
            then [LowCacheHitRate
                    (JS.round (JS.mul (cacheHitRate m) (JS.Fin 100)))]
            else [])
        ++ (if slowDecode
            then [SlowVideoDecoding (JS.round (videoDecodingTime m))] else [])
        ++ (if slowRender
            then [SlowRendering (JS.round (renderTime m))] else [])
      /\ suggestions st =
        (if lowFps then [suggestFrameRate] else [])
        ++ (if highMem then [suggestMemory] else [])
        ++ (if lowHit then [suggestHitRate] else [])
        ++ (if slowDecode then [suggestDecoding] else [])
        ++ (if slowRender then [suggestRender] else [])
  | _ => False
  end /\
  getPerformanceGrade (monitorWith m) =
    match violationCount m with
    | 0%nat => "A" | 1%nat => "B" | 2%nat => "C" | 3%nat => "D" | _ => "F"
    end%string /\
  forall m' : PerformanceMetrics,
    (violationCount m < violationCount m')%nat ->
    (gradeRank (getPerformanceGrade (monitorWith m))
     <= gradeRank (getPerformanceGrade (monitorWith m')))%nat.
Proof.
  intro st. subst st.
  destruct (issues_count m) as [Hi Hs].
  split; [exact Hi|]. split; [exact Hs|]. split.
  - unfold getPerformanceStatus at 1. cbn [isGood].
    fold (issues (getPerformanceStatus (monitorWith m))).
    change (Nat.eqb (List.length (issues (getPerformanceStatus (monitorWith m)))) 0
            = true <-> violationCount m = 0%nat).
    rewrite Hi. apply Nat.eqb_eq.
  - split.
    + rewrite violated_as_coded.
      unfold getPerformanceStatus, pushIf.
      split_on_thresholds m; split; reflexivity.
    + split.
      * apply grade_of_count.
      * intros m' Hlt. rewrite !grade_of_count.
        apply gradeOfCount_monotone. lia.
Qed.

(** A concrete instance: a snapshot with one
    violated threshold against one with four. *)
Lemma performance_status_and_grade_witness :
  (gradeRank
     (getPerformanceGrade
        (monitorWith (mkMetrics (JS.Fin 60) (JS.Fin 0) (JS.Fin 0) (JS.Fin 0)
                                (JS.Fin 0) (JS.Fin 0))))
   <= gradeRank
        (getPerformanceGrade
           (monitorWith (mkMetrics (JS.Fin 10) (JS.Fin 0) (JS.Fin 0)
                                   (JS.Fin 99) (JS.Fin 99) (JS.Fin 0)))))%nat.
Proof.
  apply (proj2 (proj2 (proj2 (proj2 (proj2
           (performance_status_and_grade
              (mkMetrics (JS.Fin 60) (JS.Fin 0) (JS.Fin 0) (JS.Fin 0)
                         (JS.Fin 0) (JS.Fin 0)))))))).
  vm_compute. lia.
Defined.

(* ------------------------------------------------------------------ *)
(** ** [configure] and [clearQueue] *)
(* ------------------------------------------------------------------ *)

(** [Math.max(lo, Math.min(hi, x))] lands in [[lo, hi]] for every [x]
    other than NaN. *)
Lemma clamp_within (lo hi : Q) (x : JS.number) :
  lo <= hi -> x <> JS.NaN ->
  JS.within lo hi (JS.max (JS.Fin lo) (JS.min (JS.Fin hi) x)).
Proof.
  intros Hlh Hx. destruct x as [| |q|]; simpl.
  - congruence.
  - split; [apply Qle_refl | exact Hlh].
  - destruct (Qle_bool hi q) eqn:E1; simpl.
    + apply Qle_bool_iff in Hlh. rewrite Hlh. simpl.
      apply Qle_bool_iff in Hlh. split; [exact Hlh | apply Qle_refl].
    + apply Qle_bool_false in E1.
      destruct (Qle_bool lo q) eqn:E2; simpl.
      * apply Qle_bool_iff in E2. split; [exact E2 | now apply Qlt_le_weak].
      * split; [apply Qle_refl | exact Hlh].
  - apply Qle_bool_iff in Hlh. rewrite Hlh. simpl.
    apply Qle_bool_iff in Hlh. split; [exact Hlh | apply Qle_refl].
Qed.

Lemma clamp_NaN (lo hi : Q) :
  JS.max (JS.Fin lo) (JS.min (JS.Fin hi) JS.NaN) = JS.NaN.
Proof. reflexivity. Qed.

(** [configure] clamps every supplied value other than NaN. *)
Lemma configure_clamps (r m : JS.number) (p : VideoPreloader) :
  r <> JS.NaN -> m <> JS.NaN ->
  JS.within 1 10 (preloadRadius (configure (mkConfig (Some r) (Some m)) p)) /\
  JS.within 1 4
    (maxConcurrentPreloads (configure (mkConfig (Some r) (Some m)) p)).
Proof.
  intros Hr Hm. unfold configure. simpl. split.
  - apply clamp_within; [discriminate | exact Hr].
  - apply clamp_within; [discriminate | exact Hm].
Qed.

Example configure_radius_999 :
  preloadRadius
    (configure (mkConfig (Some (JS.Fin 999)) None) newPreloader) = JS.Fin 10.
Proof. reflexivity. Qed.

Example configure_concurrency_0 :
  maxConcurrentPreloads
    (configure (mkConfig None (Some (JS.Fin 0))) newPreloader) = JS.Fin 1.
Proof. reflexivity. Qed.

(** C6. The clamp of [configure] lets NaN through: after
    [configure({preloadRadius: NaN})] the radius is NaN, and after
    [configure({maxConcurrentPreloads: NaN})] the concurrency is NaN;
    neither lies in its interval. *)
Theorem configure_NaN_not_clamped :
  preloadRadius
    (configure (mkConfig (Some JS.NaN) None) newPreloader) = JS.NaN /\
  ~ JS.within 1 10
      (preloadRadius (configure (mkConfig (Some JS.NaN) None) newPreloader)) /\
  maxConcurrentPreloads
    (configure (mkConfig None (Some JS.NaN)) newPreloader) = JS.NaN /\
  ~ JS.within 1 4
      (maxConcurrentPreloads
         (configure (mkConfig None (Some JS.NaN)) newPreloader)).
Proof.
  repeat split; simpl; tauto.
Qed.

(** What [configure] leaves alone. *)
Lemma configure_fields (c : Config) (p : VideoPreloader) :
  (cfg_preloadRadius c = None ->
   preloadRadius (configure c p) = preloadRadius p) /\
  (cfg_maxConcurrentPreloads c = None ->
   maxConcurrentPreloads (configure c p) = maxConcurrentPreloads p) /\
  preloadQueue (configure c p) = preloadQueue p /\
  currentPreloads (configure c p) = currentPreloads p /\
  isPreloading (configure c p) = isPreloading p.
Proof.
  destruct p as [q b r m n], c as [[cr|] [cm|]];
    unfold configure; simpl; repeat split; intros; congruence.
Qed.

(** C10. An omitted field of [configure] leaves its setting unchanged:
    [configure({})] changes nothing at all, a call with only
    [preloadRadius] keeps [maxConcurrentPreloads], and a call with only
    [maxConcurrentPreloads] keeps [preloadRadius]; no call touches the
    queue, the active counter or the [isPreloading] flag. *)
Theorem configure_omitted_unchanged (p : VideoPreloader) (x : JS.number)
    (c : Config) :
  configure (mkConfig None None) p = p /\
  maxConcurrentPreloads (configure (mkConfig (Some x) None) p)
    = maxConcurrentPreloads p /\
  preloadRadius (configure (mkConfig None (Some x)) p) = preloadRadius p /\
  (cfg_preloadRadius c = None ->
   preloadRadius (configure c p) = preloadRadius p) /\
  (cfg_maxConcurrentPreloads c = None ->
   maxConcurrentPreloads (configure c p) = maxConcurrentPreloads p) /\
  preloadQueue (configure c p) = preloadQueue p /\
  currentPreloads (configure c p) = currentPreloads p /\
  isPreloading (configure c p) = isPreloading p.
Proof.
  destruct p as [q b r m n], c as [[cr|] [cm|]];
    unfold configure; simpl; repeat split; intros; congruence.
Qed.

(** A concrete instance. *)
Lemma configure_omitted_unchanged_witness :
  preloadRadius (configure (mkConfig None (Some (JS.Fin 3))) newPreloader)
  = preloadRadius newPreloader.
Proof.
  apply (proj1 (proj2 (proj2 (proj2
          (configure_omitted_unchanged newPreloader (JS.Fin 3)
             (mkConfig None (Some (JS.Fin 3)))))))).
  reflexivity.
Defined.

(* ------------------------------------------------------------------ *)
(** ** Draining the queue *)
(* ------------------------------------------------------------------ *)

(** The loop of [processPreloadQueue] splits the queue into the jobs it
    starts and the jobs it leaves, counts each started job once, and tests
    [currentPreloads < maxConcurrentPreloads] before each start. *)
Lemma startJobs_spec (m : JS.number) (queue : list PreloadJob) :
  forall (cur : Z) started remaining c,
    startJobs m cur queue = (started, remaining, c) ->
    queue = started ++ remaining /\
    c = (cur + Z.of_nat (List.length started))%Z /\
    (started <> [] -> JS.lt (JS.of_Z (c - 1)) m = true) /\
    (remaining <> [] -> JS.lt (JS.of_Z c) m = false).
Proof.
  induction queue as [|job rest IH]; intros cur started remaining c H.
  - simpl in H. inversion H; subst. simpl.
    repeat split; try lia; congruence.
  - cbn [startJobs] in H. destruct (JS.lt (JS.of_Z cur) m) eqn:E.
    + destruct (startJobs m (cur + 1) rest) as [[st rm] c'] eqn:E'.
      inversion H; subst. clear H.
      destruct (IH _ _ _ _ E') as (Hq & Hc & Hlt & Hrem).
      split; [simpl; now rewrite Hq|].
      split; [simpl List.length; lia|].
      split; [|exact Hrem].
      intros _. destruct st as [|j st'].
      * simpl in Hc. replace (c - 1)%Z with cur by lia. exact E.
      * apply Hlt. discriminate.
    + inversion H; subst. simpl.
      repeat split; try lia; try congruence. intros _. exact E.
Qed.

(** What one call of [processPreloadQueue] changes. *)
Lemma processPreloadQueue_spec (w : World) :
  exists started,
    idle (processPreloadQueue w) = idle w ++ started /\
    preloadQueue (self w)
      = started ++ preloadQueue (self (processPreloadQueue w)) /\
    currentPreloads (self (processPreloadQueue w))
      = (currentPreloads (self w) + Z.of_nat (List.length started))%Z /\
    (started <> [] ->
     isPreloading (self w) = false /\
     JS.lt (JS.of_Z (currentPreloads (self (processPreloadQueue w)) - 1))
           (maxConcurrentPreloads (self w)) = true) /\
    awaiting (processPreloadQueue w) = awaiting w /\
    calls (processPreloadQueue w) = calls w /\
    warnings (processPreloadQueue w) = warnings w /\
    preloadRadius (self (processPreloadQueue w)) = preloadRadius (self w) /\
    maxConcurrentPreloads (self (processPreloadQueue w))
      = maxConcurrentPreloads (self w).
Proof.
  unfold processPreloadQueue.
  destruct (isPreloading (self w)
            || Nat.eqb (List.length (preloadQueue (self w))) 0) eqn:Eg.
  - exists []. rewrite app_nil_r. simpl.
    repeat split; try lia; try congruence.
  - apply orb_false_iff in Eg. destruct Eg as [Ep _].
    cbn [set_isPreloading maxConcurrentPreloads currentPreloads preloadQueue].
    destruct (startJobs (maxConcurrentPreloads (self w))
                (currentPreloads (self w)) (preloadQueue (self w)))
      as [[st rm] c] eqn:E.
    destruct (startJobs_spec _ _ _ _ _ _ E) as (Hq & Hc & Hlt & _).
    exists st. cbn [set_currentPreloads set_queue currentPreloads].
    destruct (Z.eqb c 0); simpl; repeat split; auto.
Qed.

(** C9. [clearQueue] empties the pending queue and changes nothing else:
    the active counter, the [isPreloading] flag, the radius and the
    concurrency limit are as before, and the callbacks already registered
    or suspended in a decode stay where they are.  And [schedulePreload]
    discards what was queued before planning: its result does not depend
    on the old queue, and afterwards the jobs it started followed by the
    jobs still queued are exactly the new plan, sorted. *)
Theorem clearQueue_frame (w : World) (a : PreloadArgs)
    (stale : list PreloadJob) :
  queueLength (getStats (clearQueue (self w))) = 0%nat /\
  preloadQueue (clearQueue (self w)) = [] /\
  activePreloads (getStats (clearQueue (self w)))
    = activePreloads (getStats (self w)) /\
  stats_isPreloading (getStats (clearQueue (self w)))
    = stats_isPreloading (getStats (self w)) /\
  preloadRadius (clearQueue (self w)) = preloadRadius (self w) /\
  maxConcurrentPreloads (clearQueue (self w))
    = maxConcurrentPreloads (self w) /\
  (exists w', step ClearQueue w = Some w' /\
              self w' = clearQueue (self w) /\
              idle w' = idle w /\ awaiting w' = awaiting w /\
              calls w' = calls w /\ warnings w' = warnings w) /\
  schedulePreload a (with_self (set_queue stale (self w)) w)
    = schedulePreload a w /\
  (exists started,
     idle (schedulePreload a w) = idle w ++ started /\
     started ++ preloadQueue (self (schedulePreload a w))
       = sortJobs (planJobs (self w) a)).
Proof.
  repeat split.
  - exists (with_self (clearQueue (self w)) w). repeat split.
  - destruct (processPreloadQueue_spec
                (with_self
                   (set_queue
                      (sortJobs
                         (preloadQueue (set_queue [] (self w))
                          ++ planJobs (set_queue [] (self w)) a))
                      (set_queue
                         (preloadQueue (set_queue [] (self w))
                          ++ planJobs (set_queue [] (self w)) a)
                         (set_queue [] (self w)))) w))
      as (started & Hi & Hq & _).
    exists started. split.
    + exact Hi.
    + symmetry. exact Hq.
Qed.

(* ------------------------------------------------------------------ *)
(** ** Failure of a preload job *)
(* ------------------------------------------------------------------ *)

Lemma removeAt_nth_error {A : Type} (l : list A) :
  forall i x, nth_error l i = Some x -> exists r, removeAt i l = Some (x, r).
Proof.
  induction l as [|y l IH]; intros [|i] x H; simpl in *; try discriminate.
  - inversion H; subst. now exists l.
  - destruct (IH i x H) as [r Hr]. rewrite Hr. now exists (y :: r).
Qed.

Lemma removeAt_length {A : Type} (l : list A) :
  forall i x r, removeAt i l = Some (x, r) ->
                List.length l = S (List.length r).
Proof.
  induction l as [|y l IH]; intros [|i] x r H; simpl in *; try discriminate.
  - inversion H; subst. reflexivity.
  - destruct (removeAt i l) as [[z r']|] eqn:E; [|discriminate].
    inversion H; subst. simpl. f_equal. exact (IH _ _ _ E).
Qed.

(** [processPreloadQueue] neither reads nor writes the warning log. *)
Lemma processPreloadQueue_warnings (w : World) (ws : list (PreloadJob * string)) :
  processPreloadQueue
    {| self := self w; idle := idle w; awaiting := awaiting w;
       calls := calls w; warnings := ws |}
  = {| self := self (processPreloadQueue w);
       idle := idle (processPreloadQueue w);
       awaiting := awaiting (processPreloadQueue w);
       calls := calls (processPreloadQueue w);
       warnings := ws |}.
Proof.
  unfold processPreloadQueue. cbn [self idle awaiting calls warnings].
  destruct (isPreloading (self w)
            || Nat.eqb (List.length (preloadQueue (self w))) 0).
  - reflexivity.
  - destruct (startJobs _ _ _) as [[st rm] c]. reflexivity.
Qed.

(** The [finally] block: the counter goes down by one, and then up by one
    for each queued job the block starts; the queue only loses the jobs
    that were started. *)
Lemma afterJob_spec (w : World) :
  fst (afterJob w) = Normal /\
  exists started,
    idle (snd (afterJob w)) = idle w ++ started /\
    preloadQueue (self w) = started ++ preloadQueue (self (snd (afterJob w))) /\
    currentPreloads (self (snd (afterJob w)))
      = (currentPreloads (self w) - 1 + Z.of_nat (List.length started))%Z /\
    awaiting (snd (afterJob w)) = awaiting w /\
    calls (snd (afterJob w)) = calls w /\
    warnings (snd (afterJob w)) = warnings w /\
    preloadRadius (self (snd (afterJob w))) = preloadRadius (self w) /\
    maxConcurrentPreloads (self (snd (afterJob w)))
      = maxConcurrentPreloads (self w) /\
    (started <> [] ->
     JS.lt (JS.of_Z (currentPreloads (self (snd (afterJob w))) - 1))
           (maxConcurrentPreloads (self w)) = true).
Proof.
  unfold afterJob.
  cbn [set_currentPreloads preloadQueue currentPreloads].
  destruct (negb (Nat.eqb (List.length (preloadQueue (self w))) 0)) eqn:Eq.
  - split; [reflexivity|]. cbn [snd].
    destruct (processPreloadQueue_spec
                (with_self
                   {| preloadQueue := preloadQueue (self w);
                      isPreloading := isPreloading (self w);
                      preloadRadius := preloadRadius (self w);
                      maxConcurrentPreloads := maxConcurrentPreloads (self w);
                      currentPreloads := currentPreloads (self w) - 1 |} w))
      as (st & Hi & Hq & Hc & Hlt & Ha & Hcl & Hw & Hr & Hm).
    exists st. cbn in Hi, Hq, Hc, Hlt, Ha, Hcl, Hw, Hr, Hm.
    repeat split; auto. intro Hne. now apply Hlt.
  - destruct (Z.eqb (currentPreloads (self w) - 1) 0); (split; [reflexivity|]);
      exists []; rewrite app_nil_r; simpl; repeat split; try lia; congruence.
Qed.

(** C8. When the decode call of a preload job fails, the callback catches
    it: the turn completes normally; the scheduler ends in the very state
    a successful decode would have left, with one warning more; the active
    counter has gone down by one (and up by one per job started next);
    every job that was queued is either still queued or has been started,
    in order.  [schedulePreload] itself always completes. *)
Theorem preload_failure_swallowed (w : World) (i : nat) (job : PreloadJob)
    (e : string) :
  nth_error (awaiting w) i = Some job ->
  (forall a, exists w2, step (SchedulePreload a) w = Some w2) /\
  exists w' wok,
    settle i (Rejected e) w = Some (Normal, w') /\
    step (FrameSettled i (Rejected e)) w = Some w' /\
    step (FrameSettled i Resolved) w = Some wok /\
    self w' = self wok /\ idle w' = idle wok /\ awaiting w' = awaiting wok /\
    calls w' = calls wok /\
    warnings wok = warnings w /\ warnings w' = warnings w ++ [(job, e)] /\
    exists started,
      idle w' = idle w ++ started /\
      preloadQueue (self w) = started ++ preloadQueue (self w') /\
      currentPreloads (self w')
        = (currentPreloads (self w) - 1 + Z.of_nat (List.length started))%Z.
Proof.
  intro Hnth. split.
  - intro a. eexists. reflexivity.
  - destruct (removeAt_nth_error _ _ _ Hnth) as [rest Hrm].
    set (w1 := {| self := self w; idle := idle w; awaiting := rest;
                  calls := calls w; warnings := warnings w |}).
    set (w2 := {| self := self w; idle := idle w; awaiting := rest;
                  calls := calls w; warnings := warnings w ++ [(job, e)] |}).
    assert (Hfail : settle i (Rejected e) w
                    = Some (fst (afterJob w2), snd (afterJob w2))).
    { unfold settle. rewrite Hrm. fold w1.
      unfold resumeCallback, tryCatchFinally, awaitSettled, warn.
      cbn [self idle awaiting calls warnings w1]. fold w2.
      destruct (afterJob w2) as [[|x] w3]; reflexivity. }
    assert (Hok : settle i Resolved w
                  = Some (fst (afterJob w1), snd (afterJob w1))).
    { unfold settle. rewrite Hrm. fold w1.
      unfold resumeCallback, tryCatchFinally, awaitSettled.
      destruct (afterJob w1) as [[|x] w3]; reflexivity. }
    destruct (afterJob_spec w1) as (Hn1 & st1 & Hi1 & Hq1 & Hc1 & Ha1 & Hcl1 & Hw1 & _).
    destruct (afterJob_spec w2) as (Hn2 & st2 & Hi2 & Hq2 & Hc2 & Ha2 & Hcl2 & Hw2 & _).
    rewrite Hn2 in Hfail. rewrite Hn1 in Hok.
    assert (Hsame : snd (afterJob w2)
                    = {| self := self (snd (afterJob w1));
                         idle := idle (snd (afterJob w1));
                         awaiting := awaiting (snd (afterJob w1));
                         calls := calls (snd (afterJob w1));
                         warnings := warnings w ++ [(job, e)] |}).
    { unfold afterJob, w1, w2, with_self.
      cbn [self idle awaiting calls warnings set_currentPreloads preloadQueue
           currentPreloads].
      destruct (negb (Nat.eqb (List.length (preloadQueue (self w))) 0)).
      - cbn [snd].
        apply (processPreloadQueue_warnings
                 {| self := {| preloadQueue := preloadQueue (self w);
                               isPreloading := isPreloading (self w);
                               preloadRadius := preloadRadius (self w);
                               maxConcurrentPreloads :=
                                 maxConcurrentPreloads (self w);
                               currentPreloads := currentPreloads (self w) - 1 |};
                    idle := idle w; awaiting := rest; calls := calls w;
                    warnings := warnings w |}).
      - destruct (Z.eqb (currentPreloads (self w) - 1) 0); reflexivity. }
    exists (snd (afterJob w2)), (snd (afterJob w1)).
    split; [exact Hfail|].
    split; [unfold step; now rewrite Hfail|].
    split; [unfold step; now rewrite Hok|].
    rewrite Hsame. cbn [self idle awaiting calls warnings].
    repeat split; try reflexivity.
    + exact Hw1.
    + exists st1. repeat split; assumption.
Qed.

(** A concrete instance: the first of three jobs fails to decode. *)
Lemma preload_failure_swallowed_witness :
  exists w',
    step (FrameSettled 0 (Rejected "decode failed")) decodingWorld = Some w' /\
    List.length (warnings w') = 1%nat.
Proof.
  destruct (preload_failure_swallowed decodingWorld 0
              (mkJob "clip" "clip.mp4"%string (JS.Fin (10 + - 10 + 0))
                 (JS.Fin (100 + - (Qabs (10 + - 10) * 10))))
              "decode failed" eq_refl)
    as (_ & w' & wok & _ & Hstep & _ & _ & _ & _ & _ & _ & Hwarn & _).
  exists w'. split; [exact Hstep|]. rewrite Hwarn. reflexivity.
Defined.

(* ------------------------------------------------------------------ *)
(** ** The sampling loop *)
(* ------------------------------------------------------------------ *)

Lemma lt_Fin (a b : Q) : JS.lt (JS.Fin a) (JS.Fin b) = true <-> a < b.
Proof. simpl. apply Qltb_lt. Qed.

Lemma lt_Fin_false (a b : Q) : JS.lt (JS.Fin a) (JS.Fin b) = false <-> b <= a.
Proof. simpl. apply Qltb_ge. Qed.

(** Each value of [time] in the loop is the start plus a whole number of
    frame intervals, and is below the end. *)
Lemma sampleLoop_In (b : Q) (t : JS.number) :
  forall (fuel : nat) (a : Q),
    In t (sampleLoop fuel (JS.Fin a) (JS.Fin b)) ->
    exists (k : nat) (q : Q),
      (k < fuel)%nat /\ t = JS.Fin q /\
      q == a + inject_Z (Z.of_nat k) * (1 # 24) /\ a <= q /\ q < b.
Proof.
  induction fuel as [|fuel IH]; intros a H; [contradiction|].
  cbn [sampleLoop] in H.
  destruct (JS.lt (JS.Fin a) (JS.Fin b)) eqn:E; [|contradiction].
  apply lt_Fin in E. destruct H as [H|H].
  - exists 0%nat, a. subst t. repeat split; try lia.
    + simpl. ring.
    + apply Qle_refl.
    + exact E.
  - change (JS.add (JS.Fin a) frameInterval) with (JS.Fin (a + (1 # 24))) in H.
    destruct (IH _ H) as (k & q & Hk & Ht & Hq & Hle & Hlt).
    exists (S k), q. repeat split; try lia; try assumption.
    + rewrite Hq, Nat2Z.inj_succ. unfold Z.succ. rewrite inject_Z_plus.
      change (inject_Z 1) with 1. ring.
    + lra.
Qed.

(** The loop between finite bounds makes exactly [fuel] turns as long as
    [fuel] does not exceed the distance in frame intervals, rounded up. *)
Lemma sampleLoop_length (b : Q) :
  forall (fuel : nat) (a : Q),
    (fuel = 0%nat \/ inject_Z (Z.of_nat fuel) - 1 < (b - a) * 24) ->
    List.length (sampleLoop fuel (JS.Fin a) (JS.Fin b)) = fuel.
Proof.
  induction fuel as [|fuel IH]; intros a H; [reflexivity|].
  destruct H as [H|H]; [discriminate|].
  rewrite Nat2Z.inj_succ in H. unfold Z.succ in H.
  rewrite inject_Z_plus in H. change (inject_Z 1) with 1 in H.
  assert (Hf : 0 <= inject_Z (Z.of_nat fuel)).
  { change 0 with (inject_Z 0). rewrite <- Zle_Qle. lia. }
  cbn [sampleLoop].
  assert (E : JS.lt (JS.Fin a) (JS.Fin b) = true).
  { apply lt_Fin. lra. }
  rewrite E. cbn [List.length]. f_equal.
  change (JS.add (JS.Fin a) frameInterval) with (JS.Fin (a + (1 # 24))).
  apply IH. destruct fuel as [|fuel']; [now left|right].
  lra.
Qed.

(** Once the loop has made [sampleCount] turns its test fails: more fuel
    changes nothing. *)
Lemma sampleLoop_exhausted (a b : Q) (extra : nat) :
  sampleLoop (sampleCount (JS.Fin a) (JS.Fin b) + extra) (JS.Fin a) (JS.Fin b)
  = sampleTimes (JS.Fin a) (JS.Fin b).
Proof.
  unfold sampleTimes, sampleCount.
  assert (Hceil : (b - a) * 24 <= inject_Z (Qceiling ((b - a) * 24)))
    by apply Qle_ceiling.
  remember (Z.to_nat (Qceiling ((b - a) * 24))) as n eqn:En.
  assert (Hn : (b - a) * 24 <= inject_Z (Z.of_nat n)).
  { apply Qle_trans with (1 := Hceil). rewrite <- Zle_Qle. subst n. lia. }
  clear En Hceil. revert a Hn.
  induction n as [|n IH]; intros a Hn.
  - change (inject_Z (Z.of_nat 0)) with 0 in Hn.
    destruct extra as [|extra]; [reflexivity|].
    cbn [Nat.add sampleLoop].
    assert (E : JS.lt (JS.Fin a) (JS.Fin b) = false)
      by (apply lt_Fin_false; lra).
    now rewrite E.
  - cbn [Nat.add sampleLoop].
    destruct (JS.lt (JS.Fin a) (JS.Fin b)); [|reflexivity].
    f_equal.
    change (JS.add (JS.Fin a) frameInterval) with (JS.Fin (a + (1 # 24))).
    apply IH.
    rewrite Nat2Z.inj_succ in Hn. unfold Z.succ in Hn.
    rewrite inject_Z_plus in Hn. change (inject_Z 1) with 1 in Hn. lra.
Qed.

Lemma sampleTimes_length (s e : JS.number) :
  List.length (sampleTimes s e) = sampleCount s e.
Proof.
  unfold sampleTimes. destruct s as [| |a|], e as [| |b|]; try reflexivity.
  apply sampleLoop_length. unfold sampleCount.
  destruct (Z_le_gt_dec (Qceiling ((b - a) * 24)) 0) as [Hz|Hz].
  - left. lia.
  - right. rewrite Z2Nat.id by lia.
    pose proof (Qceiling_lt ((b - a) * 24)) as H.
    unfold Z.sub in H. rewrite inject_Z_plus in H.
    change (inject_Z (- (1))) with (- (1)) in H. lra.
Qed.

Lemma sampleTimes_In (s e t : JS.number) :
  In t (sampleTimes s e) ->
  exists (a b q : Q) (k : nat),
    s = JS.Fin a /\ e = JS.Fin b /\ t = JS.Fin q /\
    q == a + inject_Z (Z.of_nat k) * (1 # 24) /\ a <= q /\ q < b.
Proof.
  unfold sampleTimes, sampleCount.
  destruct s as [| |a|], e as [| |b|]; try contradiction.
  intro H. destruct (sampleLoop_In _ _ _ _ H) as (k & q & _ & Ht & Hq & Hle & Hlt).
  exists a, b, q, k. repeat split; assumption.
Qed.

(** The [k]-th value of [time], counting from 0, is the start plus exactly
    [k] frame intervals. *)
Lemma sampleLoop_nth (b : Q) (t : JS.number) :
  forall (fuel k : nat) (a : Q),
    nth_error (sampleLoop fuel (JS.Fin a) (JS.Fin b)) k = Some t ->
    exists q : Q,
      t = JS.Fin q /\
      q == a + inject_Z (Z.of_nat k) * (1 # 24) /\ a <= q /\ q < b.
Proof.
  induction fuel as [|fuel IH]; intros k a H.
  - destruct k; discriminate.
  - cbn [sampleLoop] in H.
    destruct (JS.lt (JS.Fin a) (JS.Fin b)) eqn:E;
      [|destruct k; discriminate].
    apply lt_Fin in E. destruct k as [|k].
    + cbn [nth_error] in H. inversion H; subst t.
      exists a. repeat split.
      * simpl. ring.
      * apply Qle_refl.
      * exact E.
    + cbn [nth_error] in H.
      change (JS.add (JS.Fin a) frameInterval) with (JS.Fin (a + (1 # 24))) in H.
      destruct (IH _ _ H) as (q & Ht & Hq & Hle & Hlt).
      exists q. repeat split; try assumption.
      * rewrite Hq, Nat2Z.inj_succ. unfold Z.succ. rewrite inject_Z_plus.
        change (inject_Z 1) with 1. ring.
      * lra.
Qed.

Lemma sampleTimes_nth (s e t : JS.number) (k : nat) :
  nth_error (sampleTimes s e) k = Some t ->
  exists a b q : Q,
    s = JS.Fin a /\ e = JS.Fin b /\ t = JS.Fin q /\
    q == a + inject_Z (Z.of_nat k) * (1 # 24) /\ a <= q /\ q < b.
Proof.
  unfold sampleTimes, sampleCount.
  destruct s as [| |a|], e as [| |b|];
    try (destruct k; discriminate).
  intro H. destruct (sampleLoop_nth _ _ _ _ _ H) as (q & Ht & Hq & Hle & Hlt).
  exists a, b, q. repeat split; assumption.
Qed.

(* ------------------------------------------------------------------ *)
(** ** The plan of [schedulePreload] *)
(* ------------------------------------------------------------------ *)

Lemma findRelevantVideoElements_In (ct r : JS.number)
    (trs : list TimelineTrack) (files : list MediaFile) (e : MediaElement) :
  In e (findRelevantVideoElements ct trs files r) <->
  exists track,
    In track trs /\ muted track = false /\ track_type track = MediaTrack /\
    In e (elements track) /\
    el_type e = MediaKind /\ hidden e = false /\
    JS.lt (startTime e) (JS.add ct r) = true /\
    JS.gt (elementEnd e) (JS.sub ct (JS.Fin 1)) = true /\
    exists mediaItem,
      findMedia files (el_mediaId e) = Some mediaItem /\
      media_type mediaItem = VideoMedia.
Proof.
  unfold findRelevantVideoElements. rewrite in_flat_map. split.
  - intros (track & Htr & Hin).
    destruct (muted track) eqn:Em; [contradiction|].
    destruct (track_type track) eqn:Et; simpl in Hin; try contradiction.
    apply filter_In in Hin. destruct Hin as [Hin Hrel].
    unfold relevantElement in Hrel.
    destruct (el_type e) eqn:Ek; simpl in Hrel; [|discriminate].
    destruct (hidden e) eqn:Eh; [discriminate|].
    destruct (JS.lt (startTime e) (JS.add ct r)) eqn:E1; [|discriminate].
    destruct (JS.gt (elementEnd e) (JS.sub ct (JS.Fin 1))) eqn:E2;
      [|discriminate].
    simpl in Hrel.
    destruct (findMedia files (el_mediaId e)) as [item|] eqn:Ef;
      [|discriminate].
    exists track. repeat split; auto.
    exists item. split; [reflexivity|].
    destruct (media_type item); try discriminate; reflexivity.
  - intros (track & Htr & Hm & Ht & Hin & Hk & Hh & H1 & H2 & item & Hf & Hv).
    exists track. split; [exact Htr|].
    rewrite Hm, Ht. simpl. apply filter_In. split; [exact Hin|].
    unfold relevantElement. rewrite Hk, Hh, H1, H2, Hf, Hv. reflexivity.
Qed.

Lemma jobsForElement_In (ct r : JS.number) (files : list MediaFile)
    (e : MediaElement) (j : PreloadJob) :
  In j (jobsForElement ct r files e) <->
  exists mediaItem f time,
    findMedia files (el_mediaId e) = Some mediaItem /\
    media_type mediaItem = VideoMedia /\
    media_file mediaItem = Some f /\
    In time (sampleTimes (preloadStart ct r e) (preloadEnd ct r e)) /\
    j = makeJob ct e mediaItem f time.
Proof.
  unfold jobsForElement. split.
  - destruct (findMedia files (el_mediaId e)) as [item|]; [|contradiction].
    destruct (media_type item) eqn:Et; simpl; try contradiction.
    destruct (media_file item) as [f|] eqn:Efile; [|contradiction].
    intro H. apply in_map_iff in H. destruct H as (t & Hj & Ht).
    exists item, f, t. repeat split; auto.
  - intros (item & f & t & Hf & Hv & Hfile & Ht & Hj).
    rewrite Hf, Hv, Hfile. simpl. apply in_map_iff. exists t. auto.
Qed.

(** The [k]-th job pushed for an element is made from the [k]-th value of
    [time]. *)
Lemma jobsForElement_nth (ct r : JS.number) (files : list MediaFile)
    (e : MediaElement) (k : nat) (j : PreloadJob) :
  nth_error (jobsForElement ct r files e) k = Some j ->
  exists mediaItem f time,
    findMedia files (el_mediaId e) = Some mediaItem /\
    media_type mediaItem = VideoMedia /\
    media_file mediaItem = Some f /\
    nth_error (sampleTimes (preloadStart ct r e) (preloadEnd ct r e)) k
    = Some time /\
    j = makeJob ct e mediaItem f time.
Proof.
  unfold jobsForElement.
  destruct (findMedia files (el_mediaId e)) as [item|];
    [|destruct k; discriminate].
  destruct (media_type item) eqn:Et; cbn [is_video negb];
    try (destruct k; discriminate).
  destruct (media_file item) as [f|] eqn:Efile;
    [|destruct k; discriminate].
  rewrite nth_error_map.
  destruct (nth_error (sampleTimes (preloadStart ct r e) (preloadEnd ct r e)) k)
    as [t|] eqn:Ek; [|discriminate].
  cbn [option_map]. intro H. inversion H.
  exists item, f, t. repeat split; auto.
Qed.

Lemma planJobs_In (p : VideoPreloader) (a : PreloadArgs) (j : PreloadJob) :
  In j (planJobs p a) <-> exists e t, createdFor p a e t j.
Proof.
  unfold planJobs, createdFor. rewrite in_flat_map. split.
  - intros (e & He & Hj). apply jobsForElement_In in Hj.
    destruct Hj as (item & f & t & H). exists e, t. split; [exact He|].
    exists item, f. exact H.
  - intros (e & t & He & item & f & H). exists e. split; [exact He|].
    apply jobsForElement_In. exists item, f, t. exact H.
Qed.

(** Case analysis on the rational comparisons left in a goal or a
    hypothesis after the special values have been split off. *)
Ltac split_tests :=
  repeat match goal with
         | H : context [if ?b then _ else _] |- _ => destruct b eqn:?
         | |- context [if ?b then _ else _] => destruct b eqn:?
         end.

(** Unfolds the operations on numbers, leaving rational terms alone. *)
Ltac js_reduce :=
  cbn [JS.max JS.min JS.sub JS.add JS.neg JS.mul JS.abs JS.div JS.lt JS.le
       JS.gt].

Lemma max_Fin_inv (x y : JS.number) (a : Q) :
  JS.max x y = JS.Fin a ->
  JS.le x (JS.Fin a) = true /\ JS.le y (JS.Fin a) = true.
Proof.
  destruct x as [| |p|], y as [| |q|]; simpl; intro H;
    try discriminate; split_tests; inversion H; subst;
    repeat split; try reflexivity;
    try (apply Qle_bool_iff; apply Qle_refl);
    try assumption.
  apply Qle_bool_iff. apply Qlt_le_weak. now apply Qle_bool_false.
Qed.

Lemma min_Fin_inv (x y : JS.number) (b : Q) :
  JS.min x y = JS.Fin b ->
  JS.le (JS.Fin b) x = true /\ JS.le (JS.Fin b) y = true.
Proof.
  destruct x as [| |p|], y as [| |q|]; simpl; intro H;
    try discriminate; split_tests; inversion H; subst;
    repeat split; try reflexivity;
    try (apply Qle_bool_iff; apply Qle_refl);
    try assumption.
  apply Qle_bool_iff. apply Qlt_le_weak. now apply Qle_bool_false.
Qed.

Lemma le_Fin_weaken (x : JS.number) (a q : Q) :
  JS.le x (JS.Fin a) = true -> a <= q -> JS.le x (JS.Fin q) = true.
Proof.
  destruct x as [| |p|]; simpl; intros H Hq; try discriminate; try reflexivity.
  apply Qle_bool_iff. apply Qle_bool_iff in H. lra.
Qed.

Lemma lt_Fin_le (y : JS.number) (b q : Q) :
  JS.le (JS.Fin b) y = true -> q < b -> JS.lt (JS.Fin q) y = true.
Proof.
  destruct y as [| |p|]; simpl; intros H Hq; try discriminate; try reflexivity.
  apply Qltb_lt. apply Qle_bool_iff in H. lra.
Qed.

(** A window [[max(x, ct - r), min(y, ct + r))] with finite ends only
    arises for a finite [ct]. *)
Lemma window_currentTime_finite (x y ct r : JS.number) (a b : Q) :
  JS.max x (JS.sub ct r) = JS.Fin a ->
  JS.min y (JS.add ct r) = JS.Fin b ->
  exists c, ct = JS.Fin c.
Proof.
  destruct ct as [| |c|]; [| | now exists c |];
    destruct r as [| |r|], x as [| |x|], y as [| |y|]; simpl;
    intros H1 H2; split_tests; discriminate.
Qed.

Lemma jobPriority_Fin (c q : Q) :
  exists prio,
    jobPriority (JS.Fin c) (JS.Fin q) = JS.Fin prio /\
    prio == Qmax 0 (100 - 10 * Qabs (q - c)) /\ 0 <= prio.
Proof.
  unfold jobPriority. js_reduce.
  destruct (Qle_bool 0 (100 + - (Qabs (q + - c) * 10))) eqn:E.
  - apply Qle_bool_iff in E. eexists. split; [reflexivity|]. split.
    + rewrite Q.max_r; [unfold Qminus; ring|].
      unfold Qminus. lra.
    + exact E.
  - apply Qle_bool_false in E. exists 0. split; [reflexivity|]. split.
    + rewrite Q.max_l; [reflexivity|]. unfold Qminus. lra.
    + apply Qle_refl.
Qed.

Lemma jobPriority_monotone (c q1 q2 : Q) :
  Qabs (q1 - c) < Qabs (q2 - c) ->
  JS.le (jobPriority (JS.Fin c) (JS.Fin q2)) (jobPriority (JS.Fin c) (JS.Fin q1))
  = true.
Proof.
  intro H. unfold jobPriority. js_reduce. unfold Qminus in H.
  destruct (Qle_bool 0 (100 + - (Qabs (q2 + - c) * 10))) eqn:E2;
    destruct (Qle_bool 0 (100 + - (Qabs (q1 + - c) * 10))) eqn:E1;
    js_reduce; apply Qle_bool_iff;
    try apply Qle_bool_iff in E1; try apply Qle_bool_iff in E2;
    try apply Qle_bool_false in E1; try apply Qle_bool_false in E2; lra.
Qed.

(** A created job has a finite sample time inside a finite sampling
    window, around a finite playhead. *)
Lemma createdFor_finite (p : VideoPreloader) (a : PreloadArgs)
    (e : MediaElement) (t : JS.number) (j : PreloadJob) :
  createdFor p a e t j ->
  exists (q c lo hi : Q) (k : nat),
    t = JS.Fin q /\ currentTime a = JS.Fin c /\
    preloadStart (currentTime a) (adjustedRadius p a) e = JS.Fin lo /\
    preloadEnd (currentTime a) (adjustedRadius p a) e = JS.Fin hi /\
    q == lo + inject_Z (Z.of_nat k) * (1 # 24) /\ lo <= q /\ q < hi /\
    priority j = jobPriority (JS.Fin c) (JS.Fin q) /\
    targetTime j = localTime e t.
Proof.
  intros (_ & item & f & _ & _ & _ & Ht & Hj).
  apply sampleTimes_In in Ht.
  destruct Ht as (lo & hi & q & k & Hs & He & Ht & Hq & Hle & Hlt).
  destruct (window_currentTime_finite _ _ _ _ _ _ Hs He) as [c Hc].
  exists q, c, lo, hi, k. subst j t. rewrite Hc in *.
  repeat split; auto.
Qed.

(** C3. Every job that [schedulePreload] creates has the priority
    [max(0, 100 - 10 * |sampleTime - currentTime|)], which is never
    negative; and of two created jobs the one sampled strictly nearer to
    the current time has a priority at least as high.  The jobs of the
    plan are exactly the created ones. *)
Theorem priority_by_distance (p : VideoPreloader) (a : PreloadArgs) :
  (forall j, In j (planJobs p a) <-> exists e t, createdFor p a e t j) /\
  (forall e t j,
     createdFor p a e t j ->
     exists q c prio : Q,
       t = JS.Fin q /\ currentTime a = JS.Fin c /\
       priority j = JS.Fin prio /\
       prio == Qmax 0 (100 - 10 * Qabs (q - c)) /\ 0 <= prio) /\
  (forall e1 t1 j1 e2 t2 j2,
     createdFor p a e1 t1 j1 ->
     createdFor p a e2 t2 j2 ->
     JS.lt (JS.abs (JS.sub t1 (currentTime a)))
           (JS.abs (JS.sub t2 (currentTime a))) = true ->
     JS.le (priority j2) (priority j1) = true).
Proof.
  split; [intro j; apply planJobs_In|]. split.
  - intros e t j H.
    destruct (createdFor_finite _ _ _ _ _ H)
      as (q & c & lo & hi & k & Ht & Hc & _ & _ & _ & _ & _ & Hp & _).
    destruct (jobPriority_Fin c q) as (prio & Hprio & Heq & Hpos).
    exists q, c, prio. rewrite Hp, Hprio. repeat split; assumption.
  - intros e1 t1 j1 e2 t2 j2 H1 H2 Hd.
    destruct (createdFor_finite _ _ _ _ _ H1)
      as (q1 & c & lo1 & hi1 & k1 & Ht1 & Hc & _ & _ & _ & _ & _ & Hp1 & _).
    destruct (createdFor_finite _ _ _ _ _ H2)
      as (q2 & c' & lo2 & hi2 & k2 & Ht2 & Hc' & _ & _ & _ & _ & _ & Hp2 & _).
    rewrite Hc in Hc'. inversion Hc'; subst c'.
    rewrite Hp1, Hp2. apply jobPriority_monotone.
    rewrite Ht1, Ht2, Hc in Hd.
    cbn [JS.sub JS.add JS.neg JS.abs JS.lt] in Hd.
    apply Qltb_lt in Hd. exact Hd.
Qed.

(** A concrete instance: the first job of the three-sample plan, sampled
    at the playhead, has priority 100. *)
Lemma priority_by_distance_witness :
  exists q c prio : Q,
    currentTime threeJobArgs = JS.Fin c /\
    JS.Fin (100 + - (Qabs (10 + - 10) * 10)) = JS.Fin prio /\
    prio == Qmax 0 (100 - 10 * Qabs (q - c)) /\ 0 <= prio.
Proof.
  destruct (priority_by_distance newPreloader threeJobArgs) as (Hplan & Hprio & _).
  destruct (proj1 (Hplan (mkJob "clip" "clip.mp4"%string (JS.Fin (10 + - 10 + 0))
                            (JS.Fin (100 + - (Qabs (10 + - 10) * 10)))))
                  (or_introl eq_refl)) as (e & t & Hc).
  destruct (Hprio e t _ Hc) as (q & c & prio & _ & Hct & Hp & Heq & Hpos).
  exists q, c, prio. repeat split; assumption.
Defined.

(** C4 as stated fails: with the playhead at 10 s, the radius 3 s and an
    element covering [[0, 100]], a job is created for the sample time 7 s,
    which lies before the search window [[9, 13]]. *)
Lemma sample_before_search_window :
  exists e t j,
    createdFor newPreloader (argsAt10 None) e t j /\
    JS.lt t (JS.sub (currentTime (argsAt10 None)) (JS.Fin 1)) = true /\
    JS.same t (JS.Fin 7).
Proof.
  exists longClip, (JS.Fin (10 + - (3 / 1))),
         (makeJob (JS.Fin 10) longClip clipFile "clip.mp4"%string
                  (JS.Fin (10 + - (3 / 1)))).
  split; [|split; reflexivity].
  split.
  - apply findRelevantVideoElements_In.
    exists (mkTrack MediaTrack false [longClip]).
    repeat split; try (now left).
    exists clipFile. split; reflexivity.
  - exists clipFile, "clip.mp4"%string.
    repeat split.
    replace (sampleTimes _ _)
      with (sampleLoop 144 (JS.Fin (10 + - (3 / 1)))
                       (JS.Fin (10 + 3 / 1))) by reflexivity.
    left. reflexivity.
Qed.

(** C4, amended.  [schedulePreload] creates jobs only for media-typed,
    non-hidden elements on non-muted media tracks that refer to a
    video-typed media file with a byte source and whose active interval
    overlaps [[currentTime - 1, currentTime + radius]].  The sampled time
    of every job lies in the element's active interval and in
    [[currentTime - radius, currentTime + radius)]; the samples are
    stepped by 1/24 s from the start of that overlap, the [k]-th job of
    the element being sampled exactly [k] steps after it; and the job's
    [targetTime] is [sampleTime - startTime + trimStart]. *)
Theorem created_jobs_origin (p : VideoPreloader) (a : PreloadArgs)
    (j : PreloadJob) :
  In j (planJobs p a) -> jobOrigin p a j.
Proof.
  intro Hin. unfold planJobs in Hin. apply in_flat_map in Hin.
  destruct Hin as (e & Hrel & Hin).
  apply In_nth_error in Hin. destruct Hin as [k Hjob].
  destruct (jobsForElement_nth _ _ _ _ _ _ Hjob)
    as (item & f & t & Hf & Hv & Hfile & Hnth & Hj).
  destruct (sampleTimes_nth _ _ _ _ Hnth)
    as (lo & hi & q & Hlo & Hhi & Ht & Hq & Hle & Hlt).
  assert (Htt : targetTime j = localTime e t) by (subst j; reflexivity).
  apply findRelevantVideoElements_In in Hrel.
  destruct Hrel as (track & Htr & Hm & Hty & Hel & Hk & Hh & H1 & H2 & _).
  unfold preloadStart in Hlo. unfold preloadEnd in Hhi.
  destruct (max_Fin_inv _ _ _ Hlo) as [Hs1 Hs2].
  destruct (min_Fin_inv _ _ _ Hhi) as [He1 He2].
  exists track, e, item, t.
  split; [repeat split; assumption|].
  split; [subst j; repeat split; assumption|].
  split; [split; assumption|].
  split.
  - subst t. repeat split.
    + exact (le_Fin_weaken _ _ _ Hs1 Hle).
    + exact (lt_Fin_le _ _ _ He1 Hlt).
    + exact (le_Fin_weaken _ _ _ Hs2 Hle).
    + exact (lt_Fin_le _ _ _ He2 Hlt).
  - split; [|exact Htt].
    exists k. split; [exact Hjob|]. rewrite Hlo, Ht. exact Hq.
Qed.

(** A concrete instance: the second job of the three-sample plan, sampled
    1/24 s after the playhead. *)
Lemma created_jobs_origin_witness :
  jobOrigin newPreloader threeJobArgs
    (mkJob "clip" "clip.mp4"%string (JS.Fin (10 + (1 # 24) + - 10 + 0))
       (JS.Fin (100 + - (Qabs (10 + (1 # 24) + - 10) * 10)))).
Proof.
  apply created_jobs_origin. right. left. reflexivity.
Defined.

(* ------------------------------------------------------------------ *)
(** ** The look-ahead radius *)
(* ------------------------------------------------------------------ *)

(** Turns the boolean rational tests in the context into propositions. *)
Ltac reflect_tests :=
  repeat match goal with
         | H : Qle_bool _ _ = true |- _ => apply Qle_bool_iff in H
         | H : Qle_bool _ _ = false |- _ => apply Qle_bool_false in H
         | H : JS.Qltb _ _ = true |- _ => apply Qltb_lt in H
         | H : JS.Qltb _ _ = false |- _ => apply Qltb_ge in H
         | H : Qeq_bool _ _ = true |- _ => apply Qeq_bool_iff in H
         | H : Qeq_bool _ _ = false |- _ => apply Qeq_bool_neq in H
         end.

Lemma same_refl (x : JS.number) : JS.same x x.
Proof. destruct x; simpl; auto. apply Qeq_refl. Qed.

Lemma adjustedRadius_finite (p : VideoPreloader) (a : PreloadArgs) (b v : Q) :
  preloadRadius p = JS.Fin b -> speedOf a = JS.Fin v ->
  JS.same (adjustedRadius p a) (JS.Fin (b / Qmax (1 # 2) v)).
Proof.
  intros Hb Hv. unfold adjustedRadius. rewrite Hb, Hv. js_reduce.
  destruct (Qle_bool (1 # 2) v) eqn:E; js_reduce; reflect_tests.
  - destruct (Qeq_bool v 0) eqn:E0; reflect_tests; [lra|].
    simpl. now rewrite Q.max_r.
  - destruct (Qeq_bool (1 # 2) 0) eqn:E0; [discriminate|].
    simpl. rewrite Q.max_l; [reflexivity | lra].
Qed.

Lemma adjustedRadius_slow (p : VideoPreloader) (a : PreloadArgs) :
  JS.le (speedOf a) (JS.Fin (1 # 2)) = true ->
  JS.same (adjustedRadius p a) (JS.div (preloadRadius p) (JS.Fin (1 # 2))).
Proof.
  intro H. unfold adjustedRadius.
  destruct (speedOf a) as [| |v|]; try discriminate.
  - apply same_refl.
  - cbn [JS.le] in H. js_reduce.
    destruct (Qle_bool (1 # 2) v) eqn:E; [|apply same_refl].
    reflect_tests. assert (Hv : v == 1 # 2) by lra.
    destruct (preloadRadius p) as [| |b|]; js_reduce; try exact I.
    + destruct (JS.Qltb v 0) eqn:E1; reflect_tests; [lra | exact I].
    + destruct (Qeq_bool v 0) eqn:E1; reflect_tests; [lra|].
      change (Qeq_bool (1 # 2) 0) with false. cbn iota.
      simpl. now rewrite Hv.
    + destruct (JS.Qltb v 0) eqn:E1; reflect_tests; [lra | exact I].
Qed.

(** A smaller radius gives a sampling window with no more turns. *)
Lemma sampleCount_monotone (es ee ct : JS.number) (x2 x1 : Q) :
  x2 <= x1 ->
  (sampleCount (JS.max es (JS.sub ct (JS.Fin x2)))
               (JS.min ee (JS.add ct (JS.Fin x2)))
   <= sampleCount (JS.max es (JS.sub ct (JS.Fin x1)))
                  (JS.min ee (JS.add ct (JS.Fin x1))))%nat.
Proof.
  intro Hx.
  destruct es as [| |s|], ee as [| |e|], ct as [| |c|]; js_reduce;
    split_tests; cbn [sampleCount]; try lia; reflect_tests;
    match goal with
    | |- (Z.to_nat (Qceiling ?u) <= Z.to_nat (Qceiling ?v))%nat =>
        assert (Hceil : (Qceiling u <= Qceiling v)%Z)
          by (apply Qceiling_resp_le; lra);
        lia
    end.
Qed.

Lemma lt_add_monotone (es ct : JS.number) (x2 x1 : Q) :
  x2 <= x1 ->
  JS.lt es (JS.add ct (JS.Fin x2)) = true ->
  JS.lt es (JS.add ct (JS.Fin x1)) = true.
Proof.
  intro Hx. destruct es as [| |s|], ct as [| |c|]; js_reduce; auto.
  intro H. reflect_tests. apply Qltb_lt. lra.
Qed.

Lemma elementJobCount_monotone (ct : JS.number) (files : list MediaFile)
    (e : MediaElement) (x2 x1 : Q) :
  x2 <= x1 ->
  (elementJobCount ct (JS.Fin x2) files e
   <= elementJobCount ct (JS.Fin x1) files e)%nat.
Proof.
  intro Hx. unfold elementJobCount, relevantElement.
  destruct (negb (is_media_element (el_type e)) || hidden e); [lia|].
  destruct (JS.lt (startTime e) (JS.add ct (JS.Fin x2))) eqn:E2;
    cbn [andb]; [|lia].
  rewrite (lt_add_monotone _ _ _ _ Hx E2). cbn [andb].
  destruct (JS.gt (elementEnd e) (JS.sub ct (JS.Fin 1))); [|lia].
  unfold jobsForElement.
  destruct (findMedia files (el_mediaId e)) as [item|]; [|lia].
  destruct (is_video (media_type item)); [|lia]. cbn [negb].
  destruct (media_file item) as [f|]; [|simpl; lia].
  rewrite !length_map, !sampleTimes_length.
  apply sampleCount_monotone. exact Hx.
Qed.

Lemma relevant_jobs_length (ct r : JS.number) (files : list MediaFile)
    (els : list MediaElement) :
  List.length
    (flat_map (jobsForElement ct r files)
       (filter (relevantElement (JS.sub ct (JS.Fin 1)) (JS.add ct r) files) els))
  = list_sum (map (elementJobCount ct r files) els).
Proof.
  induction els as [|e els IH]; [reflexivity|].
  cbn [filter map list_sum]. unfold elementJobCount at 1.
  destruct (relevantElement _ _ files e).
  - cbn [flat_map]. rewrite length_app, IH. reflexivity.
  - rewrite IH. reflexivity.
Qed.

(** With the same timeline, a smaller finite radius plans no more jobs. *)
Lemma plan_length_monotone (ct : JS.number) (trs : list TimelineTrack)
    (files : list MediaFile) (x2 x1 : Q) :
  x2 <= x1 ->
  (List.length
     (flat_map (jobsForElement ct (JS.Fin x2) files)
        (findRelevantVideoElements ct trs files (JS.Fin x2)))
   <= List.length
        (flat_map (jobsForElement ct (JS.Fin x1) files)
           (findRelevantVideoElements ct trs files (JS.Fin x1))))%nat.
Proof.
  intro Hx. unfold findRelevantVideoElements.
  induction trs as [|track trs IH]; [simpl; lia|].
  cbn [flat_map]. rewrite !flat_map_app, !length_app.
  apply Nat.add_le_mono; [|exact IH].
  destruct (muted track || negb (is_media_track (track_type track)));
    [simpl; lia|].
  rewrite !relevant_jobs_length.
  induction (elements track) as [|e els IHe]; [simpl; lia|].
  cbn [map list_sum]. apply Nat.add_le_mono; [|exact IHe].
  apply elementJobCount_monotone. exact Hx.
Qed.

Lemma same_Fin_inv (x : JS.number) (q : Q) :
  JS.same x (JS.Fin q) -> exists q', x = JS.Fin q' /\ q' == q.
Proof.
  destruct x as [| |q'|]; simpl; try contradiction. intro H. now exists q'.
Qed.

(** C5. The look-ahead radius of [schedulePreload] is the base radius
    divided by [max(0.5, playbackSpeed)].  For a speed of at most 0.5
    (0 and negative speeds included) it is the base radius divided by 0.5.
    With the base radius 3 and the speed 2 it is 1.5 s, and the plan then
    never has more jobs than at speed 1; on the timeline with one clip
    around the playhead at 10 s it has strictly fewer. *)
Theorem effective_radius (p : VideoPreloader) (a : PreloadArgs) :
  (forall b v : Q,
     preloadRadius p = JS.Fin b -> speedOf a = JS.Fin v ->
     JS.same (adjustedRadius p a) (JS.Fin (b / Qmax (1 # 2) v))) /\
  (JS.le (speedOf a) (JS.Fin (1 # 2)) = true ->
   JS.same (adjustedRadius p a)
           (JS.div (preloadRadius p) (JS.Fin (1 # 2)))) /\
  (preloadRadius p = JS.Fin 3 ->
   JS.same (adjustedRadius p (withSpeed (JS.Fin 2) a)) (JS.Fin (3 # 2)) /\
   (List.length (planJobs p (withSpeed (JS.Fin 2) a))
    <= List.length (planJobs p (withSpeed (JS.Fin 1) a)))%nat) /\
  (List.length (planJobs newPreloader (argsAt10 (Some (JS.Fin 2))))
   < List.length (planJobs newPreloader (argsAt10 (Some (JS.Fin 1)))))%nat.
Proof.
  split; [intros b v; apply adjustedRadius_finite|].
  split; [apply adjustedRadius_slow|].
  split.
  - intro H3. split.
    + unfold adjustedRadius. rewrite H3. reflexivity.
    + unfold planJobs, adjustedRadius. rewrite H3.
      cbn [withSpeed speedOf playbackSpeed currentTime tracks mediaFiles].
      change (JS.div (JS.Fin 3) (JS.max (JS.Fin (1 # 2)) (JS.Fin 2)))
        with (JS.Fin (3 / 2)).
      change (JS.div (JS.Fin 3) (JS.max (JS.Fin (1 # 2)) (JS.Fin 1)))
        with (JS.Fin (3 / 1)).
      apply plan_length_monotone. discriminate.
  - vm_compute. lia.
Qed.

(** A concrete instance: a paused playhead (speed 0). *)
Lemma effective_radius_witness :
  JS.same (adjustedRadius newPreloader (argsAt10 (Some (JS.Fin 0))))
          (JS.div (preloadRadius newPreloader) (JS.Fin (1 # 2))).
Proof.
  exact (proj1 (proj2 (effective_radius newPreloader
                         (argsAt10 (Some (JS.Fin 0))))) eq_refl).
Defined.

(* ------------------------------------------------------------------ *)
(** ** The concurrency bound *)
(* ------------------------------------------------------------------ *)

(** After a start that passed the test [current < limit], the counter is
    at most any integer bound of the limit. *)
Lemma started_below (m : JS.number) (c z : Z) :
  JS.lt (JS.of_Z (c - 1)) m = true ->
  (exists q, m = JS.Fin q /\ q <= inject_Z z) ->
  (c <= z)%Z.
Proof.
  intros Hlt (q & -> & Hq). unfold JS.of_Z in Hlt. apply lt_Fin in Hlt.
  assert (H : inject_Z (c - 1) < inject_Z z) by lra.
  rewrite <- Zlt_Qlt in H. lia.
Qed.

(** A counter that moves as [processPreloadQueue] and the [finally] block
    move it stays within an integer bound of the limit. *)
Lemma counter_bounded (m : JS.number) (c0 c z : Z) (started : list PreloadJob) :
  (c0 <= z)%Z ->
  (c <= c0 + Z.of_nat (List.length started))%Z ->
  (started <> [] -> JS.lt (JS.of_Z (c - 1)) m = true) ->
  (m = JS.NaN \/ exists q, m = JS.Fin q /\ q <= inject_Z z) ->
  (c <= z)%Z.
Proof.
  intros H0 Hc Hlt Hm. destruct started as [|j st].
  - simpl in Hc. lia.
  - assert (Hl : JS.lt (JS.of_Z (c - 1)) m = true) by (apply Hlt; discriminate).
    destruct Hm as [-> | Hm]; [discriminate|].
    eapply started_below; eauto.
Qed.

Lemma within_bound (lo hi : Q) (m : JS.number) (z : Z) :
  hi <= inject_Z z ->
  m = JS.NaN \/ JS.within lo hi m ->
  m = JS.NaN \/ exists q, m = JS.Fin q /\ q <= inject_Z z.
Proof.
  intros Hz [H|H]; [now left|right].
  destruct m as [| |q|]; simpl in H; try contradiction.
  exists q. split; [reflexivity|]. lra.
Qed.

Lemma same_bound (m : JS.number) (z : Z) :
  JS.same m (JS.of_Z z) ->
  m = JS.NaN \/ exists q, m = JS.Fin q /\ q <= inject_Z z.
Proof.
  intro H. right. destruct m as [| |q|]; simpl in H; try contradiction.
  exists q. split; [reflexivity|]. lra.
Qed.

Lemma NaN_or_not (m : JS.number) : m = JS.NaN \/ m <> JS.NaN.
Proof. destruct m; [now left | right; discriminate ..]. Qed.

Lemma step_limitClamped (e : Event) (w w' : World) :
  limitClamped w -> step e w = Some w' -> limitClamped w'.
Proof.
  intros [Hm Hc] Hstep. destruct e as [a|c| |i|i s]; cbn [step] in Hstep.
  - inversion Hstep; subst w'. clear Hstep. unfold schedulePreload.
    match goal with |- limitClamped (processPreloadQueue ?w0) =>
      destruct (processPreloadQueue_spec w0)
        as (st & _ & _ & Hc' & Hlt & _ & _ & _ & _ & Hm') end.
    cbn [with_self self set_queue maxConcurrentPreloads currentPreloads]
      in Hc', Hlt, Hm'.
    split; [rewrite Hm'; exact Hm|].
    apply (counter_bounded (maxConcurrentPreloads (self w))
             (currentPreloads (self w)) _ 4 st Hc); [lia | | ].
    + intro Hne. now apply Hlt.
    + apply (within_bound 1 4); [discriminate | exact Hm].
  - inversion Hstep; subst w'. clear Hstep.
    unfold limitClamped. cbn [with_self self]. split.
    + unfold configure.
      destruct (cfg_preloadRadius c), (cfg_maxConcurrentPreloads c) as [m|];
        cbn [set_maxConcurrentPreloads set_preloadRadius maxConcurrentPreloads];
        try exact Hm;
        (destruct (NaN_or_not m) as [-> | Hn];
         [left; reflexivity | right; apply clamp_within;
                              [discriminate | exact Hn]]).
    + destruct (configure_fields c (self w)) as (_ & _ & _ & Hcur & _).
      rewrite Hcur. exact Hc.
  - inversion Hstep; subst w'. exact (conj Hm Hc).
  - unfold runIdleCallback in Hstep.
    destruct (removeAt i (idle w)) as [[job rest]|]; [|discriminate].
    inversion Hstep; subst w'. exact (conj Hm Hc).
  - unfold settle in Hstep.
    destruct (removeAt i (awaiting w)) as [[job rest]|]; [|discriminate].
    unfold resumeCallback, tryCatchFinally in Hstep.
    destruct s as [|err]; cbn [awaitSettled warn] in Hstep;
      match type of Hstep with context [afterJob ?w0] =>
        destruct (afterJob_spec w0)
          as (Hn & st & _ & _ & Hc' & _ & _ & _ & _ & Hm' & Hlt);
        destruct (afterJob w0) as [cpl w3]
      end;
      cbn [fst snd self] in Hn, Hc', Hm', Hlt; subst cpl;
      inversion Hstep; subst w3;
      (split; [rewrite Hm'; exact Hm|]);
      apply (counter_bounded (maxConcurrentPreloads (self w))
               (currentPreloads (self w)) _ 4 st Hc); try lia; try assumption;
      apply (within_bound 1 4); try discriminate; exact Hm.
Qed.

Lemma clamp_integer (lo hi : Z) (m : JS.number) :
  JS.isInteger m = true ->
  exists z, JS.same (JS.max (JS.of_Z lo) (JS.min (JS.of_Z hi) m)) (JS.of_Z z).
Proof.
  destruct m as [| |q|]; try discriminate. cbn [JS.isInteger]. intro H.
  reflect_tests. unfold JS.of_Z. js_reduce. split_tests; js_reduce; split_tests;
    first [ exists lo; apply Qeq_refl
          | exists hi; apply Qeq_refl
          | exists (Qfloor q); exact H ].
Qed.

Lemma not_gt_of_Z (c z : Z) (m : JS.number) :
  JS.same m (JS.of_Z z) ->
  JS.gt (JS.of_Z c) m = false <-> (c <= z)%Z.
Proof.
  intro H. destruct m as [| |q|]; simpl in H; try contradiction.
  unfold JS.gt, JS.of_Z. rewrite lt_Fin_false, H, <- Zle_Qle. reflexivity.
Qed.

Lemma step_limitRespected (e : Event) (w w' : World) :
  limitRespected w ->
  match e with Configure c => keepsLimit c (self w) = true | _ => True end ->
  step e w = Some w' ->
  limitRespected w'.
Proof.
  intros (z & Hm & Hc) Hkeep Hstep.
  destruct e as [a|c| |i|i s]; cbn [step] in Hstep.
  - inversion Hstep; subst w'. clear Hstep. unfold schedulePreload.
    match goal with |- limitRespected (processPreloadQueue ?w0) =>
      destruct (processPreloadQueue_spec w0)
        as (st & _ & _ & Hc' & Hlt & _ & _ & _ & _ & Hm') end.
    cbn [with_self self set_queue maxConcurrentPreloads currentPreloads]
      in Hc', Hlt, Hm'.
    exists z. split; [rewrite Hm'; exact Hm|].
    apply (counter_bounded (maxConcurrentPreloads (self w))
             (currentPreloads (self w)) _ z st Hc); [lia | | ].
    + intro Hne. now apply Hlt.
    + now apply same_bound.
  - inversion Hstep; subst w'. clear Hstep.
    unfold limitRespected. cbn [with_self self].
    destruct (configure_fields c (self w)) as (_ & Hkeepm & _ & Hcur & _).
    rewrite Hcur. unfold keepsLimit in Hkeep.
    destruct (cfg_maxConcurrentPreloads c) as [m|] eqn:Ecfg.
    + apply andb_true_iff in Hkeep. destruct Hkeep as [Hint Hgt].
      apply negb_true_iff in Hgt.
      assert (Hmax : maxConcurrentPreloads (configure c (self w))
                     = JS.max (JS.of_Z 1) (JS.min (JS.of_Z 4) m)).
      { unfold configure. rewrite Ecfg.
        destruct (cfg_preloadRadius c); reflexivity. }
      destruct (clamp_integer 1 4 m Hint) as [z' Hz'].
      rewrite <- Hmax in Hz'. exists z'. split; [exact Hz'|].
      now apply (not_gt_of_Z _ _ _ Hz').
    + exists z. split; [|exact Hc].
      rewrite (Hkeepm eq_refl). exact Hm.
  - inversion Hstep; subst w'. exists z. split; assumption.
  - unfold runIdleCallback in Hstep.
    destruct (removeAt i (idle w)) as [[job rest]|]; [|discriminate].
    inversion Hstep; subst w'. exists z. split; assumption.
  - unfold settle in Hstep.
    destruct (removeAt i (awaiting w)) as [[job rest]|]; [|discriminate].
    unfold resumeCallback, tryCatchFinally in Hstep.
    destruct s as [|err]; cbn [awaitSettled warn] in Hstep;
      match type of Hstep with context [afterJob ?w0] =>
        destruct (afterJob_spec w0)
          as (Hn & st & _ & _ & Hc' & _ & _ & _ & _ & Hm' & Hlt);
        destruct (afterJob w0) as [cpl w3]
      end;
      cbn [fst snd self] in Hn, Hc', Hm', Hlt; subst cpl;
      inversion Hstep; subst w3;
      exists z; (split; [rewrite Hm'; exact Hm|]);
      apply (counter_bounded (maxConcurrentPreloads (self w))
               (currentPreloads (self w)) _ z st Hc); try lia; try assumption;
      now apply same_bound.
Qed.

Lemma run_limitClamped (es : list Event) :
  forall w w', limitClamped w -> run es w = Some w' -> limitClamped w'.
Proof.
  induction es as [|e es IH]; intros w w' Hinv Hrun; cbn [run] in Hrun.
  - inversion Hrun; subst. exact Hinv.
  - destruct (step e w) as [w1|] eqn:Es; [|discriminate].
    exact (IH _ _ (step_limitClamped _ _ _ Hinv Es) Hrun).
Qed.

Lemma run_limitRespected (es : list Event) :
  forall w w',
    limitRespected w -> limitKept es w = true -> run es w = Some w' ->
    limitRespected w'.
Proof.
  induction es as [|e es IH]; intros w w' Hinv Hkept Hrun; cbn [run] in Hrun.
  - inversion Hrun; subst. exact Hinv.
  - destruct (step e w) as [w1|] eqn:Es; [|discriminate].
    cbn [limitKept] in Hkept. rewrite Es in Hkept.
    apply andb_true_iff in Hkept. destruct Hkept as [Hk Hrest].
    apply (IH w1 w'); [|exact Hrest|exact Hrun].
    apply (step_limitRespected e w w1 Hinv); [|exact Es].
    destruct e; auto.
Qed.

(** C1 as stated fails: raise the limit to 3, schedule three jobs, lower
    the limit to 1; three jobs are then active against a limit of 1. *)
Lemma active_exceeds_lowered_limit :
  exists w,
    run loweredLimitTrace newWorld = Some w /\
    reachable w /\
    activePreloads (getStats (self w)) = 3%Z /\
    maxConcurrentPreloads (self w) = JS.Fin 1 /\
    JS.gt (JS.of_Z (activePreloads (getStats (self w))))
          (maxConcurrentPreloads (self w)) = true.
Proof.
  eexists. split; [reflexivity|]. split.
  - exists loweredLimitTrace. reflexivity.
  - repeat split.
Qed.

(** C1, amended.  A job is started only while [currentPreloads] is below
    [maxConcurrentPreloads].  So at most four jobs are ever active; and in
    every state reached by [schedulePreload], [configure], [clearQueue],
    callback starts and decode completions in which each [configure] call
    that supplies [maxConcurrentPreloads] supplies an integer whose
    clamped value is not below the number of jobs already active, the
    number of active jobs does not exceed [maxConcurrentPreloads]. *)
Theorem active_preloads_bounded (es : list Event) (w : World) :
  run es newWorld = Some w ->
  (activePreloads (getStats (self w)) <= 4)%Z /\
  (limitKept es newWorld = true ->
   JS.gt (JS.of_Z (activePreloads (getStats (self w))))
         (maxConcurrentPreloads (self w)) = false).
Proof.
  intro Hrun. split.
  - assert (H0 : limitClamped newWorld).
    { split; [right; simpl; split; discriminate | simpl; lia]. }
    exact (proj2 (run_limitClamped es _ _ H0 Hrun)).
  - intro Hkept.
    assert (H0 : limitRespected newWorld).
    { exists 2%Z. split; [apply Qeq_refl | simpl; lia]. }
    destruct (run_limitRespected es _ _ H0 Hkept Hrun) as (z & Hm & Hc).
    now apply (not_gt_of_Z _ _ _ Hm).
Qed.

(** A concrete instance: raise the limit to 3 and
    schedule three jobs. *)
Lemma active_preloads_bounded_witness :
  (activePreloads
     (getStats (self (schedulePreload threeJobArgs
                        (with_self (configure (mkConfig None (Some (JS.Fin 3)))
                                              newPreloader) newWorld))))
   <= 4)%Z /\
  JS.gt (JS.of_Z
           (activePreloads
              (getStats (self (schedulePreload threeJobArgs
                                 (with_self
                                    (configure (mkConfig None (Some (JS.Fin 3)))
                                               newPreloader) newWorld))))))
        (JS.Fin 3) = false.
Proof.
  destruct (active_preloads_bounded
              [Configure (mkConfig None (Some (JS.Fin 3)));
               SchedulePreload threeJobArgs]
              _ eq_refl) as [H4 Hlim].
  split; [exact H4 | exact (Hlim eq_refl)].
Defined.

(* ------------------------------------------------------------------ *)
(** ** The sorted queue *)
(* ------------------------------------------------------------------ *)

Lemma insertJob_Permutation (x : PreloadJob) (l : list PreloadJob) :
  Permutation (insertJob x l) (x :: l).
Proof.
  induction l as [|y l IH]; cbn [insertJob]; [apply Permutation_refl|].
  destruct (sortsBefore y x); [|apply Permutation_refl].
  apply perm_trans with (y :: x :: l); [now apply perm_skip | apply perm_swap].
Qed.

Lemma sortJobs_Permutation (l : list PreloadJob) :
  Permutation (sortJobs l) l.
Proof.
  induction l as [|x l IH]; cbn [sortJobs]; [apply perm_nil|].
  apply perm_trans with (x :: sortJobs l);
    [apply insertJob_Permutation | now apply perm_skip].
Qed.

Lemma sortsBefore_finite (x y : PreloadJob) :
  finitePriority x -> finitePriority y ->
  (sortsBefore y x = true -> descending y x) /\
  (sortsBefore y x = false -> descending x y).
Proof.
  unfold finitePriority, sortsBefore, compareJobs, descending.
  destruct (priority x) as [| |a|], (priority y) as [| |b|];
    try discriminate. intros _ _. js_reduce.
  split; intro H; reflect_tests; apply Qle_bool_iff; lra.
Qed.

Lemma insertJob_Sorted (x : PreloadJob) (l : list PreloadJob) :
  finitePriority x -> Forall finitePriority l ->
  Sorted descending l -> Sorted descending (insertJob x l).
Proof.
  intros Hx Hl Hs. induction l as [|y l IH]; cbn [insertJob].
  - repeat constructor.
  - inversion Hl as [|? ? Hy Hl']; subst.
    inversion Hs as [|? ? Hs' Hhd]; subst.
    destruct (sortsBefore_finite x y Hx Hy) as [Hlt Hge].
    destruct (sortsBefore y x) eqn:E.
    + constructor; [now apply IH|].
      destruct l as [|z l']; cbn [insertJob].
      * constructor. now apply Hlt.
      * destruct (sortsBefore z x); constructor.
        -- now inversion Hhd.
        -- now apply Hlt.
    + constructor; [exact Hs|]. constructor. now apply Hge.
Qed.

Lemma sortJobs_Sorted (l : list PreloadJob) :
  Forall finitePriority l -> Sorted descending (sortJobs l).
Proof.
  induction l as [|x l IH]; intro Hl; cbn [sortJobs]; [constructor|].
  inversion Hl as [|? ? Hx Hl']; subst.
  apply insertJob_Sorted; [exact Hx | | now apply IH].
  apply (Permutation_Forall (Permutation_sym (sortJobs_Permutation l))).
  exact Hl'.
Qed.

Lemma planJobs_finitePriority (p : VideoPreloader) (a : PreloadArgs) :
  Forall finitePriority (planJobs p a).
Proof.
  apply Forall_forall. intros j Hj. apply planJobs_In in Hj.
  destruct Hj as (e & t & Hc).
  destruct (createdFor_finite _ _ _ _ _ Hc)
    as (q & c & lo & hi & k & _ & _ & _ & _ & _ & _ & _ & Hp & _).
  destruct (jobPriority_Fin c q) as (prio & Hprio & _).
  unfold finitePriority. now rewrite Hp, Hprio.
Qed.

(** The queue that [schedulePreload] hands to [processPreloadQueue] holds
    the jobs of the plan, highest priority first. *)
Lemma sorted_plan (p : VideoPreloader) (a : PreloadArgs) :
  Permutation (sortJobs (planJobs p a)) (planJobs p a) /\
  Sorted descending (sortJobs (planJobs p a)).
Proof.
  split; [apply sortJobs_Permutation|].
  apply sortJobs_Sorted, planJobs_finitePriority.
Qed.

(* ------------------------------------------------------------------ *)
(** ** Draining a plan larger than the limit *)
(* ------------------------------------------------------------------ *)

(** While [isPreloading] is set, [processPreloadQueue] returns at its
    guard. *)
Lemma processPreloadQueue_guarded (w : World) :
  isPreloading (self w) = true -> processPreloadQueue w = w.
Proof.
  intro H. unfold processPreloadQueue. now rewrite H.
Qed.

(** With [isPreloading] set and no callback pending or suspended, no
    event starts a job or clears the flag. *)
Lemma step_stalled (e : Event) (w w' : World) :
  isPreloading (self w) = true -> idle w = [] -> awaiting w = [] ->
  step e w = Some w' ->
  calls w' = calls w /\ isPreloading (self w') = true /\
  idle w' = [] /\ awaiting w' = [].
Proof.
  intros Hp Hi Ha Hstep. destruct e as [a|c| |i|i s]; cbn [step] in Hstep.
  - unfold schedulePreload in Hstep.
    rewrite processPreloadQueue_guarded in Hstep by exact Hp.
    inversion Hstep; subst w'. repeat split; assumption.
  - inversion Hstep; subst w'. cbn [with_self calls self idle awaiting].
    destruct (configure_fields c (self w)) as (_ & _ & _ & _ & Hflag).
    rewrite Hflag. repeat split; assumption.
  - inversion Hstep; subst w'. repeat split; assumption.
  - unfold runIdleCallback in Hstep. rewrite Hi in Hstep.
    destruct i; discriminate.
  - unfold settle in Hstep. rewrite Ha in Hstep. destruct i; discriminate.
Qed.

Lemma run_stalled (es : list Event) :
  forall w w',
    isPreloading (self w) = true -> idle w = [] -> awaiting w = [] ->
    run es w = Some w' ->
    calls w' = calls w /\ isPreloading (self w') = true /\
    idle w' = [] /\ awaiting w' = [].
Proof.
  induction es as [|e es IH]; intros w w' Hp Hi Ha Hrun; cbn [run] in Hrun.
  - inversion Hrun; subst. repeat split; assumption.
  - destruct (step e w) as [w1|] eqn:Es; [|discriminate].
    destruct (step_stalled _ _ _ Hp Hi Ha Es) as (Hc1 & Hp1 & Hi1 & Ha1).
    destruct (IH _ _ Hp1 Hi1 Ha1 Hrun) as (Hc2 & H2).
    split; [congruence | exact H2].
Qed.

(** The [finally] block while the flag is set and jobs are queued: the
    counter goes down and nothing else happens. *)
Lemma afterJob_guarded (w : World) :
  isPreloading (self w) = true -> preloadQueue (self w) <> [] ->
  afterJob w
  = (Normal,
     with_self (set_currentPreloads (currentPreloads (self w) - 1) (self w)) w).
Proof.
  intros Hp Hq. unfold afterJob.
  cbn [set_currentPreloads preloadQueue].
  destruct (preloadQueue (self w)) as [|j q] eqn:E; [congruence|].
  cbn [List.length Nat.eqb negb].
  rewrite processPreloadQueue_guarded; [|exact Hp].
  unfold set_currentPreloads. rewrite E. reflexivity.
Qed.

(** While the flag is set and jobs are queued, the callbacks of the
    browser start nothing new: each decode call uses up one of the
    callbacks already registered. *)
Lemma step_callback_guarded (e : Event) (w w' : World) :
  isPreloading (self w) = true -> preloadQueue (self w) <> [] ->
  callbackEvent e = true -> step e w = Some w' ->
  isPreloading (self w') = true /\
  preloadQueue (self w') = preloadQueue (self w) /\
  (List.length (calls w') + List.length (idle w')
   = List.length (calls w) + List.length (idle w))%nat.
Proof.
  intros Hp Hq He Hstep. destruct e as [a|c| |i|i s]; try discriminate;
    cbn [step] in Hstep.
  - unfold runIdleCallback in Hstep.
    destruct (removeAt i (idle w)) as [[job rest]|] eqn:E; [|discriminate].
    inversion Hstep; subst w'. cbn [self calls idle].
    rewrite (removeAt_length _ _ _ _ E), length_app. cbn [List.length].
    repeat split; try assumption. lia.
  - unfold settle in Hstep.
    destruct (removeAt i (awaiting w)) as [[job rest]|]; [|discriminate].
    unfold resumeCallback, tryCatchFinally in Hstep.
    destruct s as [|err]; cbn [awaitSettled warn] in Hstep;
      rewrite afterJob_guarded in Hstep by assumption;
      inversion Hstep; subst w'; repeat split; assumption.
Qed.

Lemma run_callbacks_guarded (es : list Event) :
  forall w w',
    isPreloading (self w) = true -> preloadQueue (self w) <> [] ->
    forallb callbackEvent es = true -> run es w = Some w' ->
    isPreloading (self w') = true /\
    preloadQueue (self w') = preloadQueue (self w) /\
    (List.length (calls w') + List.length (idle w')
     = List.length (calls w) + List.length (idle w))%nat.
Proof.
  induction es as [|e es IH]; intros w w' Hp Hq Hes Hrun; cbn [run] in Hrun.
  - inversion Hrun; subst. repeat split; assumption.
  - destruct (step e w) as [w1|] eqn:Es; [|discriminate].
    cbn [forallb] in Hes. apply andb_true_iff in Hes. destruct Hes as [He Hes].
    destruct (step_callback_guarded _ _ _ Hp Hq He Es) as (Hp1 & Hq1 & Hn1).
    assert (Hq1' : preloadQueue (self w1) <> []) by (rewrite Hq1; exact Hq).
    destruct (IH _ _ Hp1 Hq1' Hes Hrun) as (Hp2 & Hq2 & Hn2).
    repeat split; [exact Hp2 | congruence | lia].
Qed.

(** A first plan of more than two jobs on a fresh preloader: two jobs are
    handed to the browser, the others stay queued, the flag is set. *)
Lemma first_batch (a : PreloadArgs) :
  (2 < List.length (planJobs newPreloader a))%nat ->
  isPreloading (self (schedulePreload a newWorld)) = true /\
  preloadQueue (self (schedulePreload a newWorld)) <> [] /\
  List.length (idle (schedulePreload a newWorld)) = 2%nat /\
  calls (schedulePreload a newWorld) = [].
Proof.
  intro Hlen.
  assert (Hs : (2 < List.length (sortJobs (planJobs newPreloader a)))%nat).
  { now rewrite (Permutation_length (sortJobs_Permutation _)). }
  unfold schedulePreload, processPreloadQueue.
  cbn [with_self self set_queue newWorld newPreloader preloadQueue isPreloading
       app orb set_isPreloading maxConcurrentPreloads currentPreloads idle
       awaiting calls warnings].
  change (planJobs _ a) with (planJobs newPreloader a).
  destruct (sortJobs (planJobs newPreloader a)) as [|j1 [|j2 [|j3 q]]];
    cbn [List.length] in Hs; try lia.
  repeat split. discriminate.
Qed.

(** C2.  With the default limit of 2, a plan of more than two jobs is
    never drained.  The first two jobs are started; when a decode
    completes, the handler calls [processPreloadQueue] while [isPreloading]
    is still set, and the call returns at its guard.  So however the
    callbacks and completions interleave, at most two decode calls are
    made, jobs stay queued and the flag stays set.  On the plan of three
    jobs: the two best jobs are decoded, the third stays queued with
    nothing active, and from then on no event at all makes the scheduler
    call the frame cache again. *)
Theorem drain_stalls_after_first_batch :
  (forall (a : PreloadArgs) (es : list Event) (w' : World),
     (2 < List.length (planJobs newPreloader a))%nat ->
     forallb callbackEvent es = true ->
     run (SchedulePreload a :: es) newWorld = Some w' ->
     (List.length (calls w') <= 2)%nat /\
     (0 < queueLength (getStats (self w')))%nat /\
     stats_isPreloading (getStats (self w')) = true) /\
  run drainTrace newWorld = Some stalledWorld /\
  List.length (planJobs newPreloader threeJobArgs) = 3%nat /\
  calls stalledWorld = firstn 2 (sortJobs (planJobs newPreloader threeJobArgs)) /\
  queueLength (getStats (self stalledWorld)) = 1%nat /\
  activePreloads (getStats (self stalledWorld)) = 0%Z /\
  stats_isPreloading (getStats (self stalledWorld)) = true /\
  idle stalledWorld = [] /\ awaiting stalledWorld = [] /\
  forall es w',
    run es stalledWorld = Some w' ->
    calls w' = calls stalledWorld /\
    stats_isPreloading (getStats (self w')) = true.
Proof.
  split.
  - intros a es w' Hlen Hes Hrun. cbn [run step] in Hrun.
    destruct (first_batch a Hlen) as (Hp & Hq & Hi & Hc).
    destruct (run_callbacks_guarded es _ _ Hp Hq Hes Hrun) as (Hp' & Hq' & Hn).
    rewrite Hi, Hc in Hn. cbn [List.length] in Hn.
    split; [lia|]. split; [|exact Hp'].
    cbn [getStats queueLength]. rewrite Hq'.
    destruct (preloadQueue (self (schedulePreload a newWorld)));
      [congruence | simpl; lia].
  - repeat split.
    + destruct (run_stalled es stalledWorld w' eq_refl eq_refl eq_refl H)
        as (Hc & _). exact Hc.
    + destruct (run_stalled es stalledWorld w' eq_refl eq_refl eq_refl H)
        as (_ & Hp & _). exact Hp.
Qed.

(** A concrete instance: the plan of three jobs with both callbacks run
    and both decodes resolved; and, after the stall, a new plan of 144
    jobs for which not one decode is started. *)
Lemma drain_stalls_after_first_batch_witness :
  (List.length (calls stalledWorld) <= 2)%nat /\
  (0 < queueLength (getStats (self stalledWorld)))%nat /\
  calls (schedulePreload (argsAt10 None) stalledWorld) = calls stalledWorld.
Proof.
  destruct drain_stalls_after_first_batch
    as (Hgen & _ & _ & _ & _ & _ & _ & _ & _ & Hforever).
  destruct (Hgen threeJobArgs
              [IdleCallback 0; IdleCallback 0;
               FrameSettled 0 Resolved; FrameSettled 0 Resolved]
              stalledWorld (le_n 3) eq_refl eq_refl) as (Hcalls & Hqueue & _).
  split; [exact Hcalls|]. split; [exact Hqueue|].
  exact (proj1 (Hforever [SchedulePreload (argsAt10 None)] _ eq_refl)).
Defined.

(* ------------------------------------------------------------------ *)
(** ** Termination of the sampling loop *)
(* ------------------------------------------------------------------ *)

Lemma step_radiusClamped (e : Event) (w w' : World) :
  radiusClamped (self w) -> step e w = Some w' -> radiusClamped (self w').
Proof.
  unfold radiusClamped. intros Hr Hstep.
  destruct e as [a|c| |i|i s]; cbn [step] in Hstep.
  - inversion Hstep; subst w'. unfold schedulePreload.
    match goal with |- context [processPreloadQueue ?w0] =>
      destruct (processPreloadQueue_spec w0)
        as (st & _ & _ & _ & _ & _ & _ & _ & Hrad & _) end.
    rewrite Hrad. exact Hr.
  - inversion Hstep; subst w'. cbn [with_self self]. unfold configure.
    destruct (cfg_preloadRadius c) as [r|], (cfg_maxConcurrentPreloads c);
      cbn [set_maxConcurrentPreloads set_preloadRadius preloadRadius];
      try exact Hr;
      (destruct (NaN_or_not r) as [-> | Hn];
       [left; reflexivity
       | right; apply clamp_within; [discriminate | exact Hn]]).
  - inversion Hstep; subst w'. exact Hr.
  - unfold runIdleCallback in Hstep.
    destruct (removeAt i (idle w)) as [[job rest]|]; [|discriminate].
    inversion Hstep; subst w'. exact Hr.
  - unfold settle in Hstep.
    destruct (removeAt i (awaiting w)) as [[job rest]|]; [|discriminate].
    unfold resumeCallback, tryCatchFinally in Hstep.
    destruct s as [|err]; cbn [awaitSettled warn] in Hstep;
      match type of Hstep with context [afterJob ?w0] =>
        destruct (afterJob_spec w0)
          as (Hn & st & _ & _ & _ & _ & _ & _ & Hrad & _);
        destruct (afterJob w0) as [cpl w3]
      end;
      cbn [fst snd self] in Hn, Hrad; subst cpl;
      inversion Hstep; subst w3; rewrite Hrad; exact Hr.
Qed.

Lemma reachable_radiusClamped (w : World) :
  reachable w -> radiusClamped (self w).
Proof.
  intros [es Hrun].
  assert (H0 : radiusClamped (self newWorld))
    by (right; simpl; split; discriminate).
  revert H0 Hrun. generalize newWorld. 
  induction es as [|e es IH]; intros w0 H0 Hrun; cbn [run] in Hrun.
  - inversion Hrun; subst. exact H0.
  - destruct (step e w0) as [w1|] eqn:Es; [|discriminate].
    exact (IH _ (step_radiusClamped _ _ _ H0 Es) Hrun).
Qed.

(** With a clamped base radius the look-ahead radius is finite or NaN. *)
Lemma adjustedRadius_shape (p : VideoPreloader) (a : PreloadArgs) :
  radiusClamped p ->
  adjustedRadius p a = JS.NaN \/ exists x, adjustedRadius p a = JS.Fin x.
Proof.
  unfold radiusClamped, adjustedRadius. intros [Hr|Hr].
  - left. rewrite Hr. reflexivity.
  - destruct (preloadRadius p) as [| |b|]; simpl in Hr; try contradiction.
    destruct (speedOf a) as [| |v|]; js_reduce.
    + now left.
    + right. eexists. reflexivity.
    + right. destruct (Qle_bool (1 # 2) v) eqn:E; js_reduce.
      * destruct (Qeq_bool v 0) eqn:E0; reflect_tests; [lra|].
        eexists. reflexivity.
      * eexists. reflexivity.
    + right. eexists. reflexivity.
Qed.

(** In every reachable state the sampling loop of [schedulePreload] ends
    by its own test: either its bounds are finite, and then it has made
    all its turns after [sampleCount] of them, or the test fails at once.
    Fuel beyond [sampleCount] therefore changes nothing. *)
Lemma sampleLoop_terminates (w : World) (a : PreloadArgs) (e : MediaElement)
    (extra : nat) :
  reachable w ->
  let s := preloadStart (currentTime a) (adjustedRadius (self w) a) e in
  let en := preloadEnd (currentTime a) (adjustedRadius (self w) a) e in
  sampleLoop (sampleCount s en + extra) s en = sampleTimes s en.
Proof.
  intros Hw s en.
  assert (Hcases : (exists lo hi, s = JS.Fin lo /\ en = JS.Fin hi)
                   \/ JS.lt s en = false).
  { subst s en. unfold preloadStart, preloadEnd.
    destruct (adjustedRadius_shape (self w) a (reachable_radiusClamped w Hw))
      as [-> | [x ->]].
    - right. destruct (startTime e), (currentTime a); reflexivity.
    - destruct (startTime e) as [| |es|], (elementEnd e) as [| |ee|],
               (currentTime a) as [| |c|]; js_reduce; split_tests;
        first [ right; reflexivity | left; eexists; eexists; split; reflexivity ]. }
  destruct Hcases as [(lo & hi & -> & ->) | Hlt].
  - apply sampleLoop_exhausted.
  - unfold sampleTimes.
    destruct (sampleCount s en + extra)%nat; destruct (sampleCount s en);
      cbn [sampleLoop]; rewrite ?Hlt; reflexivity.
Qed.

(* ------------------------------------------------------------------ *)
(** ** Further invariants of the scheduler *)
(* ------------------------------------------------------------------ *)

(** A decode completion is the [finally] block run on the world without
    the suspended callback. *)
Lemma step_settled (i : nat) (s : Settlement) (w w' : World) :
  step (FrameSettled i s) w = Some w' ->
  exists job rest w0,
    removeAt i (awaiting w) = Some (job, rest) /\
    self w0 = self w /\ idle w0 = idle w /\ awaiting w0 = rest /\
    calls w0 = calls w /\ w' = snd (afterJob w0).
Proof.
  cbn [step]. unfold settle.
  destruct (removeAt i (awaiting w)) as [[job rest]|]; [|discriminate].
  unfold resumeCallback, tryCatchFinally.
  destruct s as [|err]; cbn [awaitSettled warn]; intro H.
  - exists job, rest,
      {| self := self w; idle := idle w; awaiting := rest; calls := calls w;
         warnings := warnings w |}.
    destruct (afterJob _) as [[|x] w3]; inversion H. repeat split.
  - exists job, rest,
      {| self := self w; idle := idle w; awaiting := rest; calls := calls w;
         warnings := warnings w ++ [(job, err)] |}.
    destruct (afterJob _) as [[|x] w3]; inversion H. repeat split.
Qed.

Lemma step_idle_run (i : nat) (w w' : World) :
  step (IdleCallback i) w = Some w' ->
  exists job rest,
    removeAt i (idle w) = Some (job, rest) /\
    self w' = self w /\ idle w' = rest /\ awaiting w' = awaiting w ++ [job] /\
    calls w' = calls w ++ [job].
Proof.
  cbn [step]. unfold runIdleCallback.
  destruct (removeAt i (idle w)) as [[job rest]|]; [|discriminate].
  intro H. inversion H. exists job, rest. repeat split.
Qed.

(** After [processPreloadQueue] a cleared flag means an idle counter,
    if it meant so before. *)
Lemma processPreloadQueue_flag (w : World) :
  (isPreloading (self w) = false -> currentPreloads (self w) = 0%Z) ->
  isPreloading (self (processPreloadQueue w)) = false ->
  currentPreloads (self (processPreloadQueue w)) = 0%Z.
Proof.
  unfold processPreloadQueue.
  destruct (isPreloading (self w)
            || Nat.eqb (List.length (preloadQueue (self w))) 0); [auto|].
  intros _.
  destruct (startJobs _ _ _) as [[st rm] c].
  cbn [self set_currentPreloads set_queue set_isPreloading currentPreloads].
  destruct (Z.eqb c 0) eqn:E; cbn [self isPreloading set_isPreloading
                                    currentPreloads].
  - intros _. now apply Z.eqb_eq.
  - discriminate.
Qed.

Lemma afterJob_flag (w : World) :
  isPreloading (self w) = true ->
  isPreloading (self (snd (afterJob w))) = false ->
  currentPreloads (self (snd (afterJob w))) = 0%Z.
Proof.
  intro Hp. unfold afterJob, set_currentPreloads.
  cbn [preloadQueue currentPreloads].
  destruct (negb (Nat.eqb (List.length (preloadQueue (self w))) 0)).
  - rewrite processPreloadQueue_guarded by exact Hp.
    cbn [snd with_self self isPreloading]. congruence.
  - destruct (Z.eqb (currentPreloads (self w) - 1) 0) eqn:E;
      cbn [snd with_self self isPreloading set_isPreloading currentPreloads].
    + intros _. now apply Z.eqb_eq.
    + congruence.
Qed.

(** The two invariants together: the counter counts the callbacks still
    to finish, and a cleared flag means that there are none. *)
Lemma step_counter_flag (e : Event) (w w' : World) :
  counterExact w ->
  (isPreloading (self w) = false -> currentPreloads (self w) = 0%Z) ->
  step e w = Some w' ->
  counterExact w' /\
  (isPreloading (self w') = false -> currentPreloads (self w') = 0%Z).
Proof.
  unfold counterExact. intros Hc Hf Hstep.
  destruct e as [a|c| |i|i s].
  - cbn [step] in Hstep. inversion Hstep; subst w'. clear Hstep.
    unfold schedulePreload.
    match goal with |- context [processPreloadQueue ?w0] =>
      pose proof (processPreloadQueue_flag w0) as Hflag;
      destruct (processPreloadQueue_spec w0)
        as (st & Hi & _ & Hc' & _ & Ha & _) end.
    cbn [with_self self idle awaiting set_queue isPreloading currentPreloads]
      in Hi, Hc', Ha, Hflag.
    split; [|exact (Hflag Hf)].
    rewrite Hc', Hi, Ha, length_app. lia.
  - cbn [step] in Hstep. inversion Hstep; subst w'.
    cbn [with_self self idle awaiting].
    destruct (configure_fields c (self w)) as (_ & _ & _ & Hcur & Hflag).
    rewrite Hcur, Hflag. split; assumption.
  - cbn [step] in Hstep. inversion Hstep; subst w'. split; assumption.
  - destruct (step_idle_run _ _ _ Hstep)
      as (job & rest & Hrm & Hs & Hi & Ha & _).
    rewrite Hs, Hi, Ha, length_app. cbn [List.length].
    pose proof (removeAt_length _ _ _ _ Hrm) as Hlen.
    split; [lia | exact Hf].
  - destruct (step_settled _ _ _ _ Hstep)
      as (job & rest & w0 & Hrm & Hs & Hi & Ha & _ & Hw').
    pose proof (removeAt_length _ _ _ _ Hrm) as Hlen.
    destruct (afterJob_spec w0) as (_ & st & Hi' & _ & Hc' & Ha' & _).
    assert (Hp : isPreloading (self w0) = true).
    { rewrite Hs. destruct (isPreloading (self w)); [reflexivity|].
      specialize (Hf eq_refl). lia. }
    pose proof (afterJob_flag w0 Hp) as Hflag.
    subst w'. split; [|exact Hflag].
    rewrite Hc', Hi', Ha', Hs, Hi, Ha, length_app. lia.
Qed.

Lemma reachable_counter_flag (w : World) :
  reachable w ->
  counterExact w /\
  (isPreloading (self w) = false -> currentPreloads (self w) = 0%Z).
Proof.
  intros [es Hrun].
  assert (H0 : counterExact newWorld /\
               (isPreloading (self newWorld) = false ->
                currentPreloads (self newWorld) = 0%Z))
    by (split; reflexivity).
  revert H0 Hrun. generalize newWorld.
  induction es as [|e es IH]; intros w0 H0 Hrun; cbn [run] in Hrun.
  - inversion Hrun; subst. exact H0.
  - destruct (step e w0) as [w1|] eqn:Es; [|discriminate].
    destruct H0 as [Hc Hf].
    exact (IH _ (step_counter_flag _ _ _ Hc Hf Es) Hrun).
Qed.

(** X1. In every reachable state the active counter reported by
    [getStats] is the number of idle callbacks registered and not yet
    finished (waiting to run, or suspended in their decode); so it is
    never negative. *)
Theorem active_counts_callbacks (w : World) :
  reachable w ->
  activePreloads (getStats (self w))
  = Z.of_nat (List.length (idle w) + List.length (awaiting w)) /\
  (0 <= activePreloads (getStats (self w)))%Z.
Proof.
  intro Hw. destruct (reachable_counter_flag w Hw) as [Hc _].
  unfold counterExact in Hc. cbn [getStats activePreloads].
  split; [exact Hc | lia].
Qed.

(** X2. In every reachable state in which [isPreloading] is false, no
    preload job is active and no callback is pending. *)
Theorem idle_flag_means_idle (w : World) :
  reachable w ->
  stats_isPreloading (getStats (self w)) = false ->
  activePreloads (getStats (self w)) = 0%Z /\
  idle w = [] /\ awaiting w = [].
Proof.
  intros Hw Hflag. destruct (reachable_counter_flag w Hw) as [Hc Hf].
  cbn [getStats activePreloads stats_isPreloading] in *.
  specialize (Hf Hflag). unfold counterExact in Hc. rewrite Hf in Hc.
  split; [exact Hf|].
  destruct (idle w), (awaiting w); cbn [List.length] in Hc;
    try lia; split; reflexivity.
Qed.

(** X3. When the queue is empty and the only callback left is suspended
    in its decode, the completion of that decode, resolved or rejected,
    returns the scheduler to rest: the flag is cleared and the counter is
    zero. *)
Theorem last_completion_clears_flag (w : World) (job : PreloadJob)
    (s : Settlement) :
  reachable w ->
  preloadQueue (self w) = [] -> idle w = [] -> awaiting w = [job] ->
  exists w',
    step (FrameSettled 0 s) w = Some w' /\
    stats_isPreloading (getStats (self w')) = false /\
    activePreloads (getStats (self w')) = 0%Z /\
    queueLength (getStats (self w')) = 0%nat /\
    idle w' = [] /\ awaiting w' = [].
Proof.
  intros Hw Hq Hi Ha. destruct (reachable_counter_flag w Hw) as [Hc _].
  unfold counterExact in Hc. rewrite Hi, Ha in Hc. cbn in Hc.
  cbn [step]. unfold settle. rewrite Ha. cbn [removeAt].
  unfold resumeCallback, tryCatchFinally, afterJob.
  destruct s as [|err]; cbn [awaitSettled warn self with_self
                             set_currentPreloads preloadQueue currentPreloads];
    rewrite Hq, Hc, Hi; cbn; eexists; repeat split;
    cbn [with_self self set_isPreloading set_currentPreloads preloadQueue];
    now rewrite Hq.
Qed.

(** A concrete instance: three jobs scheduled, the first callback
    suspended in its decode, the second waiting to run. *)
Lemma active_counts_callbacks_witness :
  activePreloads (getStats (self decodingWorld))
  = Z.of_nat (List.length (idle decodingWorld)
              + List.length (awaiting decodingWorld)) /\
  (0 <= activePreloads (getStats (self decodingWorld)))%Z.
Proof.
  apply active_counts_callbacks.
  exists [SchedulePreload threeJobArgs; IdleCallback 0]. reflexivity.
Defined.

(** A concrete instance: a cleared plan whose two started jobs have
    completed. *)
Lemma idle_flag_means_idle_witness :
  activePreloads (getStats (self restingWorld)) = 0%Z /\
  idle restingWorld = [] /\ awaiting restingWorld = [].
Proof.
  apply idle_flag_means_idle; [|reflexivity].
  exists [SchedulePreload threeJobArgs; ClearQueue;
          IdleCallback 0; IdleCallback 0; FrameSettled 0 Resolved;
          FrameSettled 0 Resolved].
  reflexivity.
Defined.

(** A concrete instance: the second of two started jobs fails after the
    queue was cleared. *)
Lemma last_completion_clears_flag_witness :
  exists w',
    step (FrameSettled 0 (Rejected "decode failed")) recoveringWorld = Some w' /\
    stats_isPreloading (getStats (self w')) = false /\
    activePreloads (getStats (self w')) = 0%Z /\
    queueLength (getStats (self w')) = 0%nat /\
    idle w' = [] /\ awaiting w' = [].
Proof.
  apply (last_completion_clears_flag recoveringWorld
           (mkJob "clip" "clip.mp4"%string (JS.Fin (10 + (1 # 24) + - 10 + 0))
              (JS.Fin (100 + - (Qabs (10 + (1 # 24) + - 10) * 10))))).
  - exists [SchedulePreload threeJobArgs; ClearQueue;
            IdleCallback 0; IdleCallback 0; FrameSettled 0 Resolved].
    reflexivity.
  - reflexivity.
  - reflexivity.
  - reflexivity.
Defined.

(* ------------------------------------------------------------------ *)
(** ** Order of the queue *)
(* ------------------------------------------------------------------ *)

Lemma Sorted_app_r {A : Type} (R : A -> A -> Prop) (l1 l2 : list A) :
  Sorted R (l1 ++ l2) -> Sorted R l2.
Proof.
  induction l1 as [|x l1 IH]; cbn [app]; [auto|].
  intro H. inversion H; subst. auto.
Qed.

Lemma jobPriority_within (c q : Q) :
  JS.within 0 100 (jobPriority (JS.Fin c) (JS.Fin q)).
Proof.
  unfold jobPriority. js_reduce.
  pose proof (Qabs_nonneg (q + - c)) as Habs.
  destruct (Qle_bool 0 (100 + - (Qabs (q + - c) * 10))) eqn:E;
    reflect_tests; cbn [JS.within]; split; lra.
Qed.

Lemma planJobs_within (p : VideoPreloader) (a : PreloadArgs) :
  Forall (fun j => JS.within 0 100 (priority j)) (planJobs p a).
Proof.
  apply Forall_forall. intros j Hj. apply planJobs_In in Hj.
  destruct Hj as (e & t & Hc).
  destruct (createdFor_finite _ _ _ _ _ Hc)
    as (q & c & lo & hi & k & _ & _ & _ & _ & _ & _ & _ & Hp & _).
  rewrite Hp. apply jobPriority_within.
Qed.

Lemma queueOrdered_suffix (started q : list PreloadJob) :
  Sorted descending (started ++ q) ->
  Forall (fun j => JS.within 0 100 (priority j)) (started ++ q) ->
  Sorted descending q /\ Forall (fun j => JS.within 0 100 (priority j)) q.
Proof.
  intros Hs Hf. split; [exact (Sorted_app_r _ _ _ Hs)|].
  apply Forall_app in Hf. tauto.
Qed.

Lemma step_queueOrdered (e : Event) (w w' : World) :
  queueOrdered w -> step e w = Some w' -> queueOrdered w'.
Proof.
  unfold queueOrdered. intros [Hs Hf] Hstep.
  destruct e as [a|c| |i|i s].
  - cbn [step] in Hstep. inversion Hstep; subst w'. clear Hstep.
    unfold schedulePreload.
    match goal with |- context [processPreloadQueue ?w0] =>
      destruct (processPreloadQueue_spec w0) as (st & _ & Hq & _) end.
    apply (queueOrdered_suffix st); rewrite <- Hq;
      cbn [with_self self set_queue preloadQueue app].
    + apply sortJobs_Sorted, planJobs_finitePriority.
    + apply (Permutation_Forall (Permutation_sym (sortJobs_Permutation _))).
      apply planJobs_within.
  - cbn [step] in Hstep. inversion Hstep; subst w'. cbn [with_self self].
    destruct (configure_fields c (self w)) as (_ & _ & Hq & _).
    rewrite Hq. split; assumption.
  - cbn [step] in Hstep. inversion Hstep; subst w'.
    split; [constructor | constructor].
  - destruct (step_idle_run _ _ _ Hstep) as (job & rest & _ & Hself & _).
    rewrite Hself. split; assumption.
  - destruct (step_settled _ _ _ _ Hstep)
      as (job & rest & w0 & _ & Hself & _ & _ & _ & Hw').
    destruct (afterJob_spec w0) as (_ & st & _ & Hq & _).
    subst w'. rewrite Hself in Hq.
    apply (queueOrdered_suffix st); rewrite <- Hq; assumption.
Qed.

(** X4. In every reachable state the pending queue is sorted by priority,
    highest first, and every queued priority lies in [[0, 100]]. *)
Theorem queue_always_sorted (w : World) :
  reachable w ->
  Sorted descending (preloadQueue (self w)) /\
  Forall (fun j => JS.within 0 100 (priority j)) (preloadQueue (self w)).
Proof.
  intros [es Hrun].
  assert (H0 : queueOrdered newWorld) by (split; constructor).
  revert H0 Hrun. generalize newWorld.
  induction es as [|e es IH]; intros w0 H0 Hrun; cbn [run] in Hrun.
  - inversion Hrun; subst. exact H0.
  - destruct (step e w0) as [w1|] eqn:Es; [|discriminate].
    exact (IH _ (step_queueOrdered _ _ _ H0 Es) Hrun).
Qed.

(** A concrete instance: three jobs scheduled, one queued. *)
Lemma queue_always_sorted_witness :
  Sorted descending (preloadQueue (self decodingWorld)) /\
  Forall (fun j => JS.within 0 100 (priority j))
         (preloadQueue (self decodingWorld)).
Proof.
  apply queue_always_sorted.
  exists [SchedulePreload threeJobArgs; IdleCallback 0]. reflexivity.
Defined.

Lemma hasPriority_exclusive (v : Q) (x y : PreloadJob) :
  finitePriority x -> finitePriority y ->
  sortsBefore y x = true ->
  hasPriority v x = true -> hasPriority v y = true -> False.
Proof.
  unfold finitePriority, sortsBefore, compareJobs, hasPriority.
  destruct (priority x) as [| |a|], (priority y) as [| |b|];
    try discriminate. intros _ _. js_reduce.
  intros H Hx Hy. reflect_tests. lra.
Qed.

Lemma insertJob_stable (v : Q) (x : PreloadJob) (l : list PreloadJob) :
  finitePriority x -> Forall finitePriority l ->
  filter (hasPriority v) (insertJob x l) = filter (hasPriority v) (x :: l).
Proof.
  intros Hx Hl. induction l as [|y l IH]; [reflexivity|].
  inversion Hl as [|? ? Hy Hl']; subst.
  cbn [insertJob]. destruct (sortsBefore y x) eqn:E; [|reflexivity].
  cbn [filter]. rewrite (IH Hl'). cbn [filter].
  destruct (hasPriority v x) eqn:Ex, (hasPriority v y) eqn:Ey;
    try reflexivity.
  exfalso. exact (hasPriority_exclusive v x y Hx Hy E Ex Ey).
Qed.

Lemma sortJobs_stable (v : Q) (l : list PreloadJob) :
  Forall finitePriority l ->
  filter (hasPriority v) (sortJobs l) = filter (hasPriority v) l.
Proof.
  induction l as [|x l IH]; intro Hl; [reflexivity|].
  inversion Hl as [|? ? Hx Hl']; subst.
  cbn [sortJobs]. rewrite insertJob_stable.
  - cbn [filter]. now rewrite IH.
  - exact Hx.
  - apply (Permutation_Forall (Permutation_sym (sortJobs_Permutation l))).
    exact Hl'.
Qed.

(** X5. After [schedulePreload], the jobs handed to idle callbacks
    followed by the jobs left in the queue are the jobs of the plan, each
    exactly once, in order of non-increasing priority; jobs of equal
    priority keep the order in which the loops created them. *)
Theorem scheduled_jobs_sorted_stably (a : PreloadArgs) (w : World) :
  exists started,
    idle (schedulePreload a w) = idle w ++ started /\
    Permutation (started ++ preloadQueue (self (schedulePreload a w)))
                (planJobs (self w) a) /\
    Sorted descending (started ++ preloadQueue (self (schedulePreload a w))) /\
    forall v : Q,
      filter (hasPriority v)
             (started ++ preloadQueue (self (schedulePreload a w)))
      = filter (hasPriority v) (planJobs (self w) a).
Proof.
  unfold schedulePreload.
  match goal with |- context [processPreloadQueue ?w0] =>
    destruct (processPreloadQueue_spec w0) as (st & Hi & Hq & _) end.
  exists st. split; [exact Hi|]. rewrite <- Hq.
  cbn [with_self self set_queue preloadQueue app].
  change (planJobs (set_queue [] (self w)) a) with (planJobs (self w) a).
  split; [apply sortJobs_Permutation|].
  split; [apply sortJobs_Sorted, planJobs_finitePriority|].
  intro v. apply sortJobs_stable, planJobs_finitePriority.
Qed.

(* ------------------------------------------------------------------ *)
(** ** Jobs of one element *)
(* ------------------------------------------------------------------ *)

(** X7. For an element that passes the guard of the job loop with a
    finite sampling window [[lo, hi)], the loop creates no job when the
    window is empty ([hi <= lo]), and at least one otherwise, the first
    of them sampled at [lo]. *)
Theorem jobs_per_element (ct r : JS.number) (files : list MediaFile)
    (e : MediaElement) (item : MediaFile) (f : File) (lo hi : Q) :
  findMedia files (el_mediaId e) = Some item ->
  media_type item = VideoMedia ->
  media_file item = Some f ->
  preloadStart ct r e = JS.Fin lo ->
  preloadEnd ct r e = JS.Fin hi ->
  (hi <= lo -> jobsForElement ct r files e = []) /\
  (lo < hi ->
   exists rest,
     jobsForElement ct r files e = makeJob ct e item f (JS.Fin lo) :: rest).
Proof.
  intros Hf Hv Hfile Hlo Hhi. unfold jobsForElement.
  rewrite Hf, Hv, Hfile, Hlo, Hhi. cbn [is_video negb].
  unfold sampleTimes, sampleCount. split.
  - intro Hle.
    destruct (Z.to_nat (Qceiling ((hi - lo) * 24))); [reflexivity|].
    cbn [sampleLoop]. rewrite (proj2 (lt_Fin_false lo hi) Hle). reflexivity.
  - intro Hlt.
    pose proof (Qle_ceiling ((hi - lo) * 24)) as Hc.
    assert (Hz : (0 < Qceiling ((hi - lo) * 24))%Z).
    { rewrite Zlt_Qlt. change (inject_Z 0) with 0. lra. }
    destruct (Z.to_nat (Qceiling ((hi - lo) * 24))) eqn:E; [lia|].
    cbn [sampleLoop]. rewrite (proj2 (lt_Fin lo hi) Hlt). cbn [map].
    eexists. reflexivity.
Qed.

(** A concrete instance: the short clip at the playhead, whose window
    starts at 10 s. *)
Lemma jobs_per_element_witness :
  exists rest,
    jobsForElement (JS.Fin 10) (JS.Fin 3) [clipFile] shortClip
    = makeJob (JS.Fin 10) shortClip clipFile "clip.mp4"%string (JS.Fin 10)
      :: rest.
Proof.
  apply (proj2 (jobs_per_element (JS.Fin 10) (JS.Fin 3) [clipFile] shortClip
                  clipFile "clip.mp4"%string 10 (10 + (1 # 8) + - 0 + - 0)
                  eq_refl eq_refl eq_refl eq_refl eq_refl)).
  reflexivity.
Defined.

(* ------------------------------------------------------------------ *)
(** ** Decode targets and degenerate plans *)
(* ------------------------------------------------------------------ *)

(** X8. No job asks for a frame in the part of the source trimmed off the
    start: the [targetTime] of every created job is at least the
    [trimStart] of its element, whatever numbers the element holds. *)
Theorem targetTime_not_before_trimStart (p : VideoPreloader)
    (a : PreloadArgs) (e : MediaElement) (t : JS.number) (j : PreloadJob) :
  createdFor p a e t j ->
  JS.le (trimStart e) (targetTime j) = true.
Proof.
  intro Hc.
  destruct (createdFor_finite _ _ _ _ _ Hc)
    as (q & c & lo & hi & k & Ht & _ & Hlo & Hhi & _ & Hle & Hlt & _ & Htt).
  unfold preloadStart in Hlo. unfold preloadEnd in Hhi.
  destruct (max_Fin_inv _ _ _ Hlo) as [Hs1 _].
  destruct (min_Fin_inv _ _ _ Hhi) as [He1 _].
  rewrite Htt. unfold elementEnd in He1. unfold localTime. subst t.
  destruct (startTime e) as [| |s|], (duration e) as [| |d|],
           (trimStart e) as [| |ts|], (trimEnd e) as [| |te|];
    cbn [JS.le JS.sub JS.add JS.neg] in *;
    try discriminate; try reflexivity;
    reflect_tests; apply Qle_bool_iff; lra.
Qed.

(** A concrete instance: the first job of the long clip, sampled 3 s
    before the playhead. *)
Lemma targetTime_not_before_trimStart_witness :
  JS.le (trimStart longClip)
        (targetTime (makeJob (JS.Fin 10) longClip clipFile "clip.mp4"%string
                             (JS.Fin (10 + - (3 / 1))))) = true.
Proof.
  apply (targetTime_not_before_trimStart newPreloader (argsAt10 None) longClip
           (JS.Fin (10 + - (3 / 1)))).
  split.
  - apply findRelevantVideoElements_In.
    exists (mkTrack MediaTrack false [longClip]).
    repeat split; try (now left).
    exists clipFile. split; reflexivity.
  - exists clipFile, "clip.mp4"%string.
    repeat split.
    replace (sampleTimes _ _)
      with (sampleLoop 144 (JS.Fin (10 + - (3 / 1)))
                       (JS.Fin (10 + 3 / 1))) by reflexivity.
    left. reflexivity.
Defined.

Lemma no_created_job_nil (l : list PreloadJob) :
  (forall j, In j l -> False) -> l = [].
Proof.
  destruct l as [|j l]; [reflexivity|].
  intro H. exfalso. apply (H j). now left.
Qed.

(** A plan is empty when there is nothing to plan with. *)
Lemma planJobs_degenerate (p : VideoPreloader) (a : PreloadArgs) :
  tracks a = [] \/ mediaFiles a = [] \/
  JS.is_finite (currentTime a) = false \/
  preloadRadius p = JS.NaN \/ speedOf a = JS.NaN ->
  planJobs p a = [].
Proof.
  intro H. apply no_created_job_nil. intros j Hj.
  apply planJobs_In in Hj. destruct Hj as (e & t & Hc).
  destruct (createdFor_finite _ _ _ _ _ Hc)
    as (q & c & lo & hi & k & _ & Hct & Hlo & _).
  destruct Hc as (Hrel & item & f & Hf & _).
  destruct H as [H | [H | [H | [H | H]]]].
  - rewrite H in Hrel. exact Hrel.
  - rewrite H in Hf. discriminate.
  - rewrite Hct in H. discriminate.
  - unfold preloadStart, adjustedRadius in Hlo. rewrite H in Hlo.
    cbn [JS.div] in Hlo.
    destruct (startTime e), (currentTime a); discriminate.
  - unfold preloadStart, adjustedRadius in Hlo. rewrite H in Hlo.
    destruct (preloadRadius p), (startTime e), (currentTime a); discriminate.
Qed.

(** X9. [schedulePreload] plans nothing, and so starts nothing and
    leaves the queue empty, when the timeline has no track, the registry
    no media file, the current time is NaN or infinite, the playback
    speed is NaN, or the base radius is NaN (as after
    [configure({preloadRadius: NaN})]). *)
Theorem nothing_to_preload (a : PreloadArgs) (w : World) :
  tracks a = [] \/ mediaFiles a = [] \/
  JS.is_finite (currentTime a) = false \/
  preloadRadius (self w) = JS.NaN \/ speedOf a = JS.NaN ->
  planJobs (self w) a = [] /\
  queueLength (getStats (self (schedulePreload a w))) = 0%nat /\
  idle (schedulePreload a w) = idle w /\
  calls (schedulePreload a w) = calls w /\
  activePreloads (getStats (self (schedulePreload a w)))
    = activePreloads (getStats (self w)) /\
  stats_isPreloading (getStats (self (schedulePreload a w)))
    = stats_isPreloading (getStats (self w)).
Proof.
  intro H. pose proof (planJobs_degenerate (self w) a H) as Hplan.
  split; [exact Hplan|].
  unfold schedulePreload, processPreloadQueue.
  cbn [with_self self set_queue preloadQueue app isPreloading].
  change (planJobs (set_queue [] (self w)) a) with (planJobs (self w) a).
  rewrite Hplan. cbn [sortJobs List.length Nat.eqb].
  rewrite orb_true_r. repeat split.
Qed.

(** A concrete instance: a playhead at NaN. *)
Lemma nothing_to_preload_witness :
  planJobs (self decodingWorld)
           (mkArgs JS.NaN longTimeline [clipFile] None) = [] /\
  idle (schedulePreload (mkArgs JS.NaN longTimeline [clipFile] None)
                        decodingWorld) = idle decodingWorld.
Proof.
  destruct (nothing_to_preload (mkArgs JS.NaN longTimeline [clipFile] None)
              decodingWorld (or_intror (or_intror (or_introl eq_refl))))
    as (Hplan & _ & Hidle & _).
  split; [exact Hplan | exact Hidle].
Defined.

Lemma startJobs_NaN (queue : list PreloadJob) (c : Z) :
  startJobs JS.NaN c queue = ([], queue, c).
Proof. destruct queue; reflexivity. Qed.

(** X10. While [maxConcurrentPreloads] is NaN (as after
    [configure({maxConcurrentPreloads: NaN})]), [schedulePreload] queues
    the whole sorted plan and starts none of it. *)
Theorem NaN_limit_starts_nothing (a : PreloadArgs) (w : World) :
  maxConcurrentPreloads (self w) = JS.NaN ->
  idle (schedulePreload a w) = idle w /\
  calls (schedulePreload a w) = calls w /\
  preloadQueue (self (schedulePreload a w)) = sortJobs (planJobs (self w) a) /\
  activePreloads (getStats (self (schedulePreload a w)))
    = activePreloads (getStats (self w)).
Proof.
  intro Hm. unfold schedulePreload, processPreloadQueue.
  cbn [with_self self set_queue preloadQueue app isPreloading
       set_isPreloading maxConcurrentPreloads currentPreloads].
  change (planJobs (set_queue [] (self w)) a) with (planJobs (self w) a).
  destruct (isPreloading (self w)
            || Nat.eqb (List.length (sortJobs (planJobs (self w) a))) 0).
  - repeat split.
  - rewrite Hm, startJobs_NaN.
    cbn [set_currentPreloads set_queue currentPreloads].
    destruct (Z.eqb (currentPreloads (self w)) 0);
      cbn [self idle calls]; rewrite app_nil_r; repeat split.
Qed.

(** A concrete instance: the limit set to NaN on a fresh preloader. *)
Lemma NaN_limit_starts_nothing_witness :
  idle (schedulePreload threeJobArgs
          (with_self (configure (mkConfig None (Some JS.NaN)) newPreloader)
                     newWorld)) = [].
Proof.
  exact (proj1 (NaN_limit_starts_nothing threeJobArgs
                  (with_self (configure (mkConfig None (Some JS.NaN))
                                        newPreloader) newWorld) eq_refl)).
Defined.

(* ------------------------------------------------------------------ *)
(** ** The size of a batch *)
(* ------------------------------------------------------------------ *)

Lemma startJobs_same (m m' : JS.number) (queue : list PreloadJob) :
  JS.same m m' ->
  forall c, startJobs m c queue = startJobs m' c queue.
Proof.
  intro H. induction queue as [|job rest IH]; intro c; [reflexivity|].
  cbn [startJobs]. rewrite IH.
  replace (JS.lt (JS.of_Z c) m') with (JS.lt (JS.of_Z c) m); [reflexivity|].
  destruct m as [| |q|], m' as [| |q'|]; simpl in H; try contradiction;
    try reflexivity.
  now apply lt_same_r.
Qed.

(** With an integer limit [z] the loop starts the first [z - current]
    jobs of the queue, or all of them if there are fewer. *)
Lemma startJobs_firstn (z : Z) (queue : list PreloadJob) :
  forall c,
    startJobs (JS.of_Z z) c queue
    = (firstn (Z.to_nat (z - c)) queue, skipn (Z.to_nat (z - c)) queue,
       (c + Z.of_nat (List.length (firstn (Z.to_nat (z - c)) queue)))%Z).
Proof.
  induction queue as [|job rest IH]; intro c.
  - cbn [startJobs]. rewrite firstn_nil, skipn_nil. cbn [List.length].
    now rewrite Z.add_0_r.
  - cbn [startJobs]. unfold JS.of_Z at 1 2.
    destruct (JS.lt (JS.Fin (inject_Z c)) (JS.Fin (inject_Z z))) eqn:E.
    + apply lt_Fin in E. rewrite <- Zlt_Qlt in E.
      rewrite IH.
      replace (Z.to_nat (z - c)) with (S (Z.to_nat (z - (c + 1)))) by lia.
      cbn [firstn skipn List.length]. f_equal. lia.
    + apply lt_Fin_false in E. rewrite <- Zle_Qle in E.
      replace (Z.to_nat (z - c)) with 0%nat by lia.
      cbn [firstn skipn List.length]. now rewrite Z.add_0_r.
Qed.

(** X12. When [isPreloading] is false and the limit is an integer [z],
    [schedulePreload] hands the first [z - currentPreloads] jobs of the
    sorted plan to idle callbacks (all of them if the plan is shorter) and
    queues the others. *)
Theorem first_batch_size (a : PreloadArgs) (w : World) (z : Z) :
  isPreloading (self w) = false ->
  JS.same (maxConcurrentPreloads (self w)) (JS.of_Z z) ->
  idle (schedulePreload a w)
  = idle w ++ firstn (Z.to_nat (z - currentPreloads (self w)))
                     (sortJobs (planJobs (self w) a)) /\
  preloadQueue (self (schedulePreload a w))
  = skipn (Z.to_nat (z - currentPreloads (self w)))
          (sortJobs (planJobs (self w) a)).
Proof.
  intros Hp Hz. unfold schedulePreload, processPreloadQueue.
  cbn [with_self self set_queue preloadQueue app isPreloading
       set_isPreloading maxConcurrentPreloads currentPreloads idle].
  change (planJobs (set_queue [] (self w)) a) with (planJobs (self w) a).
  rewrite Hp. cbn [orb].
  destruct (sortJobs (planJobs (self w) a)) as [|j q] eqn:Es.
  - cbn [List.length Nat.eqb]. rewrite firstn_nil, skipn_nil, app_nil_r.
    split; reflexivity.
  - cbn [List.length Nat.eqb].
    rewrite (startJobs_same _ _ _ Hz), startJobs_firstn.
    cbn [set_currentPreloads set_queue currentPreloads].
    destruct (Z.eqb _ 0); split; reflexivity.
Qed.

(** A concrete instance: the default limit of 2 and a plan of three
    jobs. *)
Lemma first_batch_size_witness :
  idle (schedulePreload threeJobArgs newWorld)
  = firstn 2 (sortJobs (planJobs newPreloader threeJobArgs)) /\
  preloadQueue (self (schedulePreload threeJobArgs newWorld))
  = skipn 2 (sortJobs (planJobs newPreloader threeJobArgs)).
Proof.
  exact (first_batch_size threeJobArgs newWorld 2 eq_refl (Qeq_refl 2)).
Defined.

(** X13. Calling [processPreloadQueue] a second time right after the
    first changes nothing, in any state whose counter is not negative. *)
Theorem processPreloadQueue_idempotent (w : World) :
  (0 <= currentPreloads (self w))%Z ->
  self (processPreloadQueue (processPreloadQueue w))
  = self (processPreloadQueue w) /\
  idle (processPreloadQueue (processPreloadQueue w))
  = idle (processPreloadQueue w).
Proof.
  destruct w as [[q flag r m c] i aw cl wr].
  cbn [self currentPreloads]. intro Hc.
  destruct flag.
  - rewrite !processPreloadQueue_guarded by reflexivity. split; reflexivity.
  - destruct q as [|j q].
    + assert (H : forall x, x = mkWorld (mkPreloader [] false r m c) i aw cl wr ->
                            processPreloadQueue x = x)
        by (intros x ->; reflexivity).
      rewrite !(H _ eq_refl). split; reflexivity.
    + destruct (startJobs m c (j :: q)) as [[st rm] c'] eqn:Es.
      destruct (startJobs_spec _ _ _ _ _ _ Es) as (Hq & Hcur & _).
      assert (H1 : processPreloadQueue
                     (mkWorld (mkPreloader (j :: q) false r m c) i aw cl wr)
                   = mkWorld
                       (if Z.eqb c' 0
                        then mkPreloader rm false r m c'
                        else mkPreloader rm true r m c')
                       (i ++ st) aw cl wr).
      { unfold processPreloadQueue.
        cbn [self isPreloading preloadQueue orb List.length Nat.eqb
             set_isPreloading maxConcurrentPreloads currentPreloads idle
             awaiting calls warnings].
        rewrite Es. cbn [set_currentPreloads set_queue currentPreloads
                         preloadQueue isPreloading preloadRadius
                         maxConcurrentPreloads].
        destruct (Z.eqb c' 0); reflexivity. }
      rewrite H1. destruct (Z.eqb c' 0) eqn:Ec.
      * apply Z.eqb_eq in Ec.
        assert (Hst : st = [])
          by (destruct st; [reflexivity | simpl in Hcur; lia]).
        subst st. cbn [app List.length] in Hq, Hcur.
        assert (c = 0%Z) by lia. subst c c' rm.
        change (0 + Z.of_nat 0)%Z with 0%Z in *.
        unfold processPreloadQueue.
        cbn [self isPreloading preloadQueue orb List.length Nat.eqb
             set_isPreloading maxConcurrentPreloads currentPreloads idle
             awaiting calls warnings].
        rewrite Es. cbn [set_currentPreloads set_queue currentPreloads
                         preloadQueue isPreloading preloadRadius
                         maxConcurrentPreloads Z.eqb self idle].
        rewrite !app_nil_r. split; reflexivity.
      * rewrite processPreloadQueue_guarded by reflexivity.
        split; reflexivity.
Qed.

(** A concrete instance: the first batch of a plan of three jobs. *)
Lemma processPreloadQueue_idempotent_witness :
  self (processPreloadQueue (processPreloadQueue decodingWorld))
  = self (processPreloadQueue decodingWorld) /\
  idle (processPreloadQueue (processPreloadQueue decodingWorld))
  = idle (processPreloadQueue decodingWorld).
Proof.
  apply processPreloadQueue_idempotent. vm_compute. discriminate.
Defined.

(* ------------------------------------------------------------------ *)
(** ** The frame rate window *)
(* ------------------------------------------------------------------ *)

Lemma history_trim {A : Type} (h : list A) (x : A) :
  (List.length h <= 10)%nat ->
  (if Nat.ltb 10 (List.length (h ++ [x])) then tl (h ++ [x]) else h ++ [x])
  = lastn 10 (h ++ [x]).
Proof.
  intro H. unfold lastn. rewrite length_app. cbn [List.length].
  destruct (Nat.ltb_spec 10 (List.length h + 1)) as [Hlt|Hge].
  - replace (List.length h + 1 - 10)%nat with 1%nat by lia.
    destruct (h ++ [x]); reflexivity.
  - replace (List.length h + 1 - 10)%nat with 0%nat by lia. reflexivity.
Qed.

Lemma lastn_length {A : Type} (n : nat) (l : list A) :
  (List.length (lastn n l) <= n)%nat.
Proof. unfold lastn. rewrite length_skipn. lia. Qed.

Lemma lastn_snoc {A : Type} (n : nat) (l : list A) (x : A) :
  lastn n (lastn n l ++ [x]) = lastn n (l ++ [x]).
Proof.
  unfold lastn.
  assert (H : skipn (List.length l - n) l ++ [x]
              = skipn (List.length l - n) (l ++ [x])).
  { rewrite skipn_app.
    replace (List.length l - n - List.length l)%nat with 0%nat by lia.
    reflexivity. }
  rewrite H, skipn_skipn. f_equal.
  rewrite !length_skipn, !length_app. cbn [List.length]. lia.
Qed.

Lemma feedFrameRates_snoc (samples : list (JS.number * JS.number))
    (s : JS.number * JS.number) (st : MonitorState) :
  feedFrameRates (samples ++ [s]) st
  = updateFrameRate (fst s) (snd s) (feedFrameRates samples st).
Proof. unfold feedFrameRates. now rewrite fold_left_app. Qed.

Lemma feedFrameRates_history (samples : list (JS.number * JS.number)) :
  frameRateHistory (feedFrameRates samples newMonitor)
  = lastn 10 (map snd samples).
Proof.
  induction samples as [|s samples IH] using rev_ind; [reflexivity|].
  rewrite feedFrameRates_snoc, map_app. cbn [map].
  unfold updateFrameRate. cbn [frameRateHistory].
  rewrite history_trim by (rewrite IH; apply lastn_length).
  rewrite IH. apply lastn_snoc.
Qed.

(** X14. After any non-empty series of calls of [updateFrameRate] on a
    new monitor, the history holds the last ten samples (all of them if
    there were fewer), oldest first; the reported frame rate is the
    rounded mean of exactly those; and [lastUpdate] is the time of the
    last call. *)
Theorem frame_rate_window (samples : list (JS.number * JS.number))
    (s : JS.number * JS.number) :
  let st := feedFrameRates (samples ++ [s]) newMonitor in
  let window := lastn 10 (map snd (samples ++ [s])) in
  frameRateHistory st = window /\
  (1 <= List.length window <= 10)%nat /\
  frameRate (getMetrics st)
  = JS.round (JS.div (sumOf window)
                     (JS.of_Z (Z.of_nat (List.length window)))) /\
  lastUpdate (getMetrics st) = fst s.
Proof.
  intros st window.
  assert (Hh : frameRateHistory st = window)
    by apply feedFrameRates_history.
  split; [exact Hh|]. split.
  - subst window. split; [|apply lastn_length].
    unfold lastn. rewrite length_skipn, length_map, length_app.
    cbn [List.length]. lia.
  - rewrite <- Hh. subst st. rewrite feedFrameRates_snoc.
    split; reflexivity.
Qed.

Lemma sumOf_within (lo hi : Q) (h : list JS.number) :
  Forall (JS.within lo hi) h ->
  forall acc : Q,
  exists s,
    fold_left JS.add h (JS.Fin acc) = JS.Fin s /\
    acc + inject_Z (Z.of_nat (List.length h)) * lo <= s /\
    s <= acc + inject_Z (Z.of_nat (List.length h)) * hi.
Proof.
  induction 1 as [|x h Hx Hh IH]; intro acc.
  - exists acc. cbn [fold_left List.length Z.of_nat].
    change (inject_Z 0) with 0. split; [reflexivity | split; lra].
  - destruct x as [| |q|]; simpl in Hx; try contradiction.
    cbn [fold_left JS.add].
    destruct (IH (acc + q)) as (s & Hs & Hlo & Hhi).
    exists s. split; [exact Hs|].
    cbn [List.length]. rewrite Nat2Z.inj_succ. unfold Z.succ.
    rewrite inject_Z_plus. change (inject_Z 1) with 1.
    split; lra.
Qed.

(** X15. The frame rate that [updateFrameRate] reports lies between any
    two integers that bound every sample of the window it averaged. *)
Theorem smoothed_rate_between (now fps : JS.number) (st : MonitorState)
    (lo hi : Z) :
  Forall (JS.within (inject_Z lo) (inject_Z hi))
         (frameRateHistory (updateFrameRate now fps st)) ->
  JS.within (inject_Z lo) (inject_Z hi)
            (frameRate (getMetrics (updateFrameRate now fps st))).
Proof.
  unfold updateFrameRate, getMetrics.
  cbn [frameRateHistory monitor metrics frameRate].
  set (h := if Nat.ltb 10 (List.length (frameRateHistory st ++ [fps]))
            then tl (frameRateHistory st ++ [fps])
            else frameRateHistory st ++ [fps]).
  assert (Hn : (1 <= List.length h)%nat).
  { subst h. destruct (Nat.ltb_spec 10 (List.length (frameRateHistory st ++ [fps])))
      as [Hlt|Hge].
    - destruct (frameRateHistory st ++ [fps]); simpl in *; lia.
    - rewrite length_app. cbn [List.length]. lia. }
  intro Hall. unfold sumOf.
  destruct (sumOf_within _ _ h Hall 0) as (s & -> & Hlo & Hhi).
  set (n := inject_Z (Z.of_nat (List.length h))) in *.
  assert (Hpos : 0 < n).
  { subst n. change 0 with (inject_Z 0). rewrite <- Zlt_Qlt. lia. }
  unfold JS.of_Z. fold n. cbn [JS.div].
  destruct (Qeq_bool n 0) eqn:E0; reflect_tests; [lra|].
  cbn [JS.round JS.within].
  assert (Hq1 : inject_Z lo <= s / n) by (apply Qle_shift_div_l; lra).
  assert (Hq2 : s / n <= inject_Z hi) by (apply Qle_shift_div_r; lra).
  split.
  - rewrite <- Zle_Qle. rewrite <- (Qfloor_Z lo).
    apply Qfloor_resp_le. lra.
  - rewrite <- Zle_Qle.
    pose proof (Qfloor_le (s / n + (1 # 2))) as Hfl.
    assert (Hlt : inject_Z (Qfloor (s / n + (1 # 2))) < inject_Z (hi + 1)).
    { rewrite inject_Z_plus. change (inject_Z 1) with 1. lra. }
    rewrite <- Zlt_Qlt in Hlt. lia.
Qed.

(** A concrete instance: two samples of 30 and 60 frames per second. *)
Lemma smoothed_rate_between_witness :
  JS.within (inject_Z 30) (inject_Z 60)
    (frameRate
       (getMetrics
          (updateFrameRate (JS.Fin 2000) (JS.Fin 60)
             (updateFrameRate (JS.Fin 1000) (JS.Fin 30) newMonitor)))).
Proof.
  apply smoothed_rate_between.
  repeat constructor; discriminate.
Defined.

(* ------------------------------------------------------------------ *)
(** ** Issues, recommendations and the debug panel *)
(* ------------------------------------------------------------------ *)

(** Which issues [getPerformanceStatus] reports for a snapshot. *)
Lemma issues_iff (m : PerformanceMetrics) :
  let l := issues (getPerformanceStatus (monitorWith m)) in
  (forall a b, In (LowFrameRate a b) l <->
               JS.lt (frameRate m) (JS.Fin 24) = true
               /\ a = frameRate m /\ b = JS.Fin 24) /\
  (forall a, In (HighMemoryUsage a) l <->
             JS.gt (memoryUsage m) (JS.Fin (1024 * 1024 * 1024)) = true
             /\ a = JS.round (JS.div (memoryUsage m) (JS.Fin (1024 * 1024)))) /\
  (forall a, In (LowCacheHitRate a) l <->
             JS.lt (cacheHitRate m) (JS.Fin (8 # 10)) = true
             /\ a = JS.round (JS.mul (cacheHitRate m) (JS.Fin 100))) /\
  (forall a, In (SlowVideoDecoding a) l <->
             JS.gt (videoDecodingTime m) (JS.Fin 50) = true
             /\ a = JS.round (videoDecodingTime m)) /\
  (forall a, In (SlowRendering a) l <->
             JS.gt (renderTime m) (JS.Fin 16) = true
             /\ a = JS.round (renderTime m)).
Proof.
  unfold getPerformanceStatus, pushIf.
  cbn [monitorWith metrics thresholds initialThresholds minFrameRate
       maxMemoryUsage minCacheHitRate maxVideoDecodingTime maxRenderTime].
  destruct (JS.lt (frameRate m) (JS.Fin 24)),
           (JS.gt (memoryUsage m) (JS.Fin (1024 * 1024 * 1024))),
           (JS.lt (cacheHitRate m) (JS.Fin (8 # 10))),
           (JS.gt (videoDecodingTime m) (JS.Fin 50)),
           (JS.gt (renderTime m) (JS.Fin 16));
    cbn [fst snd app issues In];
    repeat split; intros;
    repeat match goal with
           | H : _ \/ _ |- _ => destruct H
           | H : _ /\ _ |- _ => destruct H
           | H : False |- _ => contradiction
           | H : true = false |- _ => discriminate
           | H : false = true |- _ => discriminate
           | H : LowFrameRate _ _ = _ |- _ => inversion H; clear H; subst
           | H : HighMemoryUsage _ = _ |- _ => inversion H; clear H; subst
           | H : LowCacheHitRate _ = _ |- _ => inversion H; clear H; subst
           | H : SlowVideoDecoding _ = _ |- _ => inversion H; clear H; subst
           | H : SlowRendering _ = _ |- _ => inversion H; clear H; subst
           end;
    subst; auto 8.
Qed.

Lemma monitorStep_thresholds (e : MonitorEvent) (s : FrameLoop * MonitorState) :
  thresholds (monitor (snd (monitorStep e s))) = thresholds (monitor (snd s)).
Proof.
  destruct s as [loop st]. destruct e as [c now|[heap|]|rate|name d];
    cbn [monitorStep snd fst]; try reflexivity.
  - unfold measureFrameRate. destruct (js_ge _ _); reflexivity.
  - unfold handlePerformanceMeasure.
    destruct (String.eqb name "video-decode"); [reflexivity|].
    destruct (String.eqb name "frame-render"); reflexivity.
Qed.

Lemma monitorStep_memory (e : MonitorEvent) (s : FrameLoop * MonitorState) :
  noHeapInfo e = true ->
  memoryUsage (metrics (monitor (snd (monitorStep e s))))
  = memoryUsage (metrics (monitor (snd s))).
Proof.
  destruct s as [loop st]. destruct e as [c now|[heap|]|rate|name d];
    cbn [monitorStep snd fst noHeapInfo]; try reflexivity; try discriminate;
    intros _.
  - unfold measureFrameRate. destruct (js_ge _ _); reflexivity.
  - unfold handlePerformanceMeasure.
    destruct (String.eqb name "video-decode"); [reflexivity|].
    destruct (String.eqb name "frame-render"); reflexivity.
Qed.

Lemma monitor_eta (mon : PerformanceMonitor) :
  thresholds mon = initialThresholds -> mon = monitorWith (metrics mon).
Proof. destruct mon as [m t]. cbn. now intros ->. Qed.

Lemma monitorRun_thresholds (es : list MonitorEvent) :
  forall s,
    thresholds (monitor (snd (monitorRun es s)))
    = thresholds (monitor (snd s)).
Proof.
  unfold monitorRun. induction es as [|e es IH]; intro s; [reflexivity|].
  cbn [fold_left]. rewrite IH. apply monitorStep_thresholds.
Qed.

Lemma monitorRun_memory (es : list MonitorEvent) :
  forallb noHeapInfo es = true ->
  forall s,
    memoryUsage (metrics (monitor (snd (monitorRun es s))))
    = memoryUsage (metrics (monitor (snd s))).
Proof.
  unfold monitorRun. induction es as [|e es IH]; intros Hes s; [reflexivity|].
  cbn [forallb] in Hes. apply andb_true_iff in Hes. destruct Hes as [He Hes].
  cbn [fold_left]. rewrite (IH Hes). now apply monitorStep_memory.
Qed.

(** X16. No method changes the thresholds of a running monitor.  And on
    a platform without [performance.memory], the memory usage stays 0
    whatever else the monitor records, so no high-memory issue is ever
    reported. *)
Theorem no_heap_info_no_memory_issue (t0 : JS.number)
    (heap : option JS.number) (es : list MonitorEvent) :
  thresholds (monitor (snd (monitorRun es (startedMonitor t0 heap))))
  = initialThresholds /\
  (heap = None -> forallb noHeapInfo es = true ->
   memoryUsage (getMetrics (snd (monitorRun es (startedMonitor t0 heap))))
   = JS.Fin 0 /\
   forall mb,
     ~ In (HighMemoryUsage mb)
          (issues (getPerformanceStatus
                     (monitor (snd (monitorRun es (startedMonitor t0 heap))))))).
Proof.
  assert (Ht0 : thresholds (monitor (snd (monitorRun es (startedMonitor t0 heap))))
                = initialThresholds).
  { rewrite monitorRun_thresholds. destruct heap; reflexivity. }
  split; [exact Ht0|].
  intros -> Hes.
  pose proof (monitorRun_memory es Hes (startedMonitor t0 None)) as Hm.
  unfold getMetrics. split; [rewrite Hm; reflexivity|].
  intros mb Hin. rewrite (monitor_eta _ Ht0) in Hin.
  apply (proj1 (proj2 (issues_iff _))) in Hin. destruct Hin as [Hgt _].
  rewrite Hm in Hgt. discriminate.
Qed.

(** A concrete instance: frames, a decode measure and memory checks on a
    platform without heap figures. *)
Lemma no_heap_info_no_memory_issue_witness :
  memoryUsage
    (getMetrics
       (snd (monitorRun [AnimationFrame (JS.Fin 1016) (JS.Fin 5);
                         MemoryCheck None;
                         Measure "video-decode" (JS.Fin 80)]
                        (startedMonitor (JS.Fin 0) None))))
  = JS.Fin 0.
Proof.
  exact (proj1 (proj2 (no_heap_info_no_memory_issue (JS.Fin 0) None
                         [AnimationFrame (JS.Fin 1016) (JS.Fin 5);
                          MemoryCheck None;
                          Measure "video-decode" (JS.Fin 80)])
                      eq_refl eq_refl)).
Defined.

Lemma lt_Fin_trans (x : JS.number) (a b : Q) :
  a <= b -> JS.lt x (JS.Fin a) = true -> JS.lt x (JS.Fin b) = true.
Proof.
  intro Hab. destruct x as [| |q|]; cbn [JS.lt]; auto.
  intro H. reflect_tests. apply Qltb_lt. lra.
Qed.

Lemma gt_Fin_trans (x : JS.number) (a b : Q) :
  b <= a -> JS.gt x (JS.Fin a) = true -> JS.gt x (JS.Fin b) = true.
Proof.
  intro Hab. unfold JS.gt. destruct x as [| |q|]; cbn [JS.lt]; auto.
  intro H. reflect_tests. apply Qltb_lt. lra.
Qed.

(** X17. The recommendations agree with the status of the same
    snapshot: the smaller video settings are recommended only when the
    low frame rate is reported as an issue, and the simplified interface
    only when slow rendering is; so a snapshot whose status is good gets
    neither of the two. *)
Theorem recommendations_match_status (m : PerformanceMetrics) :
  let r := getRecommendations (monitorWith m) in
  let st := getPerformanceStatus (monitorWith m) in
  (videoSettings r = Some (mkVideoSettings (JS.Fin 4) (JS.Fin 2) (JS.Fin 1)) ->
   In (LowFrameRate (frameRate m) (JS.Fin 24)) (issues st)) /\
  (uiSettings r <> None ->
   In (SlowRendering (JS.round (renderTime m))) (issues st)) /\
  (isGood st = true ->
   uiSettings r = None /\
   (videoSettings r = None \/
    videoSettings r
    = Some (mkVideoSettings (JS.Fin 12) (JS.Fin 5) (JS.Fin 3)))).
Proof.
  intros r st.
  destruct (issues_iff m) as (Hfps & _ & _ & _ & Hrender).
  fold st in Hfps, Hrender.
  assert (Hv : videoSettings r
               = Some (mkVideoSettings (JS.Fin 4) (JS.Fin 2) (JS.Fin 1)) ->
               In (LowFrameRate (frameRate m) (JS.Fin 24)) (issues st)).
  { subst r. unfold getRecommendations. cbn [videoSettings monitorWith metrics].
    destruct (JS.lt (frameRate m) (JS.Fin 20)) eqn:E.
    - intros _. apply Hfps. repeat split.
      apply (lt_Fin_trans _ 20 24); [discriminate | exact E].
    - destruct (JS.gt (frameRate m) (JS.Fin 50)); discriminate. }
  assert (Hu : uiSettings r <> None ->
               In (SlowRendering (JS.round (renderTime m))) (issues st)).
  { subst r. unfold getRecommendations. cbn [uiSettings monitorWith metrics].
    destruct (JS.gt (renderTime m) (JS.Fin 20)) eqn:E; [|congruence].
    intros _. apply Hrender. split; [|reflexivity].
    apply (gt_Fin_trans _ 20 16); [discriminate | exact E]. }
  split; [exact Hv|]. split; [exact Hu|].
  intro Hgood.
  assert (Hnil : issues st = []).
  { subst st. unfold getPerformanceStatus in *. cbn [isGood issues] in *.
    apply Nat.eqb_eq in Hgood. now apply length_zero_iff_nil. }
  rewrite Hnil in Hv, Hu. split.
  - destruct (uiSettings r) eqn:E; [|reflexivity].
    exfalso. apply Hu. discriminate.
  - subst r. unfold getRecommendations in *.
    cbn [videoSettings monitorWith metrics] in *.
    destruct (JS.lt (frameRate m) (JS.Fin 20)).
    + exfalso. now apply Hv.
    + destruct (JS.gt (frameRate m) (JS.Fin 50)); auto.
Qed.

(** A concrete instance: 10 frames per second. *)
Lemma recommendations_match_status_witness :
  In (LowFrameRate (JS.Fin 10) (JS.Fin 24))
     (issues (getPerformanceStatus
                (monitorWith (mkMetrics (JS.Fin 10) (JS.Fin 0) (JS.Fin 1)
                                        (JS.Fin 0) (JS.Fin 0) (JS.Fin 0))))).
Proof.
  exact (proj1 (recommendations_match_status
                  (mkMetrics (JS.Fin 10) (JS.Fin 0) (JS.Fin 1)
                             (JS.Fin 0) (JS.Fin 0) (JS.Fin 0))) eq_refl).
Defined.

(** X18. Whatever video settings [getRecommendations] returns, applying
    their radius and concurrency with [configure] stores exactly the
    recommended values: both recommendations lie inside the clamping
    intervals. *)
Theorem recommendations_pass_the_clamp (mon : PerformanceMonitor)
    (v : VideoSettings) (p : VideoPreloader) :
  videoSettings (getRecommendations mon) = Some v ->
  preloadRadius (configure (configOfSettings v) p) = rec_preloadRadius v /\
  maxConcurrentPreloads (configure (configOfSettings v) p)
  = rec_maxConcurrentPreloads v /\
  JS.within 1 10 (rec_preloadRadius v) /\
  JS.within 1 4 (rec_maxConcurrentPreloads v).
Proof.
  unfold getRecommendations. cbn [videoSettings].
  destruct (JS.lt (frameRate (metrics mon)) (JS.Fin 20)).
  - intro H. inversion H; subst v. cbn. repeat split; discriminate.
  - destruct (JS.gt (frameRate (metrics mon)) (JS.Fin 50)); [|discriminate].
    intro H. inversion H; subst v. cbn. repeat split; discriminate.
Qed.

(** A concrete instance: 60 frames per second. *)
Lemma recommendations_pass_the_clamp_witness :
  preloadRadius
    (configure (configOfSettings
                  (mkVideoSettings (JS.Fin 12) (JS.Fin 5) (JS.Fin 3)))
               newPreloader) = JS.Fin 5.
Proof.
  exact (proj1 (recommendations_pass_the_clamp
                  (monitorWith (mkMetrics (JS.Fin 60) (JS.Fin 0) (JS.Fin 1)
                                          (JS.Fin 0) (JS.Fin 0) (JS.Fin 0)))
                  (mkVideoSettings (JS.Fin 12) (JS.Fin 5) (JS.Fin 3))
                  newPreloader eq_refl)).
Defined.

(* ------------------------------------------------------------------ *)
(** ** Frame rate samples *)
(* ------------------------------------------------------------------ *)

(** X19. [measureFrameRate] takes a sample only once a second or more
    has passed since the last one; until then it just counts the frame
    and leaves the monitor alone.  A sample is a whole number between 0
    and the number of frames counted, and equal to it when exactly
    1000 ms have passed. *)
Theorem frame_rate_sample (c l : Q) (count : Z) (now : JS.number)
    (st : MonitorState) :
  (0 <= count)%Z ->
  (c - l < 1000 ->
   measureFrameRate (JS.Fin c) now (mkFrameLoop (JS.Fin l) count, st)
   = (mkFrameLoop (JS.Fin l) (count + 1), st)) /\
  (1000 <= c - l ->
   exists fps : Z,
     measureFrameRate (JS.Fin c) now (mkFrameLoop (JS.Fin l) count, st)
     = (mkFrameLoop (JS.Fin c) 0, updateFrameRate now (JS.of_Z fps) st) /\
     (0 <= fps <= count + 1)%Z /\
     (c - l == 1000 -> fps = (count + 1)%Z)).
Proof.
  intro Hcount. unfold measureFrameRate, js_ge.
  cbn [lastTime frameCount JS.sub JS.add JS.neg JS.le].
  split; intro Hel.
  - destruct (Qle_bool 1000 (c + - l)) eqn:E; reflect_tests; [lra|].
    reflexivity.
  - destruct (Qle_bool 1000 (c + - l)) eqn:E; reflect_tests; [|lra].
    unfold JS.of_Z. cbn [JS.mul JS.div].
    destruct (Qeq_bool (c + - l) 0) eqn:E0; reflect_tests; [lra|].
    cbn [JS.round].
    set (n := inject_Z (count + 1)).
    set (x := n * 1000 / (c + - l)).
    exists (Qfloor (x + (1 # 2))). split; [reflexivity|].
    assert (Hn : 1 <= n).
    { subst n. change 1 with (inject_Z 1). rewrite <- Zle_Qle. lia. }
    assert (Hx0 : 0 <= x).
    { subst x. apply Qle_shift_div_l; lra. }
    assert (Hxn : x <= n).
    { subst x. apply Qle_shift_div_r; [lra|].
      apply Qmult_le_l; lra. }
    split; [split|].
    + rewrite <- (Qfloor_Z 0). apply Qfloor_resp_le.
      change (inject_Z 0) with 0. lra.
    + pose proof (Qfloor_le (x + (1 # 2))) as Hfl.
      assert (Hlt : inject_Z (Qfloor (x + (1 # 2))) < inject_Z (count + 1 + 1)).
      { rewrite (inject_Z_plus (count + 1) 1). fold n.
        change (inject_Z 1) with 1. lra. }
      rewrite <- Zlt_Qlt in Hlt. lia.
    + intro Heq.
      assert (Hx : x == n).
      { subst x. unfold Qminus in Heq. rewrite Heq. field. }
      assert (Hfloor : Qfloor (x + (1 # 2)) = Qfloor (inject_Z (count + 1))).
      { apply Z.le_antisymm.
        - pose proof (Qfloor_le (x + (1 # 2))) as Hfl.
          rewrite Qfloor_Z.
          assert (Hlt : inject_Z (Qfloor (x + (1 # 2)))
                        < inject_Z (count + 1 + 1)).
          { rewrite (inject_Z_plus (count + 1) 1). fold n.
            change (inject_Z 1) with 1. lra. }
          rewrite <- Zlt_Qlt in Hlt. lia.
        - apply Qfloor_resp_le. fold n. lra. }
      rewrite Hfloor. apply Qfloor_Z.
Qed.

(** A concrete instance: the sixtieth frame arrives 1000 ms after the
    last sample. *)
Lemma frame_rate_sample_witness :
  exists fps : Z,
    measureFrameRate (JS.Fin 1000) (JS.Fin 7)
                     (mkFrameLoop (JS.Fin 0) 59, newMonitor)
    = (mkFrameLoop (JS.Fin 1000) 0,
       updateFrameRate (JS.Fin 7) (JS.of_Z fps) newMonitor) /\
    (0 <= fps <= 59 + 1)%Z /\
    (1000 - 0 == 1000 -> fps = (59 + 1)%Z).
Proof.
  assert (H : (0 <= 59)%Z) by lia.
  apply (proj2 (frame_rate_sample 1000 0 59 (JS.Fin 7) newMonitor H)).
  discriminate.
Defined.

(* ------------------------------------------------------------------ *)
(** ** The debug panel against the monitor *)
(* ------------------------------------------------------------------ *)

(** X20. The badge colour the panel computes for the grade of the
    monitor is never the fallback grey, and it is green exactly when the
    status of the same monitor is good. *)
Theorem grade_badge_colour (mon : PerformanceMonitor) :
  getGradeColor (getPerformanceGrade mon) <> "bg-gray-500"%string /\
  (getGradeColor (getPerformanceGrade mon) = "bg-green-500"%string
   <-> isGood (getPerformanceStatus mon) = true).
Proof.
  unfold getPerformanceGrade.
  assert (Hgood : isGood (getPerformanceStatus mon)
                  = Nat.eqb (List.length (issues (getPerformanceStatus mon))) 0)
    by reflexivity.
  rewrite Hgood.
  destruct (List.length (issues (getPerformanceStatus mon)))
    as [|[|[|[|n]]]]; cbn; split; try discriminate; split; discriminate || auto.
Qed.

(** X21. The red highlights of the panel agree with the issues the
    monitor reports for the same snapshot: the frame rate, the cache hit
    rate and the render time are shown in red exactly when the status
    lists the matching issue, and the percentage and the milliseconds
    shown are the numbers in the issue. *)
Theorem panel_highlights_match_issues (m : PerformanceMetrics) :
  let l := issues (getPerformanceStatus (monitorWith m)) in
  (fpsClass m = "text-red-500"%string
   <-> In (LowFrameRate (frameRate m) (JS.Fin 24)) l) /\
  (cacheHitClass m = "text-red-500"%string
   <-> In (LowCacheHitRate (shownCacheHit m)) l) /\
  (renderClass m = "text-red-500"%string
   <-> In (SlowRendering (shownRender m)) l).
Proof.
  intro l. destruct (issues_iff m) as (Hfps & _ & Hhit & _ & Hrender).
  fold l in Hfps, Hhit, Hrender.
  unfold fpsClass, cacheHitClass, renderClass, shownCacheHit, shownRender.
  rewrite Hfps, Hhit, Hrender.
  destruct (JS.lt (frameRate m) (JS.Fin 24)),
           (JS.lt (cacheHitRate m) (JS.Fin (8 # 10))),
           (JS.gt (renderTime m) (JS.Fin 16));
    repeat split; intros; try discriminate; try tauto;
    repeat match goal with H : _ /\ _ |- _ => destruct H end;
    discriminate.
Qed.

(* ------------------------------------------------------------------ *)
(** ** The mask frame *)
(* ------------------------------------------------------------------ *)

Lemma Qabs_cases (x : Q) :
  0 <= Qabs x /\ (Qabs x == x \/ Qabs x == - x).
Proof.
  split; [apply Qabs_nonneg|].
  destruct (Qlt_le_dec x 0) as [H|H].
  - right. apply Qabs_neg. lra.
  - left. now apply Qabs_pos.
Qed.





Lemma same_sym (x y : JS.number) : JS.same x y -> JS.same y x.
Proof.
  destruct x, y; simpl; auto. intro H. now symmetry.
Qed.

Lemma min_comm_same (a b : JS.number) : JS.same (JS.min a b) (JS.min b a).
Proof.
  destruct a as [| |p|], b as [| |q|]; js_reduce; try exact I;
    try apply Qeq_refl.
  destruct (Qle_bool p q) eqn:E1, (Qle_bool q p) eqn:E2; reflect_tests;
    cbn [JS.same]; lra.
Qed.

Lemma abs_sub_swap (a b : JS.number) :
  JS.same (JS.abs (JS.sub b a)) (JS.abs (JS.sub a b)).
Proof.
  destruct a as [| |p|], b as [| |q|]; js_reduce; try exact I.
  cbn [JS.same].
  destruct (Qabs_cases (q + - p)) as [_ [H1|H1]],
           (Qabs_cases (p + - q)) as [H0 [H2|H2]];
    pose proof (Qabs_nonneg (q + - p)); lra.
Qed.

Lemma min_same (a a' b b' : JS.number) :
  JS.same a a' -> JS.same b b' -> JS.same (JS.min a b) (JS.min a' b').
Proof.
  destruct a as [| |p|], a' as [| |p'|]; simpl; try contradiction;
    destruct b as [| |q|], b' as [| |q'|]; simpl; try contradiction; auto.
  intros Hp Hq.
  destruct (Qle_bool p q) eqn:E1, (Qle_bool p' q') eqn:E2; reflect_tests;
    cbn [JS.same]; lra.
Qed.

Lemma max_same (a a' b b' : JS.number) :
  JS.same a a' -> JS.same b b' -> JS.same (JS.max a b) (JS.max a' b').
Proof.
  destruct a as [| |p|], a' as [| |p'|]; simpl; try contradiction;
    destruct b as [| |q|], b' as [| |q'|]; simpl; try contradiction; auto.
  intros Hp Hq.
  destruct (Qle_bool p q) eqn:E1, (Qle_bool p' q') eqn:E2; reflect_tests;
    cbn [JS.same]; lra.
Qed.

Lemma sub_same (a a' b b' : JS.number) :
  JS.same a a' -> JS.same b b' -> JS.same (JS.sub a b) (JS.sub a' b').
Proof.
  destruct a as [| |p|], a' as [| |p'|]; simpl; try contradiction;
    destruct b as [| |q|], b' as [| |q'|]; simpl; try contradiction; auto.
  intros Hp Hq. lra.
Qed.

(** X23. The rectangle drawn for a mask does not depend on the order of
    its two corner points, whatever numbers the coordinates and the
    canvas size are. *)
Theorem rectangle_corner_order (W H : JS.number) (p0 p1 : Point)
    (rest rest' : list Point) (sw sw' : option JS.number) :
  sameCommand
    (drawMask W H (mkMask RectangleMask (p0 :: p1 :: rest) sw))
    (drawMask W H (mkMask RectangleMask (p1 :: p0 :: rest') sw')).
Proof.
  cbn [drawMask mask_type points sameCommand]. unfold clampToCanvas.
  assert (Hx : JS.same
                 (JS.max (JS.Fin 0) (JS.min (JS.min (pt_x p0) (pt_x p1)) W))
                 (JS.max (JS.Fin 0) (JS.min (JS.min (pt_x p1) (pt_x p0)) W))).
  { apply max_same; [apply Qeq_refl|].
    apply min_same; [apply min_comm_same | apply same_refl]. }
  assert (Hy : JS.same
                 (JS.max (JS.Fin 0) (JS.min (JS.min (pt_y p0) (pt_y p1)) H))
                 (JS.max (JS.Fin 0) (JS.min (JS.min (pt_y p1) (pt_y p0)) H))).
  { apply max_same; [apply Qeq_refl|].
    apply min_same; [apply min_comm_same | apply same_refl]. }
  split; [exact Hx|]. split; [exact Hy|]. split.
  - apply min_same; [apply abs_sub_swap|].
    apply sub_same; [apply same_refl | exact Hx].
  - apply min_same; [apply abs_sub_swap|].
    apply sub_same; [apply same_refl | exact Hy].
Qed.

Lemma clampToCanvas_within (v : JS.number) (size : Q) :
  0 <= size -> v <> JS.NaN ->
  JS.within 0 size (clampToCanvas v (JS.Fin size)).
Proof.
  intros Hs Hv. unfold clampToCanvas.
  destruct v as [| |q|]; js_reduce; try congruence.
  - split; lra.
  - destruct (Qle_bool q size) eqn:E1; js_reduce;
      match goal with |- context [Qle_bool 0 ?u] =>
        destruct (Qle_bool 0 u) eqn:E2 end;
      reflect_tests; cbn [JS.within]; split; lra.
  - destruct (Qle_bool 0 size) eqn:E; reflect_tests; cbn [JS.within];
      split; lra.
Qed.

Lemma clampToCanvas_clampedInto (v : JS.number) (size : Q) :
  0 <= size -> clampedInto size v (clampToCanvas v (JS.Fin size)).
Proof.
  intro Hs. unfold clampedInto.
  split; [intros ->; reflexivity|].
  split; [now apply clampToCanvas_within|].
  unfold clampToCanvas.
  destruct v as [| |q|]; cbn [JS.within JS.lt JS.gt JS.min JS.max];
    repeat split; try contradiction; try discriminate; intro Hq;
    try (destruct (Qle_bool q size) eqn:E1; cbn [JS.max]);
    try match goal with |- context [Qle_bool 0 ?u] =>
          destruct (Qle_bool 0 u) eqn:E2 end;
    reflect_tests; cbn [JS.same]; lra.
Qed.

(** X24. A brush mask with at least two points is drawn as one filled
    path whose vertices are the points of the mask in their order, each
    coordinate brought into the canvas: kept when it lies inside, moved
    to the nearer edge when it lies outside, and NaN when it is NaN.  The
    line width is the stroke width of the mask when that is a number
    other than 0 and NaN, and 20 when the mask has none or has 0 or
    NaN. *)
Theorem brush_path_inside_canvas (W H : Q) (p0 p1 : Point)
    (rest : list Point) (sw : option JS.number) :
  0 <= W -> 0 <= H ->
  exists vertices width,
    drawMask (JS.Fin W) (JS.Fin H) (mkMask BrushMask (p0 :: p1 :: rest) sw)
    = Some (FillPath vertices width) /\
    Forall2 (fun p v => clampedInto W (pt_x p) (pt_x v)
                        /\ clampedInto H (pt_y p) (pt_y v))
            (p0 :: p1 :: rest) vertices /\
    (forall w, sw = Some w -> w <> JS.NaN -> ~ JS.same w (JS.Fin 0) ->
               width = w) /\
    (sw = None \/ sw = Some JS.NaN
     \/ (exists z, sw = Some (JS.Fin z) /\ z == 0) ->
     width = JS.Fin 20).
Proof.
  intros HW HH.
  cbn [drawMask mask_type points].
  eexists. eexists. split; [reflexivity|].
  split; [|split].
  - generalize (p0 :: p1 :: rest). intro l.
    induction l as [|p l IH]; cbn [map]; constructor; [|exact IH].
    cbn [pt_x pt_y]. split; now apply clampToCanvas_clampedInto.
  - intros w -> Hn H0. unfold lineWidthOf. cbn [strokeWidth].
    destruct w as [| |z|]; cbn [js_not]; try reflexivity; [congruence|].
    destruct (Qeq_bool z 0) eqn:E; [|reflexivity].
    reflect_tests. exfalso. apply H0. exact E.
  - unfold lineWidthOf. cbn [strokeWidth].
    intros [-> | [-> | (z & -> & Hz)]]; try reflexivity.
    cbn [js_not]. apply Qeq_bool_iff in Hz. now rewrite Hz.
Qed.

(** A concrete instance: a stroke that leaves the canvas on both sides,
    with a stroke width of 0. *)
Lemma brush_path_inside_canvas_witness :
  exists vertices width,
    drawMask (JS.Fin 200) (JS.Fin 100)
      (mkMask BrushMask
         [mkPoint (JS.Fin (-5)) (JS.Fin 10); mkPoint (JS.Fin 100) (JS.Fin 50);
          mkPoint (JS.Fin 300) JS.PosInf]
         (Some (JS.Fin 0)))
    = Some (FillPath vertices width) /\
    Forall2 (fun p v => clampedInto 200 (pt_x p) (pt_x v)
                        /\ clampedInto 100 (pt_y p) (pt_y v))
            [mkPoint (JS.Fin (-5)) (JS.Fin 10); mkPoint (JS.Fin 100) (JS.Fin 50);
             mkPoint (JS.Fin 300) JS.PosInf]
            vertices.
Proof.
  destruct (brush_path_inside_canvas 200 100
              (mkPoint (JS.Fin (-5)) (JS.Fin 10))
              (mkPoint (JS.Fin 100) (JS.Fin 50))
              [mkPoint (JS.Fin 300) JS.PosInf] (Some (JS.Fin 0)))
    as (vs & wd & Hd & Hv & _).
  - discriminate.
  - discriminate.
  - exists vs, wd. split; assumption.
Defined.

(** X25. A mask draws nothing exactly when it is an eraser mask or has
    fewer than two points; so no more shapes are drawn than there are
    masks. *)
Theorem masks_that_draw_nothing (W H : JS.number) (m : MaskShape)
    (masks : list MaskShape) :
  (drawMask W H m = None
   <-> mask_type m = EraserMask \/ (List.length (points m) < 2)%nat) /\
  (List.length (drawMasks W H masks) <= List.length masks)%nat.
Proof.
  split.
  - unfold drawMask.
    destruct (mask_type m), (points m) as [|p0 [|p1 rest]];
      cbn [List.length]; split; intro Hn;
      try reflexivity; try discriminate;
      try (right; lia); try (now left);
      destruct Hn as [Hn|Hn]; try discriminate; lia.
  - unfold drawMasks. induction masks as [|m0 masks IH]; [simpl; lia|].
    cbn [flat_map]. rewrite length_app.
    destruct (drawMask W H m0); cbn [List.length]; lia.
Qed.

(** X26. The timing checks of [generateMaskVideo].  The frame count is
    rejected exactly when it is not greater than 0 (NaN, 0 or negative),
    whatever the frame rate; the frame rate is rejected exactly when the
    frame count is accepted and the rate is not greater than 0.  Whenever
    the checks pass, frame count, frame rate and duration are all greater
    than 0.  Infinite values get past the first two checks: an infinite
    frame count passes at a finite rate, with an infinite duration, and
    an infinite rate is only caught by the check of the duration. *)
Theorem videoDuration_checks (frameCount fps : JS.number) :
  (forall x,
     videoDuration frameCount fps = inl (InvalidFrameCount x) <->
     x = frameCount /\ JS.gt frameCount (JS.Fin 0) = false) /\
  (forall x,
     videoDuration frameCount fps = inl (InvalidFps x) <->
     x = fps /\ JS.gt frameCount (JS.Fin 0) = true
     /\ JS.gt fps (JS.Fin 0) = false) /\
  (forall d,
     videoDuration frameCount fps = inr d ->
     JS.gt frameCount (JS.Fin 0) = true /\ JS.gt fps (JS.Fin 0) = true /\
     JS.gt d (JS.Fin 0) = true) /\
  (frameCount = JS.PosInf ->
   (forall r, fps = JS.Fin r -> 0 < r ->
              videoDuration frameCount fps = inr JS.PosInf) /\
   (fps = JS.PosInf ->
    videoDuration frameCount fps = inl (InvalidDuration JS.NaN))) /\
  (fps = JS.PosInf ->
   forall n, frameCount = JS.Fin n -> 0 < n ->
             videoDuration frameCount fps = inl (InvalidDuration (JS.Fin 0))).
Proof.
  assert (Hgt : forall x, js_not x || JS.le x (JS.Fin 0)
                          = negb (JS.gt x (JS.Fin 0))).
  { intros [| |q|]; cbn [js_not JS.le JS.gt JS.lt orb negb]; try reflexivity.
    unfold JS.Qltb. rewrite negb_involutive.
    destruct (Qeq_bool q 0) eqn:E; [|reflexivity].
    reflect_tests. symmetry. apply Qle_bool_iff. lra. }
  unfold videoDuration. rewrite !Hgt.
  split; [|split; [|split; [|split]]].
  - intro x.
    destruct (JS.gt frameCount (JS.Fin 0)); cbn [negb].
    + split; [|intros [_ Hf]; discriminate].
      destruct (negb (JS.gt fps (JS.Fin 0))); [discriminate|].
      destruct (negb (JS.gt (JS.div frameCount fps) (JS.Fin 0)));
        discriminate.
    + split; [intro Hx; inversion Hx; auto | intros [-> _]; reflexivity].
  - intro x.
    destruct (JS.gt frameCount (JS.Fin 0)); cbn [negb];
      [|split; [discriminate | intros (_ & Hf & _); discriminate]].
    destruct (JS.gt fps (JS.Fin 0)); cbn [negb].
    + split; [|intros (_ & _ & Hf); discriminate].
      destruct (negb (JS.gt (JS.div frameCount fps) (JS.Fin 0)));
        discriminate.
    + split; [intro Hx; inversion Hx; auto | intros (-> & _); reflexivity].
  - intro d.
    destruct (JS.gt frameCount (JS.Fin 0)); cbn [negb]; [|discriminate].
    destruct (JS.gt fps (JS.Fin 0)); cbn [negb]; [|discriminate].
    destruct (JS.gt (JS.div frameCount fps) (JS.Fin 0)) eqn:E; cbn [negb];
      [|discriminate].
    intro Hd. inversion Hd; subst d. auto.
  - intros ->. split.
    + intros r -> Hr. cbn [JS.gt JS.lt negb JS.div].
      assert (E0 : JS.Qltb 0 r = true) by now apply Qltb_lt.
      assert (E1 : JS.Qltb r 0 = false) by (apply Qltb_ge; lra).
      rewrite E0, E1. reflexivity.
    + intros ->. reflexivity.
  - intros -> n -> Hn. cbn [JS.gt JS.lt negb JS.div].
    assert (E0 : JS.Qltb 0 n = true) by now apply Qltb_lt.
    rewrite E0. reflexivity.
Qed.

(** A concrete instance: an infinite frame count at 16 frames per
    second. *)
Lemma videoDuration_checks_witness :
  videoDuration JS.PosInf (JS.Fin 16) = inr JS.PosInf.
Proof.
  apply (proj1 (proj1 (proj2 (proj2 (proj2
           (videoDuration_checks JS.PosInf (JS.Fin 16))))) eq_refl) 16).
  - reflexivity.
  - reflexivity.
Defined.
